(** * SightMate interaction orchestrator: a shallow embedding of App.tsx

    The React component [App] (src/unnamed/part_000) coordinates a voice
    command pipeline, a perception ("walking") loop, a navigation narrator,
    a watchdog and an emergency-verification dialogue.  All of them are
    asynchronous functions running on one event queue.

    The embedding is a defunctionalised event loop:
    - the component's [useState] cells and [useRef] cells are fields of one
      record [World];
    - every [async] function is cut at its [await]s into synchronous
      segments; the point where a function is suspended is a constructor of
      [Cont] that stores the locals the rest of the function reads;
    - the environment (browser, speech engine, camera, Gemini service,
      timers) decides which suspended continuation is resumed next and with
      which result: an [Event];
    - externally visible effects (speech, tones, listening, captures,
      scheduled timers) are recorded in a trace, newest first. *)

From Stdlib Require Import Bool List ZArith Lia String Ascii Arith.
Import ListNotations.
Open Scope string_scope.
Open Scope Z_scope.

(** ** types.ts *)

Inductive AppState :=
| IDLE | LISTENING | PROCESSING_INTENT | CAPTURING | ANALYZING | SPEAKING
| WALKING | NAVIGATING | EMERGENCY_CHECK | EMERGENCY_ACTING | ERROR.

Inductive IntentType :=
| DESCRIBE | READ_TEXT | SAFETY_CHECK | HANDS_FREE_ON | HANDS_FREE_OFF
| WALKING_MODE_ON | WALKING_MODE_OFF | NAVIGATE | STOP_NAVIGATION
| WHERE_AM_I | COMPANION_MODE_ON | COMPANION_MODE_OFF | UNKNOWN.

Inductive EmergencySeverity := low | medium | high.

Inductive Category :=
| c_ground | c_level_change | c_obstacle | c_moving | c_structural
| c_environmental | c_animal | c_personal | c_fall | c_none.

Inductive SoundKind := snd_start | snd_end | snd_success | snd_error | snd_warning | snd_navigation.

Record IntentResult := {
  type : IntentType;
  destination : option string  (* destination?: string *)
}.

(** What getWalkingDirections hands over is [JSON.parse(response.text ||
    "{}")], unchecked: any field of the plan may be missing ([None] is
    undefined).  A field that is there has the type the interface and the
    response schema give it. *)
Record NavigationPlan := {
  plan_destination : option string;
  steps : option (list string);
  totalDistance : option string;
  totalTime : option string
}.

Record WalkingHazard := {
  hazard_type : string;
  category : Category;
  message : string
}.

Scheme Equality for AppState.
Scheme Equality for IntentType.
Scheme Equality for EmergencySeverity.
Scheme Equality for Category.

Definition list_string_eqb (a b : list string) : bool :=
  if list_eq_dec string_dec a b then true else false.

Definition option_eqb {A : Type} (eqb : A -> A -> bool) (a b : option A) : bool :=
  match a, b with
  | Some x, Some y => eqb x y
  | None, None => true
  | _, _ => false
  end.

Definition plan_eqb (p q : NavigationPlan) : bool :=
  option_eqb String.eqb (plan_destination p) (plan_destination q)
  && option_eqb list_string_eqb (steps p) (steps q)
  && option_eqb String.eqb (totalDistance p) (totalDistance q)
  && option_eqb String.eqb (totalTime p) (totalTime q).

Definition oplan_eqb (p q : option NavigationPlan) : bool :=
  match p, q with
  | None, None => true
  | Some a, Some b => plan_eqb a b
  | _, _ => false
  end.

(** ** The string operations the component uses

    A string is the UTF-8 encoding of the JavaScript string, one [ascii]
    per byte.  [js_length] counts UTF-16 code units and [trim] strips the
    white space and line terminators of ECMAScript, as [length] and [trim]
    do in the source; a test of the length against 0 is a test for the
    empty string and is written with the number of bytes.  [toLowerCase]
    maps the capitals whose lower case holds an ASCII character: A to Z,
    U+212A (Kelvin sign, E2 84 AA) to k, and U+0130 (capital I with dot
    above, C4 B0) to i followed by U+0307 (CC 87).  The lower case of every
    other capital lies outside ASCII and is not modelled: the component
    only searches lower-cased text for ASCII needles, and on those the
    result agrees with the source. *)

Definition lower_ascii (c : ascii) : ascii :=
  let n := nat_of_ascii c in
  if (Nat.leb 65 n && Nat.leb n 90)%bool then ascii_of_nat (n + 32) else c.

Definition is_kelvin (a b c : ascii) : bool :=
  Nat.eqb (nat_of_ascii a) 226 && Nat.eqb (nat_of_ascii b) 132
  && Nat.eqb (nat_of_ascii c) 170.

Definition is_dotted_I (a b : ascii) : bool :=
  Nat.eqb (nat_of_ascii a) 196 && Nat.eqb (nat_of_ascii b) 176.

Fixpoint toLowerCase (s : string) : string :=
  match s with
  | EmptyString => EmptyString
  | String a r1 =>
    match r1 with
    | EmptyString => String (lower_ascii a) (toLowerCase r1)
    | String b r2 =>
      if is_dotted_I a b then
        String "i" (String (ascii_of_nat 204) (String (ascii_of_nat 135) (toLowerCase r2)))
      else
        match r2 with
        | EmptyString => String (lower_ascii a) (toLowerCase r1)
        | String c r3 =>
          if is_kelvin a b c then String "k" (toLowerCase r3)
          else String (lower_ascii a) (toLowerCase r1)
        end
    end
  end.

(** JavaScript truthiness of a string. *)
Definition truthy (s : string) : bool := negb (String.eqb s "").

(** The white space and line terminators that [trim] strips, by the length
    of their encoding: U+0009 to U+000D and U+0020; U+00A0 (C2 A0); U+1680
    (E1 9A 80), U+2000 to U+200A, U+2028, U+2029 and U+202F (E2 80 80..8A,
    A8, A9, AF), U+205F (E2 81 9F), U+3000 (E3 80 80) and U+FEFF
    (EF BB BF). *)
Definition is_space (c : ascii) : bool :=
  let n := nat_of_ascii c in
  (Nat.eqb n 32 || (Nat.leb 9 n && Nat.leb n 13))%bool.

Definition is_space2 (a b : ascii) : bool :=
  Nat.eqb (nat_of_ascii a) 194 && Nat.eqb (nat_of_ascii b) 160.

Definition is_space3 (a b c : ascii) : bool :=
  let x := nat_of_ascii a in
  let y := nat_of_ascii b in
  let z := nat_of_ascii c in
  (Nat.eqb x 225 && Nat.eqb y 154 && Nat.eqb z 128)
  || (Nat.eqb x 226 && Nat.eqb y 128
      && ((Nat.leb 128 z && Nat.leb z 138)
          || Nat.eqb z 168 || Nat.eqb z 169 || Nat.eqb z 175))
  || (Nat.eqb x 226 && Nat.eqb y 129 && Nat.eqb z 159)
  || (Nat.eqb x 227 && Nat.eqb y 128 && Nat.eqb z 128)
  || (Nat.eqb x 239 && Nat.eqb y 187 && Nat.eqb z 191).

Fixpoint trimStart (s : string) : string :=
  match s with
  | EmptyString => s
  | String a r1 =>
    if is_space a then trimStart r1
    else
      match r1 with
      | EmptyString => s
      | String b r2 =>
        if is_space2 a b then trimStart r2
        else
          match r2 with
          | EmptyString => s
          | String c r3 => if is_space3 a b c then trimStart r3 else s
          end
      end
  end.

(** [trimEnd] cuts the string where only white space is left. *)
Fixpoint trimEnd (s : string) : string :=
  match s with
  | EmptyString => EmptyString
  | String a r => if truthy (trimStart s) then String a (trimEnd r) else EmptyString
  end.

Definition trim (s : string) : string := trimEnd (trimStart s).

(** [s.length]: the number of UTF-16 code units.  A character of the basic
    plane (one to three bytes) is one unit, any other (four bytes) is a
    surrogate pair; continuation bytes count with their lead byte. *)
Definition utf16_units (c : ascii) : nat :=
  let n := nat_of_ascii c in
  if Nat.ltb n 128 then 1%nat
  else if Nat.ltb n 192 then 0%nat
  else if Nat.ltb n 240 then 1%nat
  else 2%nat.

Fixpoint js_length (s : string) : nat :=
  match s with
  | EmptyString => 0%nat
  | String c r => (utf16_units c + js_length r)%nat
  end.

(** [includes hay needle] is [hay.includes(needle)]. *)
Fixpoint includes (hay needle : string) : bool :=
  if String.prefix needle hay then true
  else match hay with
       | EmptyString => false
       | String _ r => includes r needle
       end.

(** JavaScript truthiness of an optional string. *)

Definition otruthy (s : option string) : bool :=
  match s with Some t => truthy t | None => false end.

(** ** Suspension points

    One constructor per [await] (or timer, or [.then]) of App.tsx, holding
    the locals that the code after the suspension point still reads. *)

Inductive Cont :=
(* handleButtonPress *)
| K_hb_listen (currentInteractionId : Z)   (* await audioService.listen() *)
| K_hb_retry_spoken                        (* await speak("I didn’t hear you, please try again.", true) *)
(* processCommand *)
| K_pc_classify (commandId : Z)            (* await classifyIntent(transcript, signal) *)
| K_pc_companion_on                        (* await speak("I'm here with you now...") *)
| K_pc_companion_off                       (* await speak("Quiet mode enabled.") *)
| K_pc_ask_destination                     (* await speak("Where would you like to go?") *)
| K_pc_geolocate (commandId : Z) (dest : string)  (* await getCurrentPosition, timeout 4000 *)
| K_pc_directions (commandId : Z)          (* await getWalkingDirections(...) *)
| K_pc_route_found                         (* await speak("Route found. ...") *)
| K_pc_stop_navigation                     (* await speak("Navigation stopped.") *)
| K_pc_walking_on                          (* await speak("Walking mode active. I'm with you.") *)
| K_pc_walking_off                         (* await speak("Walking mode disabled.") *)
| K_pc_locate (commandId : Z) (intent : IntentResult) (* await getCurrentPosition, timeout 6000 *)
| K_pc_settle (commandId : Z) (intent : IntentResult) (* await setTimeout 400 *)
| K_pc_capture (commandId : Z) (intent : IntentResult) (* await capture(false, false) *)
| K_pc_analysis (commandId : Z)            (* await analyzeImage(...) *)
| K_pc_answer_spoken                       (* await speak(analysis) *)
(* runWalkingLoop *)
| K_wl_capture1                            (* await capture(true, true) *)
| K_wl_retry_delay                         (* await setTimeout 100 *)
| K_wl_capture2                            (* await capture(true, true), the retry *)
| K_wl_analysis                            (* await analyzeWalkingSafety(frame, signal) *)
| K_wl_hazard_spoken                       (* await speak(hazard.message, true) *)
| K_wl_clear_spoken                        (* await speak("Path clear.") *)
(* emergency protocol *)
| K_em_asked                               (* await speak("... Are you okay?", true) *)
| K_ev_listen (attempt : nat)              (* await audioService.listen(timeout) *)
| K_ev_safe_spoken                         (* await speak("I'm glad you are safe. Resuming.") *)
| K_nr_reprompted (attempt : nat)          (* await speak("I didn't hear you. Please say ...", true) *)
| K_ea_announced                           (* await speak("Emergency help has been contacted...", true) *)
(* startNavigationLoop *)
| K_nav_step_spoken                        (* speak(stepText).then(...) *)
| T_nav_advance                            (* setTimeout(..., 14000) *)
| T_nav_retry                              (* setTimeout(startNavigationLoop, 3000) *)
(* other timers and fire-and-forget speech *)
| T_walking_loop                           (* setTimeout(runWalkingLoop, WALKING_LOOP_DELAY) *)
| T_restore                                (* setTimeout(restoreState, 3000) in handleError *)
| K_spoken.                                (* a speak() whose promise nobody awaits *)

(** The continuations that wait for an utterance to end: when the speech
    engine fires [onend] or [onerror], [speak] clears [isSpeaking] and
    resolves. *)
Definition awaits_speech (k : Cont) : bool :=
  match k with
  | K_hb_retry_spoken | K_pc_companion_on | K_pc_companion_off
  | K_pc_ask_destination | K_pc_route_found | K_pc_stop_navigation
  | K_pc_walking_on | K_pc_walking_off | K_pc_answer_spoken
  | K_wl_hazard_spoken | K_wl_clear_spoken | K_em_asked | K_ev_safe_spoken
  | K_nr_reprompted _ | K_ea_announced | K_nav_step_spoken | K_spoken => true
  | _ => false
  end.

(** The continuations of [runWalkingLoop]: a capture+analyze cycle that has
    acquired the in-flight guard and has not yet reached its [finally]. *)
Definition in_cycle (k : Cont) : bool :=
  match k with
  | K_wl_capture1 | K_wl_retry_delay | K_wl_capture2 | K_wl_analysis
  | K_wl_hazard_spoken | K_wl_clear_spoken => true
  | _ => false
  end.

(** ** What the environment hands back when a continuation is resumed

    One record for every kind of awaited call; a continuation reads the
    fields of the call it was waiting for.  [r_ok = false] is a rejected
    promise with [Error(r_error)]. *)
Record Resp := {
  r_ok : bool;
  r_error : string;
  r_text : string;                    (* transcript of listen / text of analyzeImage *)
  r_intent : IntentResult;            (* classifyIntent *)
  r_plan : option NavigationPlan;     (* getWalkingDirections *)
  r_frame : option string;            (* Camera.capture: frame or null *)
  r_hazard : option WalkingHazard;    (* analyzeWalkingSafety *)
  r_now : Z;                          (* Date.now() read after the resumption *)
  r_random_gt_095 : bool;             (* Math.random() > 0.95 *)
  r_phrase : nat                      (* Math.floor(Math.random() * COMPANION_PHRASES.length) *)
}.

(** ** Observable effects *)
Inductive Action :=
| A_speak (text : string) (priority : bool)
| A_stopSpeaking
| A_playSound (k : SoundKind)
| A_vibrate (ms : Z)
| A_listen (maxDurationSeconds : Z)
| A_stopListening
| A_capture (lowRes silent : bool)
| A_classifyIntent (transcript : string)
| A_geolocate (timeout : Z)
| A_getWalkingDirections (dest : string)
| A_analyzeImage (image : string)
| A_analyzeWalkingSafety (frame : string)
| A_setTimeout (callback : Cont) (delay : Z)
| A_abort
| A_uncaught (error : string)   (* an exception leaves a timer callback: the browser reports it *)
| A_unmount (error : string).   (* an exception leaves an effect: React unmounts the component *)

(** ** The component's state: React state cells, refs, the speech flag of
    audioService, the suspended continuations with their handles, and the
    trace of effects (newest first). *)
Record World := {
  appState : AppState;
  isWalkingFeatureActive : bool;
  isNavigating : bool;
  isCompanionMode : bool;
  navPlan : option NavigationPlan;
  currentStepIndex : nat;
  appStateRef : AppState;
  isWalkingFeatureActiveRef : bool;
  isNavigatingRef : bool;
  isCompanionModeRef : bool;
  navPlanRef : option NavigationPlan;
  stepIndexRef : nat;
  isAnalyzingFrameRef : bool;
  interactionIdRef : Z;
  lastButtonPressRef : Z;
  lastCompanionMsgRef : Z;
  lastLoopTimeRef : Z;
  emergencySeverityRef : EmergencySeverity;
  navTimerRef : option nat;
  abortControllerRef : bool;
  isSpeaking : bool;
  pending : list (nat * Cont);
  nextId : nat;
  trace : list Action
}.

Definition set_appState (v : AppState) (w : World) : World :=
  Build_World v (isWalkingFeatureActive w) (isNavigating w) (isCompanionMode w) (navPlan w) (currentStepIndex w) (appStateRef w) (isWalkingFeatureActiveRef w) (isNavigatingRef w) (isCompanionModeRef w) (navPlanRef w) (stepIndexRef w) (isAnalyzingFrameRef w) (interactionIdRef w) (lastButtonPressRef w) (lastCompanionMsgRef w) (lastLoopTimeRef w) (emergencySeverityRef w) (navTimerRef w) (abortControllerRef w) (isSpeaking w) (pending w) (nextId w) (trace w).

Definition set_isWalkingFeatureActive (v : bool) (w : World) : World :=
  Build_World (appState w) v (isNavigating w) (isCompanionMode w) (navPlan w) (currentStepIndex w) (appStateRef w) (isWalkingFeatureActiveRef w) (isNavigatingRef w) (isCompanionModeRef w) (navPlanRef w) (stepIndexRef w) (isAnalyzingFrameRef w) (interactionIdRef w) (lastButtonPressRef w) (lastCompanionMsgRef w) (lastLoopTimeRef w) (emergencySeverityRef w) (navTimerRef w) (abortControllerRef w) (isSpeaking w) (pending w) (nextId w) (trace w).

Definition set_isNavigating (v : bool) (w : World) : World :=
  Build_World (appState w) (isWalkingFeatureActive w) v (isCompanionMode w) (navPlan w) (currentStepIndex w) (appStateRef w) (isWalkingFeatureActiveRef w) (isNavigatingRef w) (isCompanionModeRef w) (navPlanRef w) (stepIndexRef w) (isAnalyzingFrameRef w) (interactionIdRef w) (lastButtonPressRef w) (lastCompanionMsgRef w) (lastLoopTimeRef w) (emergencySeverityRef w) (navTimerRef w) (abortControllerRef w) (isSpeaking w) (pending w) (nextId w) (trace w).

Definition set_isCompanionMode (v : bool) (w : World) : World :=
  Build_World (appState w) (isWalkingFeatureActive w) (isNavigating w) v (navPlan w) (currentStepIndex w) (appStateRef w) (isWalkingFeatureActiveRef w) (isNavigatingRef w) (isCompanionModeRef w) (navPlanRef w) (stepIndexRef w) (isAnalyzingFrameRef w) (interactionIdRef w) (lastButtonPressRef w) (lastCompanionMsgRef w) (lastLoopTimeRef w) (emergencySeverityRef w) (navTimerRef w) (abortControllerRef w) (isSpeaking w) (pending w) (nextId w) (trace w).

Definition set_navPlan (v : option NavigationPlan) (w : World) : World :=
  Build_World (appState w) (isWalkingFeatureActive w) (isNavigating w) (isCompanionMode w) v (currentStepIndex w) (appStateRef w) (isWalkingFeatureActiveRef w) (isNavigatingRef w) (isCompanionModeRef w) (navPlanRef w) (stepIndexRef w) (isAnalyzingFrameRef w) (interactionIdRef w) (lastButtonPressRef w) (lastCompanionMsgRef w) (lastLoopTimeRef w) (emergencySeverityRef w) (navTimerRef w) (abortControllerRef w) (isSpeaking w) (pending w) (nextId w) (trace w).

Definition set_currentStepIndex (v : nat) (w : World) : World :=
  Build_World (appState w) (isWalkingFeatureActive w) (isNavigating w) (isCompanionMode w) (navPlan w) v (appStateRef w) (isWalkingFeatureActiveRef w) (isNavigatingRef w) (isCompanionModeRef w) (navPlanRef w) (stepIndexRef w) (isAnalyzingFrameRef w) (interactionIdRef w) (lastButtonPressRef w) (lastCompanionMsgRef w) (lastLoopTimeRef w) (emergencySeverityRef w) (navTimerRef w) (abortControllerRef w) (isSpeaking w) (pending w) (nextId w) (trace w).

Definition set_appStateRef (v : AppState) (w : World) : World :=
  Build_World (appState w) (isWalkingFeatureActive w) (isNavigating w) (isCompanionMode w) (navPlan w) (currentStepIndex w) v (isWalkingFeatureActiveRef w) (isNavigatingRef w) (isCompanionModeRef w) (navPlanRef w) (stepIndexRef w) (isAnalyzingFrameRef w) (interactionIdRef w) (lastButtonPressRef w) (lastCompanionMsgRef w) (lastLoopTimeRef w) (emergencySeverityRef w) (navTimerRef w) (abortControllerRef w) (isSpeaking w) (pending w) (nextId w) (trace w).

Definition set_isWalkingFeatureActiveRef (v : bool) (w : World) : World :=
  Build_World (appState w) (isWalkingFeatureActive w) (isNavigating w) (isCompanionMode w) (navPlan w) (currentStepIndex w) (appStateRef w) v (isNavigatingRef w) (isCompanionModeRef w) (navPlanRef w) (stepIndexRef w) (isAnalyzingFrameRef w) (interactionIdRef w) (lastButtonPressRef w) (lastCompanionMsgRef w) (lastLoopTimeRef w) (emergencySeverityRef w) (navTimerRef w) (abortControllerRef w) (isSpeaking w) (pending w) (nextId w) (trace w).

Definition set_isNavigatingRef (v : bool) (w : World) : World :=
  Build_World (appState w) (isWalkingFeatureActive w) (isNavigating w) (isCompanionMode w) (navPlan w) (currentStepIndex w) (appStateRef w) (isWalkingFeatureActiveRef w) v (isCompanionModeRef w) (navPlanRef w) (stepIndexRef w) (isAnalyzingFrameRef w) (interactionIdRef w) (lastButtonPressRef w) (lastCompanionMsgRef w) (lastLoopTimeRef w) (emergencySeverityRef w) (navTimerRef w) (abortControllerRef w) (isSpeaking w) (pending w) (nextId w) (trace w).

Definition set_isCompanionModeRef (v : bool) (w : World) : World :=
  Build_World (appState w) (isWalkingFeatureActive w) (isNavigating w) (isCompanionMode w) (navPlan w) (currentStepIndex w) (appStateRef w) (isWalkingFeatureActiveRef w) (isNavigatingRef w) v (navPlanRef w) (stepIndexRef w) (isAnalyzingFrameRef w) (interactionIdRef w) (lastButtonPressRef w) (lastCompanionMsgRef w) (lastLoopTimeRef w) (emergencySeverityRef w) (navTimerRef w) (abortControllerRef w) (isSpeaking w) (pending w) (nextId w) (trace w).

Definition set_navPlanRef (v : option NavigationPlan) (w : World) : World :=
  Build_World (appState w) (isWalkingFeatureActive w) (isNavigating w) (isCompanionMode w) (navPlan w) (currentStepIndex w) (appStateRef w) (isWalkingFeatureActiveRef w) (isNavigatingRef w) (isCompanionModeRef w) v (stepIndexRef w) (isAnalyzingFrameRef w) (interactionIdRef w) (lastButtonPressRef w) (lastCompanionMsgRef w) (lastLoopTimeRef w) (emergencySeverityRef w) (navTimerRef w) (abortControllerRef w) (isSpeaking w) (pending w) (nextId w) (trace w).

Definition set_stepIndexRef (v : nat) (w : World) : World :=
  Build_World (appState w) (isWalkingFeatureActive w) (isNavigating w) (isCompanionMode w) (navPlan w) (currentStepIndex w) (appStateRef w) (isWalkingFeatureActiveRef w) (isNavigatingRef w) (isCompanionModeRef w) (navPlanRef w) v (isAnalyzingFrameRef w) (interactionIdRef w) (lastButtonPressRef w) (lastCompanionMsgRef w) (lastLoopTimeRef w) (emergencySeverityRef w) (navTimerRef w) (abortControllerRef w) (isSpeaking w) (pending w) (nextId w) (trace w).

Definition set_isAnalyzingFrameRef (v : bool) (w : World) : World :=
  Build_World (appState w) (isWalkingFeatureActive w) (isNavigating w) (isCompanionMode w) (navPlan w) (currentStepIndex w) (appStateRef w) (isWalkingFeatureActiveRef w) (isNavigatingRef w) (isCompanionModeRef w) (navPlanRef w) (stepIndexRef w) v (interactionIdRef w) (lastButtonPressRef w) (lastCompanionMsgRef w) (lastLoopTimeRef w) (emergencySeverityRef w) (navTimerRef w) (abortControllerRef w) (isSpeaking w) (pending w) (nextId w) (trace w).

Definition set_interactionIdRef (v : Z) (w : World) : World :=
  Build_World (appState w) (isWalkingFeatureActive w) (isNavigating w) (isCompanionMode w) (navPlan w) (currentStepIndex w) (appStateRef w) (isWalkingFeatureActiveRef w) (isNavigatingRef w) (isCompanionModeRef w) (navPlanRef w) (stepIndexRef w) (isAnalyzingFrameRef w) v (lastButtonPressRef w) (lastCompanionMsgRef w) (lastLoopTimeRef w) (emergencySeverityRef w) (navTimerRef w) (abortControllerRef w) (isSpeaking w) (pending w) (nextId w) (trace w).

Definition set_lastButtonPressRef (v : Z) (w : World) : World :=
  Build_World (appState w) (isWalkingFeatureActive w) (isNavigating w) (isCompanionMode w) (navPlan w) (currentStepIndex w) (appStateRef w) (isWalkingFeatureActiveRef w) (isNavigatingRef w) (isCompanionModeRef w) (navPlanRef w) (stepIndexRef w) (isAnalyzingFrameRef w) (interactionIdRef w) v (lastCompanionMsgRef w) (lastLoopTimeRef w) (emergencySeverityRef w) (navTimerRef w) (abortControllerRef w) (isSpeaking w) (pending w) (nextId w) (trace w).

Definition set_lastCompanionMsgRef (v : Z) (w : World) : World :=
  Build_World (appState w) (isWalkingFeatureActive w) (isNavigating w) (isCompanionMode w) (navPlan w) (currentStepIndex w) (appStateRef w) (isWalkingFeatureActiveRef w) (isNavigatingRef w) (isCompanionModeRef w) (navPlanRef w) (stepIndexRef w) (isAnalyzingFrameRef w) (interactionIdRef w) (lastButtonPressRef w) v (lastLoopTimeRef w) (emergencySeverityRef w) (navTimerRef w) (abortControllerRef w) (isSpeaking w) (pending w) (nextId w) (trace w).

Definition set_lastLoopTimeRef (v : Z) (w : World) : World :=
  Build_World (appState w) (isWalkingFeatureActive w) (isNavigating w) (isCompanionMode w) (navPlan w) (currentStepIndex w) (appStateRef w) (isWalkingFeatureActiveRef w) (isNavigatingRef w) (isCompanionModeRef w) (navPlanRef w) (stepIndexRef w) (isAnalyzingFrameRef w) (interactionIdRef w) (lastButtonPressRef w) (lastCompanionMsgRef w) v (emergencySeverityRef w) (navTimerRef w) (abortControllerRef w) (isSpeaking w) (pending w) (nextId w) (trace w).

Definition set_emergencySeverityRef (v : EmergencySeverity) (w : World) : World :=
  Build_World (appState w) (isWalkingFeatureActive w) (isNavigating w) (isCompanionMode w) (navPlan w) (currentStepIndex w) (appStateRef w) (isWalkingFeatureActiveRef w) (isNavigatingRef w) (isCompanionModeRef w) (navPlanRef w) (stepIndexRef w) (isAnalyzingFrameRef w) (interactionIdRef w) (lastButtonPressRef w) (lastCompanionMsgRef w) (lastLoopTimeRef w) v (navTimerRef w) (abortControllerRef w) (isSpeaking w) (pending w) (nextId w) (trace w).

Definition set_navTimerRef (v : option nat) (w : World) : World :=
  Build_World (appState w) (isWalkingFeatureActive w) (isNavigating w) (isCompanionMode w) (navPlan w) (currentStepIndex w) (appStateRef w) (isWalkingFeatureActiveRef w) (isNavigatingRef w) (isCompanionModeRef w) (navPlanRef w) (stepIndexRef w) (isAnalyzingFrameRef w) (interactionIdRef w) (lastButtonPressRef w) (lastCompanionMsgRef w) (lastLoopTimeRef w) (emergencySeverityRef w) v (abortControllerRef w) (isSpeaking w) (pending w) (nextId w) (trace w).

Definition set_abortControllerRef (v : bool) (w : World) : World :=
  Build_World (appState w) (isWalkingFeatureActive w) (isNavigating w) (isCompanionMode w) (navPlan w) (currentStepIndex w) (appStateRef w) (isWalkingFeatureActiveRef w) (isNavigatingRef w) (isCompanionModeRef w) (navPlanRef w) (stepIndexRef w) (isAnalyzingFrameRef w) (interactionIdRef w) (lastButtonPressRef w) (lastCompanionMsgRef w) (lastLoopTimeRef w) (emergencySeverityRef w) (navTimerRef w) v (isSpeaking w) (pending w) (nextId w) (trace w).

Definition set_isSpeaking (v : bool) (w : World) : World :=
  Build_World (appState w) (isWalkingFeatureActive w) (isNavigating w) (isCompanionMode w) (navPlan w) (currentStepIndex w) (appStateRef w) (isWalkingFeatureActiveRef w) (isNavigatingRef w) (isCompanionModeRef w) (navPlanRef w) (stepIndexRef w) (isAnalyzingFrameRef w) (interactionIdRef w) (lastButtonPressRef w) (lastCompanionMsgRef w) (lastLoopTimeRef w) (emergencySeverityRef w) (navTimerRef w) (abortControllerRef w) v (pending w) (nextId w) (trace w).

Definition set_pending (v : list (nat * Cont)) (w : World) : World :=
  Build_World (appState w) (isWalkingFeatureActive w) (isNavigating w) (isCompanionMode w) (navPlan w) (currentStepIndex w) (appStateRef w) (isWalkingFeatureActiveRef w) (isNavigatingRef w) (isCompanionModeRef w) (navPlanRef w) (stepIndexRef w) (isAnalyzingFrameRef w) (interactionIdRef w) (lastButtonPressRef w) (lastCompanionMsgRef w) (lastLoopTimeRef w) (emergencySeverityRef w) (navTimerRef w) (abortControllerRef w) (isSpeaking w) v (nextId w) (trace w).

Definition set_nextId (v : nat) (w : World) : World :=
  Build_World (appState w) (isWalkingFeatureActive w) (isNavigating w) (isCompanionMode w) (navPlan w) (currentStepIndex w) (appStateRef w) (isWalkingFeatureActiveRef w) (isNavigatingRef w) (isCompanionModeRef w) (navPlanRef w) (stepIndexRef w) (isAnalyzingFrameRef w) (interactionIdRef w) (lastButtonPressRef w) (lastCompanionMsgRef w) (lastLoopTimeRef w) (emergencySeverityRef w) (navTimerRef w) (abortControllerRef w) (isSpeaking w) (pending w) v (trace w).

Definition set_trace (v : list Action) (w : World) : World :=
  Build_World (appState w) (isWalkingFeatureActive w) (isNavigating w) (isCompanionMode w) (navPlan w) (currentStepIndex w) (appStateRef w) (isWalkingFeatureActiveRef w) (isNavigatingRef w) (isCompanionModeRef w) (navPlanRef w) (stepIndexRef w) (isAnalyzingFrameRef w) (interactionIdRef w) (lastButtonPressRef w) (lastCompanionMsgRef w) (lastLoopTimeRef w) (emergencySeverityRef w) (navTimerRef w) (abortControllerRef w) (isSpeaking w) (pending w) (nextId w) v.

(** ** Primitive effects *)

Definition emit (a : Action) (w : World) : World := set_trace (a :: trace w) w.

(** Park a continuation; its handle is the current [nextId]. *)
Definition suspend (k : Cont) (w : World) : World :=
  set_nextId (S (nextId w)) (set_pending (pending w ++ [(nextId w, k)]) w).

(** audioService.speak: sets [isSpeaking] and starts the utterance; the
    promise resolves when the utterance ends (continuation [k]). *)
Definition speak (text : string) (priority : bool) (k : Cont) (w : World) : World :=
  suspend k (set_isSpeaking true (emit (A_speak text priority) w)).

(** audioService.stopSpeaking *)
Definition stopSpeaking (w : World) : World :=
  set_isSpeaking false (emit A_stopSpeaking w).

(** audioService.listen: stops speech at once, then records. *)
Definition listen (maxDurationSeconds : Z) (k : Cont) (w : World) : World :=
  suspend k (emit (A_listen maxDurationSeconds) (set_isSpeaking false w)).

Definition playSound (s : SoundKind) (w : World) : World := emit (A_playSound s) w.

Definition setTimeout (k : Cont) (delay : Z) (w : World) : World :=
  suspend k (emit (A_setTimeout k delay) w).

Definition clearTimeout (id : nat) (w : World) : World :=
  set_pending (filter (fun e => negb (Nat.eqb (fst e) id)) (pending w)) w.

(** [if (navTimerRef.current) clearTimeout(navTimerRef.current)] *)
Definition clearNavTimer (w : World) : World :=
  match navTimerRef w with
  | Some id => clearTimeout id w
  | None => w
  end.

(** [navTimerRef.current = setTimeout(k, delay)] *)
Definition setNavTimer (k : Cont) (delay : Z) (w : World) : World :=
  set_navTimerRef (Some (nextId w)) (setTimeout k delay w).

Definition is_active (s : AppState) : bool :=
  match s with WALKING | NAVIGATING => true | _ => false end.

Definition restoreState (w : World) : World :=
  if isNavigatingRef w then set_appState NAVIGATING w
  else if isWalkingFeatureActiveRef w then set_appState WALKING w
  else set_appState IDLE w.

Definition handleError (msg : string) (w : World) : World :=
  setTimeout T_restore 3000
    (speak msg false K_spoken (playSound snd_error (set_appState ERROR w))).

(** ** Emergency protocol *)

Definition triggerEmergencyCheck (severity : EmergencySeverity) (w : World) : World :=
  let w := if abortControllerRef w then emit A_abort w else w in
  let w := stopSpeaking w in
  let w := clearNavTimer w in
  let w := set_emergencySeverityRef severity w in
  let w := set_appState EMERGENCY_CHECK w in
  speak "It sounds like something is wrong. Are you okay?" true K_em_asked w.

Definition performEmergencyVerification (attempt : nat) (w : World) : World :=
  if negb (AppState_beq (appStateRef w) EMERGENCY_CHECK) then w
  else
    let timeout := if EmergencySeverity_beq (emergencySeverityRef w) high then 20 else 30 in
    listen timeout (K_ev_listen attempt) w.

Definition triggerEmergencyAction (w : World) : World :=
  speak "Emergency help has been contacted. Sending your location now." true K_ea_announced
    (playSound snd_warning (set_appState EMERGENCY_ACTING w)).

Definition handleNoResponse (attempt : nat) (w : World) : World :=
  if negb (AppState_beq (appStateRef w) EMERGENCY_CHECK) then w
  else
    let maxAttempts := if EmergencySeverity_beq (emergencySeverityRef w) high then 1%nat else 2%nat in
    if Nat.ltb attempt maxAttempts then
      speak "I didn't hear you. Please say 'I'm okay' if you are safe." true
            (K_nr_reprompted attempt) w
    else triggerEmergencyAction w.

Definition affirmative (cleaned : string) : bool :=
  includes cleaned "ok" || includes cleaned "fine" || includes cleaned "good"
  || includes cleaned "safe" || includes cleaned "yes".

Definition distress (cleaned : string) : bool :=
  includes cleaned "no" || includes cleaned "help" || includes cleaned "hurt"
  || includes cleaned "pain" || includes cleaned "call".

(** The body of [performEmergencyVerification] after [await listen]. *)
Definition emergency_reply (attempt : nat) (r : Resp) (w : World) : World :=
  if negb (r_ok r) then handleNoResponse attempt w
  else
    let response := r_text r in
    if negb (truthy response) || Nat.eqb (String.length (trim response)) 0
    then handleNoResponse attempt w
    else
      let cleaned := toLowerCase response in
      if affirmative cleaned then
        speak "I'm glad you are safe. Resuming." false K_ev_safe_spoken w
      else if distress cleaned then triggerEmergencyAction w
      else handleNoResponse attempt w.

(** handleDistress, the callback of the ambient distress listener. *)
Definition handleDistress (severity : EmergencySeverity) (w : World) : World :=
  match appStateRef w with
  | EMERGENCY_CHECK | EMERGENCY_ACTING => w
  | LISTENING => w
  | _ => triggerEmergencyCheck severity w
  end.

(** ** Navigation narrator *)

(** How a call ends: it returns, or it throws and nothing catches the
    exception inside the component. *)
Inductive Completion :=
| Returns (w : World)
| Throws (error : string) (w : World).

(** [steps.length] of a plan without steps. *)
Definition TypeError : string := "TypeError".

Definition startNavigationLoop (w : World) : Completion :=
  match navPlanRef w with
  | None => Returns w
  | Some plan =>
    if negb (isNavigatingRef w) || negb (AppState_beq (appStateRef w) NAVIGATING)
    then Returns w
    else
      match steps plan with
      | None => Throws TypeError w   (* steps is undefined *)
      | Some steps =>
        let index := stepIndexRef w in
        match nth_error steps index with
        | None =>   (* index >= steps.length *)
          let w := speak "You have arrived." false K_spoken w in
          let w := set_isNavigating false w in
          let w := set_navPlan None w in
          Returns (set_appState (if isWalkingFeatureActiveRef w then WALKING else IDLE) w)
        | Some stepText =>
          if negb (isSpeaking w) then
            Returns (speak stepText false K_nav_step_spoken (playSound snd_navigation w))
          else Returns (setNavTimer T_nav_retry 3000 w)
        end
      end
  end.

(** The call is the last thing a timer callback does: an exception ends
    the callback and is reported, and the component goes on. *)
Definition in_timer (c : Completion) : World :=
  match c with
  | Returns w => w
  | Throws error w => emit (A_uncaught error) w
  end.

(** The call is the last thing an effect does.  No error boundary stands
    around the component, so an exception that leaves an effect makes React
    unmount it.  The model marks the trace and follows the component no
    further: the clean-up functions of the effects are not modelled, and
    what is computed from a world whose trace holds [A_unmount] describes
    no running component.  This happens only once a plan without steps has
    been delivered (lemma [run_stays_mounted]). *)
Definition in_effect (c : Completion) : World :=
  match c with
  | Returns w => w
  | Throws error w => emit (A_unmount error) w
  end.

(** The [.then] callback of [speak(stepText)]. *)
Definition nav_step_spoken (w : World) : World :=
  if negb (AppState_beq (appStateRef w) NAVIGATING) then w
  else setNavTimer T_nav_advance 14000 w.

(** The 14 s timer callback. *)
Definition nav_advance (w : World) : World :=
  if isNavigatingRef w && AppState_beq (appStateRef w) NAVIGATING then
    in_timer (startNavigationLoop (set_currentStepIndex (S (currentStepIndex w)) w))
  else w.

(** ** Perception loop *)

Definition WALKING_LOOP_DELAY : Z := 100.

Definition COMPANION_PHRASES : list string :=
  [ "I'm walking right here with you.";
    "You're doing great, stay confident.";
    "I'm watching out for you.";
    "Everything looks good, keep going.";
    "I'm here, just let me know if you need anything.";
    "Nice and steady.";
    "You are doing wonderful.";
    "The path ahead seems clear." ].

(** Up to the first [await]. *)
Definition runWalkingLoop (now : Z) (w : World) : World :=
  let w := set_lastLoopTimeRef now w in
  let validState := is_active (appStateRef w) in
  let featuresActive := isWalkingFeatureActiveRef w || isNavigatingRef w in
  match appStateRef w with
  | LISTENING | PROCESSING_INTENT | EMERGENCY_CHECK | EMERGENCY_ACTING => w
  | _ =>
    if negb validState || negb featuresActive then w
    else if isAnalyzingFrameRef w then w       (* drop frame *)
    else
      let w := set_isAnalyzingFrameRef true w in
      suspend K_wl_capture1 (emit (A_capture true true) w)
  end.

(** The [finally] block. *)
Definition wl_finally (w : World) : World :=
  let w := set_isAnalyzingFrameRef false w in
  if is_active (appStateRef w) && negb (AppState_beq (appStateRef w) LISTENING)
  then setTimeout T_walking_loop WALKING_LOOP_DELAY w
  else w.

(** [!frame] for [string | null | undefined]. *)
Definition no_frame (f : option string) : bool := negb (otruthy f).

Definition frame_of (f : option string) : string :=
  match f with Some s => s | None => "" end.

Definition wl_request_hazard (frame : string) (w : World) : World :=
  suspend K_wl_analysis (emit (A_analyzeWalkingSafety frame) w).

Definition wl_after_capture1 (r : Resp) (w : World) : World :=
  if negb (r_ok r) then wl_finally w
  else if no_frame (r_frame r) then
    suspend K_wl_retry_delay (emit (A_setTimeout K_wl_retry_delay 100) w)
  else wl_request_hazard (frame_of (r_frame r)) w.

Definition wl_after_retry_delay (w : World) : World :=
  suspend K_wl_capture2 (emit (A_capture true true) w).

Definition wl_after_capture2 (r : Resp) (w : World) : World :=
  if negb (r_ok r) then wl_finally w
  else if no_frame (r_frame r) then wl_finally w   (* skip cycle *)
  else wl_request_hazard (frame_of (r_frame r)) w.

Definition is_fall (h : option WalkingHazard) : bool :=
  match h with
  | Some hz => truthy (hazard_type hz) && Category_beq (category hz) c_fall
  | None => false
  end.

Definition is_real_hazard (h : option WalkingHazard) : bool :=
  match h with
  | Some hz => negb (String.eqb (hazard_type hz) "none") && truthy (message hz)
  | None => false
  end.

Definition hazard_message (h : option WalkingHazard) : string :=
  match h with Some hz => message hz | None => "" end.

Definition wl_after_analysis (r : Resp) (w : World) : World :=
  if negb (r_ok r) then wl_finally w
  else
    let hazard := r_hazard r in
    if is_fall hazard then wl_finally (triggerEmergencyCheck high w)
    else if is_active (appStateRef w) then
      if is_real_hazard hazard then
        speak (hazard_message hazard) true K_wl_hazard_spoken (stopSpeaking w)
      else if isCompanionModeRef w && negb (isSpeaking w) then
        let now := r_now r in
        if 15000 <? now - lastCompanionMsgRef w then
          let phrase := nth (r_phrase r) COMPANION_PHRASES "" in
          wl_finally (set_lastCompanionMsgRef now (speak phrase false K_spoken w))
        else wl_finally w
      else if negb (isCompanionModeRef w) && r_random_gt_095 r && negb (isSpeaking w) then
        speak "Path clear." false K_wl_clear_spoken w
      else wl_finally w
    else wl_finally w.

Definition wl_after_hazard_spoken (r : Resp) (w : World) : World :=
  wl_finally (set_lastCompanionMsgRef (r_now r) w).

(** The watchdog interval callback. *)
Definition watchdog (now : Z) (w : World) : World :=
  if is_active (appStateRef w) && (2000 <? now - lastLoopTimeRef w) then
    let w := set_isAnalyzingFrameRef false w in
    let w := runWalkingLoop now w in
    speak "Walking mode active." false K_spoken w
  else w.

(** ** Command pipeline *)

Definition is_current (commandId : Z) (w : World) : bool :=
  interactionIdRef w =? commandId.

(** The [catch] of processCommand. *)
Definition pc_catch (commandId : Z) (r : Resp) (w : World) : World :=
  if String.eqb (r_error r) "Aborted" then w
  else if negb (is_current commandId w) then w
  else handleError "Error processing request." w.

(** processCommand up to [await classifyIntent]. *)
Definition processCommand (transcript : string) (commandId : Z) (w : World) : World :=
  if negb (is_current commandId w) then w
  else if negb (truthy transcript) then
    restoreState (speak "I didn't hear you." false K_spoken w)
  else
    let w := set_appState PROCESSING_INTENT w in
    let w := playSound snd_end w in
    suspend (K_pc_classify commandId) (emit (A_classifyIntent transcript) w).

Definition isVisualIntent (t : IntentType) : bool :=
  match t with
  | DESCRIBE | READ_TEXT | SAFETY_CHECK | WHERE_AM_I | UNKNOWN => true
  | _ => false
  end.

(** The visual branch from the id check that precedes CAPTURING up to the
    400 ms settle delay. *)
Definition pc_begin_capture (commandId : Z) (intent : IntentResult) (w : World) : World :=
  if negb (is_current commandId w) then w
  else
    let w := set_appState CAPTURING w in
    let w := if negb (IntentType_beq (type intent) WHERE_AM_I)
             then speak "Checking..." false K_spoken w else w in
    suspend (K_pc_settle commandId intent)
            (emit (A_setTimeout (K_pc_settle commandId intent) 400) w).

Definition pc_after_classify (commandId : Z) (r : Resp) (w : World) : World :=
  if negb (r_ok r) then pc_catch commandId r w
  else if negb (is_current commandId w) then w
  else
    let intent := r_intent r in
    match type intent with
    | COMPANION_MODE_ON =>
      speak "I'm here with you now. Let's go together." false K_pc_companion_on
            (set_isCompanionMode true w)
    | COMPANION_MODE_OFF =>
      speak "Quiet mode enabled." false K_pc_companion_off (set_isCompanionMode false w)
    | NAVIGATE =>
      match destination intent with
      | Some dest =>
        if truthy dest then
          let w := speak ("Calculating walking route to " ++ dest ++ ".") false K_spoken w in
          suspend (K_pc_geolocate commandId dest) (emit (A_geolocate 4000) w)
        else speak "Where would you like to go?" false K_pc_ask_destination w
      | None => speak "Where would you like to go?" false K_pc_ask_destination w
      end
    | STOP_NAVIGATION =>
      speak "Navigation stopped." false K_pc_stop_navigation
            (set_navPlan None (set_isNavigating false w))
    | WALKING_MODE_ON =>
      let w := set_isWalkingFeatureActive true w in
      let w := set_isCompanionMode true w in
      let w := set_lastCompanionMsgRef (r_now r) w in
      speak "Walking mode active. I'm with you." false K_pc_walking_on w
    | WALKING_MODE_OFF =>
      let w := set_isWalkingFeatureActive false w in
      let w := set_isCompanionMode false w in
      speak "Walking mode disabled." false K_pc_walking_off w
    | WHERE_AM_I =>
      let w := set_appState PROCESSING_INTENT w in
      let w := speak "Locating..." false K_spoken w in
      suspend (K_pc_locate commandId intent) (emit (A_geolocate 6000) w)
    | DESCRIBE | READ_TEXT | SAFETY_CHECK | UNKNOWN =>
      pc_begin_capture commandId intent w
    | HANDS_FREE_ON | HANDS_FREE_OFF => w
    end.

Definition pc_after_companion_on (r : Resp) (w : World) : World :=
  let w := set_lastCompanionMsgRef (r_now r) w in
  if negb (isWalkingFeatureActiveRef w) then
    set_appState WALKING (set_isWalkingFeatureActive true w)
  else restoreState w.

Definition pc_after_geolocate (commandId : Z) (dest : string) (w : World) : World :=
  if negb (is_current commandId w) then w
  else suspend (K_pc_directions commandId) (emit (A_getWalkingDirections dest) w).

(** [`${x}`] of a string that may be undefined. *)
Definition interpolate (x : option string) : string :=
  match x with Some s => s | None => "undefined" end.

Definition pc_after_directions (commandId : Z) (r : Resp) (w : World) : World :=
  if negb (r_ok r) then pc_catch commandId r w
  else if negb (is_current commandId w) then w
  else
    match r_plan r with
    | Some plan =>
      let w := set_navPlan (Some plan) w in
      let w := set_currentStepIndex 0%nat w in
      let w := set_isNavigating true w in
      let w := set_isWalkingFeatureActive true w in
      let w := set_isCompanionMode true w in
      let w := set_lastCompanionMsgRef (r_now r) w in
      let w := set_appState NAVIGATING w in
      speak ("Route found. " ++ interpolate (totalTime plan) ++ ". Starting navigation.")
            false
            K_pc_route_found w
    | None => restoreState (speak "I couldn't find that location." false K_spoken w)
    end.

Definition pc_after_stop_navigation (w : World) : World :=
  if isWalkingFeatureActiveRef w then set_appState WALKING w else set_appState IDLE w.

Definition pc_after_locate (commandId : Z) (intent : IntentResult) (r : Resp) (w : World) : World :=
  let w := if negb (r_ok r)
           then speak "GPS signal lost. Checking visual cues." false K_spoken w else w in
  pc_begin_capture commandId intent w.

Definition pc_after_settle (commandId : Z) (intent : IntentResult) (w : World) : World :=
  if negb (is_current commandId w) then w
  else suspend (K_pc_capture commandId intent) (emit (A_capture false false) w).

Definition pc_after_capture (commandId : Z) (intent : IntentResult) (r : Resp) (w : World) : World :=
  if negb (r_ok r) then pc_catch commandId r w
  else if no_frame (r_frame r) then handleError "Camera error." w
  else
    let w := set_appState ANALYZING w in
    suspend (K_pc_analysis commandId) (emit (A_analyzeImage (frame_of (r_frame r))) w).

Definition pc_after_analysis (commandId : Z) (r : Resp) (w : World) : World :=
  if negb (r_ok r) then pc_catch commandId r w
  else if negb (is_current commandId w) then w
  else speak (r_text r) false K_pc_answer_spoken (set_appState SPEAKING w).

(** handleButtonPress up to [await audioService.listen()]. *)
Definition handleButtonPress (now : Z) (w : World) : World :=
  if now - lastButtonPressRef w <? 300 then w
  else
    let w := set_lastButtonPressRef now w in
    match appStateRef w with
    | EMERGENCY_CHECK =>
      restoreState (speak "Emergency check cancelled." false K_spoken w)
    | EMERGENCY_ACTING =>
      restoreState (speak "Emergency mode reset." false K_spoken w)
    | LISTENING => emit A_stopListening w
    | _ =>
      let w := set_interactionIdRef now w in
      let w := if abortControllerRef w then emit A_abort w else w in
      let w := set_abortControllerRef true w in
      let w := stopSpeaking w in
      let w := clearNavTimer w in
      let w := set_appState LISTENING w in
      let w := emit (A_vibrate 50) w in
      listen 45 (K_hb_listen now) w
    end.

Definition hb_after_listen (currentInteractionId : Z) (r : Resp) (w : World) : World :=
  if negb (r_ok r) then
    if is_current currentInteractionId w then restoreState w else w
  else if negb (is_current currentInteractionId w) then w
  else
    let transcript := r_text r in
    if negb (truthy transcript) || Nat.ltb (js_length (trim transcript)) 2 then
      speak "I didn’t hear you, please try again." true K_hb_retry_spoken w
    else processCommand transcript currentInteractionId w.

(** ** Resuming a suspended continuation *)

Definition resume (k : Cont) (r : Resp) (w : World) : World :=
  let w := if awaits_speech k then set_isSpeaking false w else w in
  match k with
  | K_hb_listen id => hb_after_listen id r w
  | K_hb_retry_spoken => restoreState w
  | K_pc_classify id => pc_after_classify id r w
  | K_pc_companion_on => pc_after_companion_on r w
  | K_pc_companion_off => restoreState w
  | K_pc_ask_destination => restoreState w
  | K_pc_geolocate id dest => pc_after_geolocate id dest w
  | K_pc_directions id => pc_after_directions id r w
  | K_pc_route_found => w
  | K_pc_stop_navigation => pc_after_stop_navigation w
  | K_pc_walking_on => set_appState WALKING w
  | K_pc_walking_off => set_appState IDLE w
  | K_pc_locate id intent => pc_after_locate id intent r w
  | K_pc_settle id intent => pc_after_settle id intent w
  | K_pc_capture id intent => pc_after_capture id intent r w
  | K_pc_analysis id => pc_after_analysis id r w
  | K_pc_answer_spoken => restoreState w
  | K_wl_capture1 => wl_after_capture1 r w
  | K_wl_retry_delay => wl_after_retry_delay w
  | K_wl_capture2 => wl_after_capture2 r w
  | K_wl_analysis => wl_after_analysis r w
  | K_wl_hazard_spoken => wl_after_hazard_spoken r w
  | K_wl_clear_spoken => wl_finally w
  | K_em_asked => performEmergencyVerification 1 w
  | K_ev_listen attempt => emergency_reply attempt r w
  | K_ev_safe_spoken => restoreState w
  | K_nr_reprompted attempt => performEmergencyVerification (attempt + 1) w
  | K_ea_announced => w
  | K_nav_step_spoken => nav_step_spoken w
  | T_nav_advance => nav_advance w
  | T_nav_retry => in_timer (startNavigationLoop w)
  | T_walking_loop => runWalkingLoop (r_now r) w
  | T_restore => restoreState w
  | K_spoken => w
  end.

Fixpoint lookup_cont (id : nat) (l : list (nat * Cont)) : option Cont :=
  match l with
  | [] => None
  | (i, k) :: l' => if Nat.eqb i id then Some k else lookup_cont id l'
  end.

Definition remove_cont (id : nat) (l : list (nat * Cont)) : list (nat * Cont) :=
  filter (fun e => negb (Nat.eqb (fst e) id)) l.

(** ** React commit: the two effects that depend on state

    Setters called in a synchronous segment are batched; the render and its
    effects run after the segment.  The refs still hold the values of the
    previous render, so they tell which dependencies changed. *)

Definition deps_changed (w : World) : bool :=
  negb (AppState_beq (appState w) (appStateRef w)
        && Bool.eqb (isNavigating w) (isNavigatingRef w)
        && oplan_eqb (navPlan w) (navPlanRef w)).

Definition state_changed (w : World) : bool :=
  deps_changed w
  || negb (Bool.eqb (isWalkingFeatureActive w) (isWalkingFeatureActiveRef w))
  || negb (Bool.eqb (isCompanionMode w) (isCompanionModeRef w))
  || negb (Nat.eqb (currentStepIndex w) (stepIndexRef w)).

(** The "Sync refs" effect; [snap] holds the values of this render. *)
Definition sync_refs (snap : World) (w : World) : World :=
  let w := set_isWalkingFeatureActiveRef (isWalkingFeatureActive snap) w in
  let w := set_isNavigatingRef (isNavigating snap) w in
  let w := set_isCompanionModeRef (isCompanionMode snap) w in
  let w := set_appStateRef (appState snap) w in
  let w := set_navPlanRef (navPlan snap) w in
  let w := set_stepIndexRef (currentStepIndex snap) w in
  match appState snap with
  | IDLE =>  (* Automatic State Inference *)
    if isNavigating snap then set_appState NAVIGATING w
    else if isWalkingFeatureActive snap then set_appState WALKING w
    else w
  | _ => w
  end.

(** The effect on [appState, isNavigating, navPlan] that starts the loops. *)
Definition mode_effect (now : Z) (snap : World) (w : World) : World :=
  if is_active (appState snap) then
    let w := if negb (isAnalyzingFrameRef w) then runWalkingLoop now w else w in
    match navPlan snap with
    | Some _ =>
      if isNavigating snap then in_effect (startNavigationLoop (clearNavTimer w)) else w
    | None => w
    end
  else clearNavTimer w.

Definition render_pass (now : Z) (w : World) : World :=
  if state_changed w then
    let w' := sync_refs w w in
    if deps_changed w then mode_effect now w w' else w'
  else w.

(** Effects may set state again (state inference, arrival), which renders
    again; the fourth pass finds nothing left to do (lemma
    [commit_settled]). *)
Definition commit (now : Z) (w : World) : World :=
  render_pass now (render_pass now (render_pass now (render_pass now w))).

(** ** Events and runs *)

Inductive Event :=
| E_press (now : Z)                          (* the button's onClick *)
| E_resume (id : nat) (r : Resp)             (* the promise or timer with this handle fires *)
| E_watchdog (now : Z)                       (* the 2 s interval *)
| E_distress (severity : EmergencySeverity) (now : Z).

Definition dispatch (e : Event) (w : World) : World :=
  match e with
  | E_press now => handleButtonPress now w
  | E_resume id r =>
    match lookup_cont id (pending w) with
    | Some k => resume k r (set_pending (remove_cont id (pending w)) w)
    | None => w
    end
  | E_watchdog now => watchdog now w
  | E_distress severity _ => handleDistress severity w
  end.

Definition event_now (e : Event) : Z :=
  match e with
  | E_press now => now
  | E_resume _ r => r_now r
  | E_watchdog now => now
  | E_distress _ now => now
  end.

Definition step (e : Event) (w : World) : World := commit (event_now e) (dispatch e w).

Definition run (es : list Event) (w : World) : World := fold_left (fun w e => step e w) es w.

Definition WELCOME_MESSAGE : string := "SightMate ready. Press to speak.".

(** The component after mount, at time [t0]. *)
Definition initial (t0 : Z) : World :=
  {| appState := IDLE; isWalkingFeatureActive := false; isNavigating := false;
     isCompanionMode := false; navPlan := None; currentStepIndex := 0;
     appStateRef := IDLE; isWalkingFeatureActiveRef := false; isNavigatingRef := false;
     isCompanionModeRef := false; navPlanRef := None; stepIndexRef := 0;
     isAnalyzingFrameRef := false; interactionIdRef := 0; lastButtonPressRef := 0;
     lastCompanionMsgRef := t0; lastLoopTimeRef := t0; emergencySeverityRef := low;
     navTimerRef := None; abortControllerRef := false;
     isSpeaking := true; pending := [(0%nat, K_spoken)]; nextId := 1;
     trace := [A_speak WELCOME_MESSAGE false] |}.

(** A default response, and builders for the common ones. *)
Definition resp0 (now : Z) : Resp :=
  {| r_ok := true; r_error := ""; r_text := "";
     r_intent := {| type := UNKNOWN; destination := None |};
     r_plan := None; r_frame := None; r_hazard := None; r_now := now;
     r_random_gt_095 := false; r_phrase := 0 |}.

Definition resp_text (now : Z) (s : string) : Resp :=
  {| r_ok := true; r_error := ""; r_text := s;
     r_intent := {| type := UNKNOWN; destination := None |};
     r_plan := None; r_frame := None; r_hazard := None; r_now := now;
     r_random_gt_095 := false; r_phrase := 0 |}.

Definition resp_intent (now : Z) (t : IntentType) (d : option string) : Resp :=
  {| r_ok := true; r_error := ""; r_text := "";
     r_intent := {| type := t; destination := d |};
     r_plan := None; r_frame := None; r_hazard := None; r_now := now;
     r_random_gt_095 := false; r_phrase := 0 |}.

Definition resp_plan (now : Z) (p : option NavigationPlan) : Resp :=
  {| r_ok := true; r_error := ""; r_text := "";
     r_intent := {| type := UNKNOWN; destination := None |};
     r_plan := p; r_frame := None; r_hazard := None; r_now := now;
     r_random_gt_095 := false; r_phrase := 0 |}.

Definition resp_frame (now : Z) (f : option string) : Resp :=
  {| r_ok := true; r_error := ""; r_text := "";
     r_intent := {| type := UNKNOWN; destination := None |};
     r_plan := None; r_frame := f; r_hazard := None; r_now := now;
     r_random_gt_095 := false; r_phrase := 0 |}.

Definition resp_hazard (now : Z) (h : option WalkingHazard) : Resp :=
  {| r_ok := true; r_error := ""; r_text := "";
     r_intent := {| type := UNKNOWN; destination := None |};
     r_plan := None; r_frame := None; r_hazard := h; r_now := now;
     r_random_gt_095 := false; r_phrase := 0 |}.

Definition resp_error (now : Z) (msg : string) : Resp :=
  {| r_ok := false; r_error := msg; r_text := "";
     r_intent := {| type := UNKNOWN; destination := None |};
     r_plan := None; r_frame := None; r_hazard := None; r_now := now;
     r_random_gt_095 := false; r_phrase := 0 |}.

(** * Vocabulary of the properties

    Predicates on worlds and events, and the concrete runs used as
    examples. *)

(** The string has a character that [trim] keeps. *)
Definition has_nonspace (s : string) : bool := truthy (trimStart s).

(** A byte that occurs in the encoding of some white space character. *)
Definition ws_byte (c : ascii) : bool :=
  is_space c || Nat.leb 128 (nat_of_ascii c).

(** A byte of lower-cased text that comes from the same letter of the
    text, in either case. *)
Definition own_letter (c : ascii) : bool :=
  negb (ws_byte c) && negb (Ascii.eqb c "k") && negb (Ascii.eqb c "i").

Fixpoint has_byte (c : ascii) (s : string) : bool :=
  match s with
  | EmptyString => false
  | String a r => Ascii.eqb a c || has_byte c r
  end.

(** A world in which the emergency check is in progress: an ambient
    distress signal of medium severity arrived right after mount. *)
Definition check_world : World := run [E_distress medium 10] (initial 0).

(** "Start walking mode" has been confirmed: the mode is WALKING and the
    first capture+analyze cycle awaits its frame (handle 4). *)
Definition walking_world : World :=
  run [E_press 1000; E_resume 1 (resp_text 1500 "start walking mode");
       E_resume 2 (resp_intent 1600 WALKING_MODE_ON None);
       E_resume 3 (resp0 3000)] (initial 0).

(** A distress signal arrives in walking mode and the question has been
    spoken: the check listens for the reply. *)
Definition walking_check_world : World :=
  run [E_distress medium 4000; E_resume 5 (resp0 5000)] walking_world.

(** Every handle in use is below [nextId]. *)
Definition fresh (w : World) : Prop :=
  Forall (fun e => (fst e < nextId w)%nat) (pending w).

(** Silence, a listen error and an ambiguous reply. *)
Definition no_response (r : Resp) : bool :=
  negb (r_ok r)
  || negb (truthy (r_text r))
  || Nat.eqb (String.length (trim (r_text r))) 0
  || (negb (affirmative (toLowerCase (r_text r)))
      && negb (distress (toLowerCase (r_text r)))).

(** The emergency check is in progress at severity [sev], and the last
    render is committed. *)
Record checking (sev : EmergencySeverity) (w : World) : Prop := {
  chk_state : appState w = EMERGENCY_CHECK;
  chk_committed : state_changed w = false;
  chk_severity : emergencySeverityRef w = sev;
  chk_fresh : fresh w
}.

(** The listen window in seconds and the number of attempts, as the two
    ternaries of performEmergencyVerification and handleNoResponse give
    them. *)
Definition listen_window (sev : EmergencySeverity) : Z :=
  match sev with high => 20 | _ => 30 end.

Definition attempts_allowed (sev : EmergencySeverity) : nat :=
  match sev with high => 1%nat | _ => 2%nat end.

Definition REPROMPT : string := "I didn't hear you. Please say 'I'm okay' if you are safe.".
Definition ARE_YOU_OKAY : string := "It sounds like something is wrong. Are you okay?".
Definition HELP_CONTACTED : string :=
  "Emergency help has been contacted. Sending your location now.".

(** The question has just been asked in walking mode. *)
Definition asked_world : World := run [E_distress medium 4000] walking_world.

(** A capture+analyze cycle of walking mode, suspended at the hazard
    request. *)
Definition analysis_world : World :=
  run [E_resume 4 (resp_frame 3100 (Some "data:image/jpeg;base64,AAAA"))] walking_world.

(** Hazards as analyzeWalkingSafety may return them. *)
Definition untyped_fall : WalkingHazard :=
  {| hazard_type := ""; category := c_fall; message := "Watch out" |}.

Definition typed_fall : WalkingHazard :=
  {| hazard_type := "fall"; category := c_fall; message := "Watch out" |}.

Definition mislabelled_obstacle : WalkingHazard :=
  {| hazard_type := "none"; category := c_obstacle; message := "Stop" |}.

Definition uncategorised_pole : WalkingHazard :=
  {| hazard_type := "pole"; category := c_none; message := "Pole ahead" |}.

(** Neither a cancellation of speech nor a priority utterance. *)
Definition quiet (a : Action) : bool :=
  match a with
  | A_stopSpeaking => false
  | A_speak _ true => false
  | _ => true
  end.

(** A frame capture or a hazard analysis request. *)
Definition requests_perception (a : Action) : bool :=
  match a with
  | A_capture _ _ | A_analyzeWalkingSafety _ => true
  | _ => false
  end.

Definition speaks (a : Action) : bool :=
  match a with A_speak _ _ => true | _ => false end.

(** The guard of [startNavigationLoop] passes. *)
Definition narrating (plan : NavigationPlan) (w : World) : Prop :=
  navPlanRef w = Some plan /\ isNavigatingRef w = true /\ appStateRef w = NAVIGATING.

(** The narrator waits for its 14 s timer (handle [i]) with cursor [k]. *)
Record narrator_at (plan : NavigationPlan) (k i : nat) (w : World) : Prop := {
  na_committed : state_changed w = false;
  na_fresh : fresh w;
  na_plan : navPlan w = Some plan;
  na_nav : isNavigating w = true;
  na_mode : appState w = NAVIGATING;
  na_index : currentStepIndex w = k;
  na_silent : isSpeaking w = false;
  na_timer : lookup_cont i (pending w) = Some T_nav_advance
}.

Definition ARRIVED : string := "You have arrived.".

(** The events of the narrator alone: [m] rounds (timer, end of the
    utterance), then the last timer. *)
Fixpoint narrator_events (m i n : nat) (r : Resp) : list Event :=
  match m with
  | O => [E_resume i r]
  | S m' => E_resume i r :: E_resume n r :: narrator_events m' (S n) (S (S n)) r
  end.

(** Plans as getWalkingDirections may return them. *)
Definition empty_plan : NavigationPlan :=
  {| plan_destination := Some "park"; steps := Some [];
     totalDistance := Some ""; totalTime := Some "5 min" |}.

Definition two_step_plan : NavigationPlan :=
  {| plan_destination := Some "park"; steps := Some ["Turn left."; "Walk ahead."];
     totalDistance := Some "200 m"; totalTime := Some "5 min" |}.

(** The plan parsed from the text of an empty reply. *)
Definition bare_plan : NavigationPlan :=
  {| plan_destination := None; steps := None; totalDistance := None; totalTime := None |}.

(** "Take me to the park", up to the reply of getWalkingDirections. *)
Definition navigate_events (answer : option NavigationPlan) : list Event :=
  [E_press 1000; E_resume 1 (resp_text 1500 "take me to the park");
   E_resume 2 (resp_intent 1600 NAVIGATE (Some "park"));
   E_resume 4 (resp0 1700); E_resume 5 (resp_plan 1800 answer)].

(** Navigation to the park with a two-step plan, after the first step has
    been announced: the narrator waits for its 14 s timer (handle 10). *)
Definition narrator_world : World :=
  run [E_resume 6 (resp0 4000); E_resume 8 (resp0 5000); E_resume 9 (resp0 6000)]
      (run (navigate_events (Some two_step_plan)) (initial 0)).

(** React has unmounted the component. *)
Definition unmounted (w : World) : bool :=
  existsb (fun a => match a with A_unmount _ => true | _ => false end) (trace w).

(** The plan, if there is one, has a steps array. *)
Definition has_steps (p : option NavigationPlan) : bool :=
  match p with
  | Some plan => match steps plan with Some _ => true | None => false end
  | None => true
  end.

(** The component is mounted and holds no plan without steps. *)
Definition well_mounted (w : World) : Prop :=
  unmounted w = false /\ has_steps (navPlan w) = true /\ has_steps (navPlanRef w) = true.

(** The event delivers no plan without steps. *)
Definition delivers_steps (e : Event) : bool :=
  match e with
  | E_resume _ r => has_steps (r_plan r)
  | _ => true
  end.

(** What has been said so far, oldest first. *)
Definition spoken (w : World) : list string :=
  rev (flat_map (fun a => match a with A_speak t _ => [t] | _ => [] end) (trace w)).

(** From [narrator_world] on: the narrator's 14 s timer fires; the
    utterance it started ends and the next timer fires; and once more. *)
Definition first_timer : list Event := [E_resume 10 (resp0 20000)].

Definition second_timer : list Event :=
  [E_resume 11 (resp0 21000); E_resume 12 (resp0 35000)].

Definition third_timer : list Event :=
  [E_resume 13 (resp0 36000); E_resume 14 (resp0 50000)].

(** [w'] has the walking toggle of [w], and the navigating toggle of [w]
    or none. *)
Definition toggles_kept (w w' : World) : Prop :=
  isWalkingFeatureActive w' = isWalkingFeatureActive w
  /\ (isNavigating w' = isNavigating w \/ isNavigating w' = false).

(** Navigating implies walkingActive. *)
Definition toggles_ok (w : World) : Prop :=
  isNavigating w = true -> isWalkingFeatureActive w = true.

(** The event delivers the classification WALKING_MODE_OFF to the current
    interaction. *)
Definition walking_off (k : Cont) (r : Resp) (w : World) : bool :=
  match k with
  | K_pc_classify cid =>
    r_ok r && is_current cid w && IntentType_beq (type (r_intent r)) WALKING_MODE_OFF
  | _ => false
  end.

(** The event is the delivery of WALKING_MODE_OFF to the current
    interaction. *)
Definition walking_off_event (e : Event) (w : World) : bool :=
  match e with
  | E_resume id r =>
    match lookup_cont id (pending w) with
    | Some k => walking_off k r (set_pending (remove_cont id (pending w)) w)
    | None => false
    end
  | _ => false
  end.

(** No event of the run switches walking mode off while navigating. *)
Fixpoint keeps_walking (es : list Event) (w : World) : Prop :=
  match es with
  | [] => True
  | e :: es' =>
    (walking_off_event e w = false \/ isNavigating w = false)
    /\ keeps_walking es' (step e w)
  end.

(** "Stop walking mode" said while navigating to the park. *)
Definition walking_off_while_navigating : list Event :=
  (navigate_events (Some two_step_plan) ++
   [E_press 20000; E_resume 9 (resp_text 21000 "stop walking mode");
    E_resume 10 (resp_intent 21500 WALKING_MODE_OFF None); E_resume 11 (resp0 23000)])%list.

(** The suspension points after which the pipeline compares its interaction
    id with [interactionIdRef] before doing anything else. *)
Definition rechecked (k : Cont) (cid : Z) : bool :=
  match k with
  | K_hb_listen c | K_pc_classify c | K_pc_geolocate c _ | K_pc_directions c
  | K_pc_settle c _ | K_pc_analysis c => c =? cid
  | _ => false
  end.

(** "Stay with me", then a second button press while the confirmation is
    being spoken. *)
Definition press_during_confirmation : list Event :=
  [E_press 1000; E_resume 1 (resp_text 1500 "stay with me");
   E_resume 2 (resp_intent 1600 COMPANION_MODE_ON None);
   E_press 2000].

(** "What is this", then a second button press while the camera captures. *)
Definition press_during_capture : list Event :=
  [E_press 1000; E_resume 1 (resp_text 1500 "what is this");
   E_resume 2 (resp_intent 1600 DESCRIBE None); E_resume 4 (resp0 2000);
   E_press 2100].

(** Number of capture+analyze cycles between acquiring the guard and their
    [finally]. *)
Definition cycles (l : list (nat * Cont)) : nat :=
  List.length (filter (fun e => in_cycle (snd e)) l).

Definition in_flight (w : World) : nat := cycles (pending w).

Definition held (w : World) : nat := if isAnalyzingFrameRef w then 1%nat else 0%nat.

(** The handle in [navTimerRef] never names a cycle continuation. *)
Definition navTimer_ok (t : option nat) (l : list (nat * Cont)) : Prop :=
  match t with
  | Some id => Forall (fun e => fst e = id -> in_cycle (snd e) = false) l
  | None => True
  end.

(** [guarded d w]: handles are unique and below [nextId], and the number of
    cycles in flight plus [d] is 1 when the guard is held and 0 when it is
    free.  [d = 1] describes a cycle that is running a synchronous segment:
    it holds the guard and none of its continuations is parked. *)
Record guarded (d : nat) (w : World) : Prop := {
  g_nodup : NoDup (map fst (pending w));
  g_fresh : fresh w;
  g_timer : navTimer_ok (navTimerRef w) (pending w);
  g_timer_lt : forall id, navTimerRef w = Some id -> (id < nextId w)%nat;
  g_count : (in_flight w + d = held w)%nat
}.

(** The watchdog finds the loop silent for more than 2 s in an active mode
    and restarts it. *)
Definition watchdog_restart (e : Event) (w : World) : bool :=
  match e with
  | E_watchdog now => is_active (appStateRef w) && (2000 <? now - lastLoopTimeRef w)
  | _ => false
  end.

(** No watchdog restart happens along the run. *)
Fixpoint no_restart (es : list Event) (w : World) : Prop :=
  match es with
  | [] => True
  | e :: es' => watchdog_restart e w = false /\ no_restart es' (step e w)
  end.

(** Walking mode is switched on, the watchdog ticks 1 s after the loop
    started, then the first frame arrives. *)
Definition walking_events : list Event :=
  [E_press 1000; E_resume 1 (resp_text 1500 "start walking mode");
   E_resume 2 (resp_intent 1600 WALKING_MODE_ON None);
   E_resume 3 (resp0 3000); E_watchdog 4000;
   E_resume 4 (resp_frame 4100 (Some "data:image/jpeg;base64,AAAA"))].

(** The cells a render compares: the six state cells and their refs. *)
Definition same_view (w w' : World) : Prop :=
  appState w' = appState w /\ isNavigating w' = isNavigating w
  /\ navPlan w' = navPlan w /\ isWalkingFeatureActive w' = isWalkingFeatureActive w
  /\ isCompanionMode w' = isCompanionMode w /\ currentStepIndex w' = currentStepIndex w
  /\ appStateRef w' = appStateRef w /\ isNavigatingRef w' = isNavigatingRef w
  /\ navPlanRef w' = navPlanRef w
  /\ isWalkingFeatureActiveRef w' = isWalkingFeatureActiveRef w
  /\ isCompanionModeRef w' = isCompanionModeRef w /\ stepIndexRef w' = stepIndexRef w.

(** State inference has just set the mode from IDLE; nothing else differs
    from the refs. *)
Definition inferred (w : World) : Prop :=
  appStateRef w = IDLE
  /\ appState w = (if isNavigating w then NAVIGATING else WALKING)
  /\ isNavigatingRef w = isNavigating w /\ navPlanRef w = navPlan w
  /\ isWalkingFeatureActiveRef w = isWalkingFeatureActive w
  /\ isCompanionModeRef w = isCompanionMode w /\ stepIndexRef w = currentStepIndex w.

(** The narrator has just announced arrival. *)
Definition arrived (w : World) : Prop :=
  isNavigating w = false /\ navPlan w = None
  /\ appState w = (if isWalkingFeatureActive w then WALKING else IDLE)
  /\ isWalkingFeatureActiveRef w = isWalkingFeatureActive w
  /\ isCompanionModeRef w = isCompanionMode w /\ stepIndexRef w = currentStepIndex w.

(** [r] is [w] after the arrival branch of a tick. *)
Definition arrival_of (w r : World) : Prop :=
  isNavigating r = false /\ navPlan r = None
  /\ appState r = (if isWalkingFeatureActiveRef w then WALKING else IDLE)
  /\ isWalkingFeatureActive r = isWalkingFeatureActive w
  /\ isCompanionMode r = isCompanionMode w /\ currentStepIndex r = currentStepIndex w
  /\ appStateRef r = appStateRef w /\ isNavigatingRef r = isNavigatingRef w
  /\ navPlanRef r = navPlanRef w
  /\ isWalkingFeatureActiveRef r = isWalkingFeatureActiveRef w
  /\ isCompanionModeRef r = isCompanionModeRef w /\ stepIndexRef r = stepIndexRef w.

(** ** Vocabulary of the further properties of the component *)

(** [w'] has the interaction id and the debounce stamp of [w]. *)
Definition ids_kept (w w' : World) : Prop :=
  interactionIdRef w' = interactionIdRef w /\ lastButtonPressRef w' = lastButtonPressRef w.

(** The current interaction id is not newer than the last accepted press. *)
Definition id_bounded (w : World) : Prop := interactionIdRef w <= lastButtonPressRef w.

(** A mode outside the loops: the command pipeline is classifying. *)
Definition classifying_world : World :=
  run [E_press 20000; E_resume 9 (resp_text 21000 "stop walking mode")]
      (run (navigate_events (Some two_step_plan)) (initial 0)).

Definition mode_settles (a b : AppState) : Prop :=
  b = a \/ b = NAVIGATING \/ b = WALKING \/ b = IDLE.

(** The awaits of processCommand that can reject. *)
Definition may_reject (k : Cont) (cid : Z) : bool :=
  match k with
  | K_pc_classify c | K_pc_directions c | K_pc_capture c _ | K_pc_analysis c => c =? cid
  | _ => false
  end.

Definition ignores_distress (s : AppState) : bool :=
  match s with
  | LISTENING | EMERGENCY_CHECK | EMERGENCY_ACTING => true
  | _ => false
  end.

Definition plain_visual (t : IntentType) : bool :=
  match t with
  | DESCRIBE | READ_TEXT | SAFETY_CHECK | UNKNOWN => true
  | _ => false
  end.

(** The analysis of a frame returns and the companion branch speaks a
    filler phrase. *)
Definition filler_branch (r : Resp) (w : World) : bool :=
  r_ok r && negb (is_fall (r_hazard r)) && is_active (appStateRef w)
  && negb (is_real_hazard (r_hazard r))
  && isCompanionModeRef w && negb (isSpeaking w)
  && (15000 <? r_now r - lastCompanionMsgRef w).

Definition speaks_filler (e : Event) (w : World) : bool :=
  match e with
  | E_resume id r =>
    match lookup_cont id (pending w) with
    | Some K_wl_analysis => filler_branch r w
    | _ => false
    end
  | _ => false
  end.

(** The clock readings of the events do not go backwards. *)
Fixpoint nondecreasing (t : Z) (es : list Event) : Prop :=
  match es with
  | [] => True
  | e :: es' => t <= event_now e /\ nondecreasing (event_now e) es'
  end.

(** The clock readings at which a filler phrase is spoken along a run. *)
Fixpoint filler_times (es : list Event) (w : World) : list Z :=
  match es with
  | [] => []
  | e :: es' =>
    (if speaks_filler e w then [event_now e] else []) ++ filler_times es' (step e w)
  end.

Definition filler_run : list Event :=
  [E_resume 4 (resp_frame 3100 (Some "data:image/jpeg;base64,AAAA"));
   E_resume 5 (resp_hazard 20000 None)].

(** * geminiService.ts: retry, intent classification and the hazard reply *)

(** What [ai.models.generateContent] throws: [status] and [message] as far
    as the retry helper reads them. *)
Record ApiError := {
  status : option Z;
  err_message : option string
}.

Inductive Outcome (A : Type) :=
| Resolved (a : A)
| Rejected (e : ApiError).
Arguments Resolved {A} a.
Arguments Rejected {A} e.

(** What the helper's promise does: return a value, throw, or fall out of
    the loop (resolving to undefined). *)
Inductive RetryResult (A : Type) :=
| Returned (a : A)
| Threw (e : ApiError)
| Undefined.
Arguments Returned {A} a.
Arguments Threw {A} e.
Arguments Undefined {A}.

Definition message_includes (e : ApiError) (needle : string) : bool :=
  match err_message e with
  | Some m => includes m needle
  | None => false          (* error.message?.includes(...) is undefined *)
  end.

Definition status_is (e : ApiError) (code : Z) : bool :=
  match status e with Some s => s =? code | None => false end.

Definition isRecoverable (e : ApiError) : bool :=
  status_is e 429 || status_is e 503 || status_is e 500
  || message_includes e "quota" || message_includes e "Overloaded".

(** The loop from iteration [i] on, with [fuel] iterations left; [api j] is
    the outcome of the call made in iteration [j].  The second component
    lists the delays waited, in order. *)
Fixpoint retry_loop {A : Type} (api : nat -> Outcome A) (retryCount i : nat) (delay : Z)
         (fuel : nat) : RetryResult A * list Z :=
  match fuel with
  | O => (Undefined, [])
  | S fuel' =>
    match api i with
    | Resolved a => (Returned a, [])
    | Rejected e =>
      if negb (isRecoverable e) || Nat.eqb i (retryCount - 1) then (Threw e, [])
      else
        let (res, waits) := retry_loop api retryCount (S i) (delay * 2) fuel' in
        (res, delay :: waits)
    end
  end.

Definition generateContentWithRetry {A : Type} (api : nat -> Outcome A) (retryCount : nat)
  : RetryResult A * list Z :=
  retry_loop api retryCount 0 1000 retryCount.

(** The first [n] delays starting from [d]: d, 2d, 4d, ... *)
Fixpoint backoff (d : Z) (n : nat) : list Z :=
  match n with
  | O => []
  | S n' => d :: backoff (d * 2) n'
  end.

Definition recoverable_failure {A : Type} (o : Outcome A) : Prop :=
  match o with
  | Rejected e => isRecoverable e = true
  | Resolved _ => False
  end.

(** Two overloads, then an answer. *)
Definition flaky_api (j : nat) : Outcome string :=
  match j with
  | 0%nat => Rejected {| status := Some 503; err_message := None |}
  | 1%nat => Rejected {| status := None; err_message := Some "Model is Overloaded" |}
  | _ => Resolved "{}"
  end.

(** What [simpleIntentParser] returns: the intent type and the confidence
    in tenths; [originalQuery] is the text itself and no destination is
    ever set. *)
Record FallbackIntent := {
  fi_type : IntentType;
  fi_confidence : nat
}.

Definition simpleIntentParser (text : string) : option FallbackIntent :=
  let t := toLowerCase text in
  if includes t "safe" || includes t "danger" || includes t "watch out" then
    Some {| fi_type := SAFETY_CHECK; fi_confidence := 9 |}
  else if includes t "stop" || includes t "cancel" || includes t "quit" || includes t "exit" then
    if includes t "navigation" || includes t "route" then
      Some {| fi_type := STOP_NAVIGATION; fi_confidence := 10 |}
    else if includes t "walking" || includes t "mode" then
      Some {| fi_type := WALKING_MODE_OFF; fi_confidence := 10 |}
    else Some {| fi_type := STOP_NAVIGATION; fi_confidence := 8 |}
  else if (includes t "start" || includes t "begin")
          && (includes t "walking" || includes t "mode") then
    Some {| fi_type := WALKING_MODE_ON; fi_confidence := 9 |}
  else if includes t "navigate" || includes t "go to" || includes t "take me" then
    Some {| fi_type := NAVIGATE; fi_confidence := 9 |}
  else if includes t "where am i" || includes t "location" || includes t "address" then
    Some {| fi_type := WHERE_AM_I; fi_confidence := 9 |}
  else if includes t "read" || includes t "what does this say"
          || includes t "what does it say" || includes t "text" || includes t "document" then
    Some {| fi_type := READ_TEXT; fi_confidence := 9 |}
  else if includes t "companion" || (includes t "friend" && includes t "be my") then
    if includes t "off" || includes t "stop" then
      Some {| fi_type := COMPANION_MODE_OFF; fi_confidence := 9 |}
    else Some {| fi_type := COMPANION_MODE_ON; fi_confidence := 9 |}
  else None.

(** The [IntentResult] the pipeline sees: [destination] is undefined. *)
Definition intent_of_fallback (f : FallbackIntent) : IntentResult :=
  {| type := fi_type f; destination := None |}.




Definition stop_word (t : string) : bool :=
  includes t "stop" || includes t "cancel" || includes t "quit" || includes t "exit".

Definition stops_something (ty : IntentType) : bool :=
  match ty with
  | SAFETY_CHECK | STOP_NAVIGATION | WALKING_MODE_OFF => true
  | _ => false
  end.



(** [s.indexOf(c)] and [s.lastIndexOf(c)] for a one-character needle;
    [None] is -1. *)
Fixpoint indexOf (c : ascii) (s : string) : option nat :=
  match s with
  | EmptyString => None
  | String a r =>
    if Ascii.eqb a c then Some 0%nat
    else match indexOf c r with
         | Some i => Some (S i)
         | None => None
         end
  end.

Fixpoint lastIndexOf (c : ascii) (s : string) : option nat :=
  match s with
  | EmptyString => None
  | String a r =>
    match lastIndexOf c r with
    | Some i => Some (S i)
    | None => if Ascii.eqb a c then Some 0%nat else None
    end
  end.

(** [s.substring(a, b)]: the arguments are swapped when [a > b], and the
    end is clamped to the length. *)
Definition js_substring (a b : nat) (s : string) : string :=
  String.substring (Nat.min a b) (Nat.max a b - Nat.min a b) s.

(** What [ai.models.generateContent] comes to for the walking loop. *)
Inductive ApiCall :=
| ApiText (text : option string)
| ApiThrows.

Section AnalyzeWalkingSafety.

(** [JSON.parse] followed by the cast to WalkingHazard; [None] is a
    SyntaxError. *)
Variable JSON_parse : string -> option WalkingHazard.

Definition hazard_of_text (rawText : string) : option WalkingHazard :=
  match indexOf "{" rawText, lastIndexOf "}" rawText with
  | Some jsonStart, Some jsonEnd =>
    JSON_parse (js_substring jsonStart (jsonEnd + 1) rawText)
  | _, _ => None
  end.

Definition analyzeWalkingSafety (aborted_before aborted_after : bool) (response : ApiCall)
  : option WalkingHazard :=
  if aborted_before then None
  else match response with
       | ApiThrows => None
       | ApiText text =>
         if aborted_after then None
         else
           let rawText := match text with
                          | Some t => if truthy t then t else "{}"
                          | None => "{}"
                          end in
           hazard_of_text rawText
       end.

End AnalyzeWalkingSafety.

(** A parser that accepts one object text only. *)
Definition parse_only (object : string) (h : WalkingHazard) (text : string)
  : option WalkingHazard :=
  if String.eqb text object then Some h else None.

(** * audioService.ts: recording, speech and distress detection *)

Module AudioService.

(** The fields of the class that its handlers read and write, the stored
    resolver of the [listen()] promise (by the number of the promise), and
    what has left the service so far: the promises settled, the distress
    callbacks made and the utterances handed to the synthesiser, newest
    first. *)
Record State := {
  isListening : bool;
  isMonitoring : bool;
  intentionalStop : bool;
  resolveRecording : option nat;
  fullTranscript : string;
  sessionTranscript : string;
  isSpeaking : bool;
  onDistressCallback : bool;
  promises : nat;
  resolved : list (nat * string);
  rejected : list nat;
  distress : list (string * EmergencySeverity);
  utterances : list string
}.

Definition initial : State :=
  {| isListening := false; isMonitoring := false; intentionalStop := false;
     resolveRecording := None; fullTranscript := ""; sessionTranscript := "";
     isSpeaking := false; onDistressCallback := false; promises := 0%nat;
     resolved := []; rejected := []; distress := []; utterances := [] |}.

(** [text.replace(/<[^>]*>/g, '')]: scanning from the left, a "<" that has
    a ">" somewhere after it is dropped together with everything up to the
    first such ">"; [inside] is true while the scan is within such a
    match. *)
Fixpoint replace_tags (inside : bool) (text : string) : string :=
  match text with
  | EmptyString => EmptyString
  | String c r =>
    if inside then
      if Ascii.eqb c ">" then replace_tags false r else replace_tags true r
    else if Ascii.eqb c "<" && includes r ">" then replace_tags true r
    else String c (replace_tags false r)
  end.

Definition cleanText (text : string) : string := replace_tags false text.

(** [speak]: the utterance's onend and onerror handlers are [utteranceDone]. *)
Definition speak (text : string) (s : State) : State :=
  {| isListening := isListening s; isMonitoring := isMonitoring s;
     intentionalStop := intentionalStop s; resolveRecording := resolveRecording s;
     fullTranscript := fullTranscript s; sessionTranscript := sessionTranscript s;
     isSpeaking := true; onDistressCallback := onDistressCallback s;
     promises := promises s; resolved := resolved s; rejected := rejected s;
     distress := distress s; utterances := cleanText text :: utterances s |}.

Definition set_isSpeaking (b : bool) (s : State) : State :=
  {| isListening := isListening s; isMonitoring := isMonitoring s;
     intentionalStop := intentionalStop s; resolveRecording := resolveRecording s;
     fullTranscript := fullTranscript s; sessionTranscript := sessionTranscript s;
     isSpeaking := b; onDistressCallback := onDistressCallback s;
     promises := promises s; resolved := resolved s; rejected := rejected s;
     distress := distress s; utterances := utterances s |}.

Definition stopSpeaking (s : State) : State := set_isSpeaking false s.

Definition utteranceDone (s : State) : State := set_isSpeaking false s.

Definition stopListening (s : State) : State :=
  if negb (isListening s) then s
  else
    {| isListening := isListening s; isMonitoring := isMonitoring s;
       intentionalStop := true; resolveRecording := resolveRecording s;
       fullTranscript := fullTranscript s; sessionTranscript := sessionTranscript s;
       isSpeaking := isSpeaking s; onDistressCallback := onDistressCallback s;
       promises := promises s; resolved := resolved s; rejected := rejected s;
       distress := distress s; utterances := utterances s |}.

(** [_startRecognitionCycle] with a [recognition.start()] that does not
    throw; the handlers it installs are [onresult], [onerror] and [onend]
    below. *)
Definition _startRecognitionCycle (s : State) : State :=
  if negb (isListening s) then s
  else
    {| isListening := isListening s; isMonitoring := isMonitoring s;
       intentionalStop := intentionalStop s; resolveRecording := resolveRecording s;
       fullTranscript := fullTranscript s; sessionTranscript := "";
       isSpeaking := isSpeaking s; onDistressCallback := onDistressCallback s;
       promises := promises s; resolved := resolved s; rejected := rejected s;
       distress := distress s; utterances := utterances s |}.

(** [listen]; [supported] is whether the browser has a SpeechRecognition
    constructor. *)
Definition listen (supported : bool) (s : State) : State :=
  if negb supported then
    {| isListening := isListening s; isMonitoring := isMonitoring s;
       intentionalStop := intentionalStop s; resolveRecording := resolveRecording s;
       fullTranscript := fullTranscript s; sessionTranscript := sessionTranscript s;
       isSpeaking := isSpeaking s; onDistressCallback := onDistressCallback s;
       promises := S (promises s); resolved := resolved s;
       rejected := promises s :: rejected s;
       distress := distress s; utterances := utterances s |}
  else
    let s := stopSpeaking s in
    _startRecognitionCycle
      {| isListening := true; isMonitoring := isMonitoring s;
         intentionalStop := false; resolveRecording := Some (promises s);
         fullTranscript := ""; sessionTranscript := "";
         isSpeaking := isSpeaking s; onDistressCallback := onDistressCallback s;
         promises := S (promises s); resolved := resolved s; rejected := rejected s;
         distress := distress s; utterances := utterances s |}.

Definition _finalizeAndResolve (s : State) : State :=
  let finalResult := trim (fullTranscript s ++ " " ++ sessionTranscript s) in
  {| isListening := false; isMonitoring := isMonitoring s;
     intentionalStop := true; resolveRecording := None;
     fullTranscript := fullTranscript s; sessionTranscript := sessionTranscript s;
     isSpeaking := isSpeaking s; onDistressCallback := onDistressCallback s;
     promises := promises s;
     resolved := match resolveRecording s with
                 | Some p => (p, finalResult) :: resolved s
                 | None => resolved s
                 end;
     rejected := rejected s; distress := distress s; utterances := utterances s |}.

(** [recognition.onresult]: [results] are the top transcripts of
    [event.results]. *)
Definition onresult (results : list string) (s : State) : State :=
  {| isListening := isListening s; isMonitoring := isMonitoring s;
     intentionalStop := intentionalStop s; resolveRecording := resolveRecording s;
     fullTranscript := fullTranscript s;
     sessionTranscript := fold_left String.append results "";
     isSpeaking := isSpeaking s; onDistressCallback := onDistressCallback s;
     promises := promises s; resolved := resolved s; rejected := rejected s;
     distress := distress s; utterances := utterances s |}.

Definition onend (s : State) : State :=
  if negb (isListening s) then s
  else if intentionalStop s then _finalizeAndResolve s
  else
    let s :=
        if truthy (sessionTranscript s) then
          {| isListening := isListening s; isMonitoring := isMonitoring s;
             intentionalStop := intentionalStop s; resolveRecording := resolveRecording s;
             fullTranscript := fullTranscript s ++ sessionTranscript s ++ " ";
             sessionTranscript := sessionTranscript s;
             isSpeaking := isSpeaking s; onDistressCallback := onDistressCallback s;
             promises := promises s; resolved := resolved s; rejected := rejected s;
             distress := distress s; utterances := utterances s |}
        else s in
    _startRecognitionCycle s.

Definition onerror (error : string) (s : State) : State :=
  if String.eqb error "not-allowed" then
    speak "Microphone access denied." (_finalizeAndResolve s)
  else s.

Definition call_onDistress (type : string) (severity : EmergencySeverity) (s : State) : State :=
  if onDistressCallback s then
    {| isListening := isListening s; isMonitoring := isMonitoring s;
       intentionalStop := intentionalStop s; resolveRecording := resolveRecording s;
       fullTranscript := fullTranscript s; sessionTranscript := sessionTranscript s;
       isSpeaking := isSpeaking s; onDistressCallback := onDistressCallback s;
       promises := promises s; resolved := resolved s; rejected := rejected s;
       distress := (type, severity) :: distress s; utterances := utterances s |}
  else s.

Definition high_keyword (transcript : string) : bool :=
  includes transcript "help" || includes transcript "emergency"
  || includes transcript "call 911" || includes transcript "scream"
  || includes transcript "no no no".

Definition medium_keyword (transcript : string) : bool :=
  includes transcript "ouch" || includes transcript "hurt" || includes transcript "pain"
  || includes transcript "fell" || includes transcript "falling"
  || includes transcript "stop it".

(** [backgroundRecognition.onresult]; [lastResult] is the top transcript of
    the last entry of [event.results]. *)
Definition background_onresult (lastResult : string) (s : State) : State :=
  if negb (isMonitoring s) || isListening s then s
  else
    let transcript := trim (toLowerCase lastResult) in
    if high_keyword transcript then call_onDistress "keyword_high" high s
    else if medium_keyword transcript then call_onDistress "keyword_med" medium s
    else s.

(** One tick of the 200 ms interval of [startNoiseListener]; [loud] is
    [getAmplitude() > 0.85]. *)
Definition noise_tick (loud : bool) (s : State) : State :=
  if isSpeaking s || isListening s then s
  else if loud then call_onDistress "loud_noise" medium s
  else s.

Definition startDistressListener (s : State) : State :=
  {| isListening := isListening s; isMonitoring := true;
     intentionalStop := intentionalStop s; resolveRecording := resolveRecording s;
     fullTranscript := fullTranscript s; sessionTranscript := sessionTranscript s;
     isSpeaking := isSpeaking s; onDistressCallback := true;
     promises := promises s; resolved := resolved s; rejected := rejected s;
     distress := distress s; utterances := utterances s |}.

Definition stopDistressListener (s : State) : State :=
  {| isListening := isListening s; isMonitoring := false;
     intentionalStop := intentionalStop s; resolveRecording := resolveRecording s;
     fullTranscript := fullTranscript s; sessionTranscript := sessionTranscript s;
     isSpeaking := isSpeaking s; onDistressCallback := onDistressCallback s;
     promises := promises s; resolved := resolved s; rejected := rejected s;
     distress := distress s; utterances := utterances s |}.

(** What can happen to the service: calls of its public methods, and the
    browser events its handlers are registered for.  The silence timer and
    the maximum-duration timer both call [stopListening]. *)
Inductive Event :=
| Listen (supported : bool)
| StopListening
| Result (results : list string)
| End_
| Error (error : string)
| Speak (text : string)
| StopSpeaking
| UtteranceDone
| StartDistressListener
| StopDistressListener
| BackgroundResult (lastResult : string)
| NoiseTick (loud : bool).

Definition step (e : Event) (s : State) : State :=
  match e with
  | Listen supported => listen supported s
  | StopListening => stopListening s
  | Result results => onresult results s
  | End_ => onend s
  | Error error => onerror error s
  | Speak text => speak text s
  | StopSpeaking => stopSpeaking s
  | UtteranceDone => utteranceDone s
  | StartDistressListener => startDistressListener s
  | StopDistressListener => stopDistressListener s
  | BackgroundResult lastResult => background_onresult lastResult s
  | NoiseTick loud => noise_tick loud s
  end.

Definition run (es : list Event) (s : State) : State :=
  fold_left (fun s e => step e s) es s.

End AudioService.

(** No "<" of the text has a ">" anywhere after it. *)
Fixpoint tag_free (text : string) : bool :=
  match text with
  | EmptyString => true
  | String c r => negb (Ascii.eqb c "<" && includes r ">") && tag_free r
  end.

(** The events of one recognition session that the browser ends on its
    own: its result events, then [onend]. *)
Definition session (results : list (list string)) : list AudioService.Event :=
  (map AudioService.Result results ++ [AudioService.End_])%list.

(** What a session has heard when it ends: the concatenated transcripts of
    its last result event. *)
Definition session_text (results : list (list string)) : string :=
  match rev results with
  | [] => ""
  | last :: _ => fold_left String.append last ""
  end.

(** The non-empty texts, each followed by one space. *)
Fixpoint stitched (texts : list string) : string :=
  match texts with
  | [] => ""
  | t :: ts => if truthy t then t ++ " " ++ stitched ts else stitched ts
  end.

(** A whole recording: [listen()], the sessions the browser ended, the
    results of the last session, then [stopListening()] and the [onend]
    that follows it. *)
Definition recording_events (interrupted : list (list (list string)))
           (final : list (list string)) : list AudioService.Event :=
  (AudioService.Listen true
     :: flat_map session interrupted
     ++ map AudioService.Result final
     ++ [AudioService.StopListening; AudioService.End_])%list.

(** A recording is in progress for promise [p]. *)
Definition recording (p : nat) (full sess : string) (res : list (nat * string))
           (s : AudioService.State) : Prop :=
  AudioService.isListening s = true
  /\ AudioService.intentionalStop s = false
  /\ AudioService.resolveRecording s = Some p
  /\ AudioService.fullTranscript s = full
  /\ AudioService.sessionTranscript s = sess
  /\ AudioService.resolved s = res.

(** The promises handed out so far are numbered below [promises]; the
    stored resolver belongs to one that is not settled; none is resolved
    twice or both resolved and rejected. *)
Definition promises_ok (s : AudioService.State) : Prop :=
  (forall p, In p (map fst (AudioService.resolved s)) -> (p < AudioService.promises s)%nat)
  /\ (forall p, In p (AudioService.rejected s) -> (p < AudioService.promises s)%nat)
  /\ (forall p, AudioService.resolveRecording s = Some p ->
                (p < AudioService.promises s)%nat
                /\ ~ In p (map fst (AudioService.resolved s))
                /\ ~ In p (AudioService.rejected s))
  /\ NoDup (map fst (AudioService.resolved s))
  /\ NoDup (AudioService.rejected s)
  /\ (forall p, In p (map fst (AudioService.resolved s)) ->
                ~ In p (AudioService.rejected s)).

(** Promise [p] has lost its resolver: it is neither settled nor the one
    the service would resolve next. *)
Definition abandoned (p : nat) (s : AudioService.State) : Prop :=
  (p < AudioService.promises s)%nat
  /\ ~ In p (map fst (AudioService.resolved s))
  /\ ~ In p (AudioService.rejected s)
  /\ AudioService.resolveRecording s <> Some p.

(** * Properties *)

(** ** Strings: a reply that contains a keyword is not blank *)

Lemma trimStart_cases (s : string) :
  trimStart s = s
  \/ (exists a r, s = String a r /\ is_space a = true /\ trimStart s = trimStart r)
  \/ (exists a b r, s = String a (String b r) /\ is_space2 a b = true
                    /\ trimStart s = trimStart r)
  \/ (exists a b c r, s = String a (String b (String c r)) /\ is_space3 a b c = true
                      /\ trimStart s = trimStart r).
Proof.
  destruct s as [|a [|b [|c r]]]; cbn [trimStart].
  - now left.
  - destruct (is_space a) eqn:E; [|now left].
    right; left. exists a, "". now rewrite ?E.
  - destruct (is_space a) eqn:E.
    + right; left. exists a, (String b ""). cbn [trimStart]. now rewrite ?E.
    + destruct (is_space2 a b) eqn:E2; [|now left].
      right; right; left. exists a, b, "". cbn [trimStart]. now rewrite ?E, ?E2.
  - destruct (is_space a) eqn:E.
    + right; left. exists a, (String b (String c r)). cbn [trimStart]. now rewrite ?E.
    + destruct (is_space2 a b) eqn:E2.
      * right; right; left. exists a, b, (String c r). cbn [trimStart]. now rewrite ?E, ?E2.
      * destruct (is_space3 a b c) eqn:E3; [|now left].
        right; right; right. exists a, b, c, r. cbn [trimStart]. now rewrite ?E, ?E2, ?E3.
Qed.

Lemma trimStart_idempotent (s : string) : trimStart (trimStart s) = trimStart s.
Proof.
  remember (String.length s) as n eqn:Hn. revert s Hn.
  induction n as [n IH] using lt_wf_ind. intros s Hn.
  destruct (trimStart_cases s) as [E|[(a & r & -> & _ & E)|[(a & b & r & -> & _ & E)
                                    |(a & b & c & r & -> & _ & E)]]].
  - now rewrite !E.
  - rewrite E. apply (IH (String.length r)); [subst; cbn; lia | reflexivity].
  - rewrite E. apply (IH (String.length r)); [subst; cbn; lia | reflexivity].
  - rewrite E. apply (IH (String.length r)); [subst; cbn; lia | reflexivity].
Qed.

Lemma is_space3_bytes (a b c : ascii) :
  is_space3 a b c = true -> ws_byte a = true /\ ws_byte b = true /\ ws_byte c = true.
Proof.
  unfold is_space3, ws_byte. cbv zeta. intros H.
  assert (G : (128 <= nat_of_ascii a /\ 128 <= nat_of_ascii b /\ 128 <= nat_of_ascii c)%nat).
  { repeat (apply orb_true_iff in H; destruct H as [H|H]);
      repeat (apply andb_true_iff in H; destruct H as [H ?]);
      repeat match goal with
             | X : Nat.eqb _ _ = true |- _ => apply Nat.eqb_eq in X
             | X : Nat.leb _ _ = true |- _ => apply Nat.leb_le in X
             | X : (_ || _)%bool = true |- _ => apply orb_true_iff in X; destruct X as [X|X]
             | X : (_ && _)%bool = true |- _ => apply andb_true_iff in X; destruct X as [X ?]
             end; lia. }
  destruct G as (Ga & Gb & Gc).
  apply Nat.leb_le in Ga, Gb, Gc. rewrite Ga, Gb, Gc. now rewrite !orb_true_r.
Qed.

Lemma is_space2_bytes (a b : ascii) :
  is_space2 a b = true -> ws_byte a = true /\ ws_byte b = true.
Proof.
  unfold is_space2, ws_byte. intros H. apply andb_true_iff in H. destruct H as [Ha Hb].
  apply Nat.eqb_eq in Ha, Hb. rewrite Ha, Hb. split; apply orb_true_r.
Qed.

(** A string that [trimStart] empties is made of white space bytes. *)
Lemma blank_bytes (c : ascii) (s : string) :
  trimStart s = "" -> has_byte c s = true -> ws_byte c = true.
Proof.
  remember (String.length s) as n eqn:Hn. revert s Hn.
  induction n as [n IH] using lt_wf_ind. intros s Hn Hb Hc.
  destruct (trimStart_cases s) as [E|[(a & r & -> & Hs & E)|[(a & b & r & -> & Hs & E)
                                    |(a & b & d & r & -> & Hs & E)]]].
  - rewrite Hb in E. subst s. discriminate Hc.
  - cbn [has_byte] in Hc. apply orb_true_iff in Hc. destruct Hc as [Hc|Hc].
    + apply Ascii.eqb_eq in Hc. subst c. unfold ws_byte. now rewrite Hs.
    + apply (IH (String.length r)) with (s := r);
        [subst; cbn; lia | reflexivity | congruence | exact Hc].
  - destruct (is_space2_bytes a b Hs) as [Wa Wb].
    cbn [has_byte] in Hc. repeat (apply orb_true_iff in Hc; destruct Hc as [Hc|Hc]);
      try (apply Ascii.eqb_eq in Hc; now subst c).
    apply (IH (String.length r)) with (s := r);
      [subst; cbn; lia | reflexivity | congruence | exact Hc].
  - destruct (is_space3_bytes a b d Hs) as (Wa & Wb & Wd).
    cbn [has_byte] in Hc. repeat (apply orb_true_iff in Hc; destruct Hc as [Hc|Hc]);
      try (apply Ascii.eqb_eq in Hc; now subst c).
    apply (IH (String.length r)) with (s := r);
      [subst; cbn; lia | reflexivity | congruence | exact Hc].
Qed.

Lemma truthy_false (s : string) : truthy s = false -> s = "".
Proof. unfold truthy. intros H. apply negb_false_iff in H. now apply String.eqb_eq. Qed.

Lemma has_byte_nonspace (c : ascii) (s : string) :
  ws_byte c = false -> has_byte c s = true -> has_nonspace s = true.
Proof.
  intros Hw Hc. unfold has_nonspace. destruct (truthy (trimStart s)) eqn:E; [reflexivity|].
  apply truthy_false in E. rewrite (blank_bytes c s E Hc) in Hw. discriminate.
Qed.

Lemma has_nonspace_length (s : string) :
  has_nonspace s = true -> Nat.eqb (String.length s) 0 = false.
Proof. destruct s; [discriminate | reflexivity]. Qed.

Lemma nonblank_trim (s : string) :
  has_nonspace s = true ->
  truthy s = true /\ Nat.eqb (String.length (trim s)) 0 = false.
Proof.
  intros H; split.
  - destruct s; [discriminate | reflexivity].
  - unfold trim, has_nonspace in *. destruct (trimStart s) as [|a r] eqn:E; [discriminate|].
    cbn [trimEnd]. rewrite <- E, trimStart_idempotent, E. reflexivity.
Qed.

Lemma ws_byte_lower (c : ascii) : ws_byte (lower_ascii c) = ws_byte c.
Proof.
  destruct c as [b0 b1 b2 b3 b4 b5 b6 b7].
  destruct b0, b1, b2, b3, b4, b5, b6, b7; reflexivity.
Qed.

Lemma toLowerCase_cases (s : string) :
  s = ""
  \/ (exists a r, s = String a r
                  /\ toLowerCase s = String (lower_ascii a) (toLowerCase r))
  \/ (exists a b r, s = String a (String b r)
                    /\ toLowerCase s
                       = String "i" (String (ascii_of_nat 204)
                                       (String (ascii_of_nat 135) (toLowerCase r))))
  \/ (exists a b c r, s = String a (String b (String c r))
                      /\ toLowerCase s = String "k" (toLowerCase r)).
Proof.
  destruct s as [|a [|b [|c r]]]; [now left| | |].
  - right; left. exists a, "". split; reflexivity.
  - cbn [toLowerCase]. destruct (is_dotted_I a b).
    + right; right; left. exists a, b, "". split; reflexivity.
    + right; left. exists a, (String b ""). split; reflexivity.
  - cbn [toLowerCase]. destruct (is_dotted_I a b).
    + right; right; left. exists a, b, (String c r). split; reflexivity.
    + destruct (is_kelvin a b c).
      * right; right; right. exists a, b, c, r. split; reflexivity.
      * right; left. exists a, (String b (String c r)). split; reflexivity.
Qed.

Lemma own_letter_byte (c : ascii) :
  own_letter c = true ->
  ws_byte c = false /\ c <> "k"%char /\ c <> "i"%char
  /\ c <> ascii_of_nat 204 /\ c <> ascii_of_nat 135.
Proof.
  unfold own_letter. intros H.
  apply andb_true_iff in H. destruct H as [H Hi].
  apply andb_true_iff in H. destruct H as [Hw Hk].
  apply negb_true_iff in Hw, Hk, Hi.
  apply Ascii.eqb_neq in Hk, Hi.
  repeat split; auto; intros ->; discriminate Hw.
Qed.

(** A letter of the lower-cased text that is neither k nor i is the lower
    case of a byte of the text. *)
Lemma has_byte_toLowerCase (c : ascii) (s : string) :
  own_letter c = true ->
  has_byte c (toLowerCase s) = true ->
  exists a, has_byte a s = true /\ lower_ascii a = c.
Proof.
  intros Hc. destruct (own_letter_byte c Hc) as (_ & Hk & Hi & H204 & H135).
  remember (String.length s) as n eqn:Hn. revert s Hn.
  induction n as [n IH] using lt_wf_ind. intros s Hn H.
  destruct (toLowerCase_cases s) as [->|[(a & r & -> & E)|[(a & b & r & -> & E)
                                       |(a & b & d & r & -> & E)]]].
  - discriminate H.
  - rewrite E in H. cbn [has_byte] in H. apply orb_true_iff in H. destruct H as [H|H].
    + apply Ascii.eqb_eq in H. exists a. cbn [has_byte]. now rewrite Ascii.eqb_refl.
    + destruct (IH (String.length r)) with (s := r) as (x & Hx & Hl);
        [subst; cbn; lia | reflexivity | exact H |].
      exists x. cbn [has_byte]. rewrite Hx. split; [apply orb_true_r | exact Hl].
  - rewrite E in H. cbn [has_byte] in H.
    repeat (apply orb_true_iff in H; destruct H as [H|H]);
      try (apply Ascii.eqb_eq in H; congruence).
    destruct (IH (String.length r)) with (s := r) as (x & Hx & Hl);
      [subst; cbn; lia | reflexivity | exact H |].
    exists x. cbn [has_byte]. rewrite Hx. split; [now rewrite !orb_true_r | exact Hl].
  - rewrite E in H. cbn [has_byte] in H.
    apply orb_true_iff in H; destruct H as [H|H];
      [apply Ascii.eqb_eq in H; congruence|].
    destruct (IH (String.length r)) with (s := r) as (x & Hx & Hl);
      [subst; cbn; lia | reflexivity | exact H |].
    exists x. cbn [has_byte]. rewrite Hx. split; [now rewrite !orb_true_r | exact Hl].
Qed.

Lemma includes_has_byte (hay : string) (c : ascii) (t : string) :
  includes hay (String c t) = true -> has_byte c hay = true.
Proof.
  induction hay as [|a r IH]; cbn [includes String.prefix has_byte]; [discriminate|].
  destruct (Ascii.ascii_dec c a) as [->|Hne].
  - intros _. now rewrite Ascii.eqb_refl.
  - intros H. rewrite (IH H). apply orb_true_r.
Qed.

(** A string whose lower-cased text contains a needle that starts with
    such a letter is not blank. *)
Lemma includes_has_nonspace (s : string) (c : ascii) (t : string) :
  own_letter c = true -> includes (toLowerCase s) (String c t) = true ->
  has_nonspace s = true.
Proof.
  intros Hc H. apply includes_has_byte in H.
  destruct (has_byte_toLowerCase c s Hc H) as (a & Ha & Hl).
  apply (has_byte_nonspace a); [|exact Ha].
  rewrite <- ws_byte_lower, Hl. now destruct (own_letter_byte c Hc).
Qed.

Lemma affirmative_nonblank (s : string) :
  affirmative (toLowerCase s) = true -> has_nonspace s = true.
Proof.
  unfold affirmative; intros H.
  repeat (apply orb_true_iff in H; destruct H as [H|H]);
    (eapply includes_has_nonspace; [|exact H]; reflexivity).
Qed.

Lemma distress_nonblank (s : string) :
  distress (toLowerCase s) = true -> has_nonspace s = true.
Proof.
  unfold distress; intros H.
  repeat (apply orb_true_iff in H; destruct H as [H|H]);
    (eapply includes_has_nonspace; [|exact H]; reflexivity).
Qed.

(** ** Emergency reply classification *)

Lemma appState_restoreState (w : World) :
  appState (restoreState w) =
  if isNavigatingRef w then NAVIGATING
  else if isWalkingFeatureActiveRef w then WALKING else IDLE.
Proof.
  unfold restoreState.
  destruct (isNavigatingRef w), (isWalkingFeatureActiveRef w); reflexivity.
Qed.

Lemma emergency_reply_affirmative (attempt : nat) (r : Resp) (w : World) :
  r_ok r = true ->
  affirmative (toLowerCase (r_text r)) = true ->
  emergency_reply attempt r w =
  speak "I'm glad you are safe. Resuming." false K_ev_safe_spoken w.
Proof.
  intros Hok Haff. unfold emergency_reply.
  destruct (nonblank_trim _ (affirmative_nonblank _ Haff)) as [Ht Hl].
  now rewrite Hok, Ht, Hl, Haff.
Qed.

(** C10.  The affirmative keywords are tested first: a reply whose
    lower-cased text contains an affirmative keyword and a distress keyword
    is answered with "I'm glad you are safe. Resuming.", the mode is left
    untouched until that utterance ends (no EMERGENCY_ACTING), and when it
    ends [restoreState] chooses NAVIGATING, WALKING or IDLE. *)
Theorem affirmative_tested_before_distress (attempt : nat) (r r' : Resp) (w : World) :
  r_ok r = true ->
  affirmative (toLowerCase (r_text r)) = true ->
  distress (toLowerCase (r_text r)) = true ->
  let w1 := emergency_reply attempt r w in
  w1 = speak "I'm glad you are safe. Resuming." false K_ev_safe_spoken w
  /\ appState w1 = appState w
  /\ trace w1 = A_speak "I'm glad you are safe. Resuming." false :: trace w
  /\ appState (resume K_ev_safe_spoken r' w1) =
     (if isNavigatingRef w then NAVIGATING
      else if isWalkingFeatureActiveRef w then WALKING else IDLE).
Proof.
  intros Hok Haff _ w1. subst w1.
  rewrite (emergency_reply_affirmative attempt r w Hok Haff).
  repeat split.
  unfold resume, awaits_speech. now rewrite appState_restoreState.
Qed.

Lemma affirmative_tested_before_distress_witness :
  appState (emergency_reply 1 (resp_text 20 "no, I'm not okay") check_world)
  = EMERGENCY_CHECK.
Proof.
  rewrite (proj1 (proj2 (affirmative_tested_before_distress 1
             (resp_text 20 "no, I'm not okay") (resp0 30) check_world
             eq_refl eq_refl eq_refl))).
  reflexivity.
Defined.

(** C5.  During an emergency check the reply "I'm okay" is classified safe:
    the safe message is spoken and, when it ends, the mode is the one the
    toggles stand for (NAVIGATING when navigating, WALKING when only the
    walking toggle is on, IDLE otherwise), which is the mode [w0] had before
    the check whenever that mode agreed with the toggles.  The reply "help"
    sets the mode to EMERGENCY_ACTING. *)
Theorem im_okay_restores_help_escalates (attempt : nat) (now : Z) (r' : Resp) (w0 w : World) :
  isNavigatingRef w = isNavigating w0 ->
  isWalkingFeatureActiveRef w = isWalkingFeatureActive w0 ->
  let safe := emergency_reply attempt (resp_text now "I'm okay") w in
  let resumed := resume K_ev_safe_spoken r' safe in
  safe = speak "I'm glad you are safe. Resuming." false K_ev_safe_spoken w
  /\ appState resumed =
     (if isNavigating w0 then NAVIGATING
      else if isWalkingFeatureActive w0 then WALKING else IDLE)
  /\ (appState w0 = NAVIGATING -> isNavigating w0 = true -> appState resumed = appState w0)
  /\ (appState w0 = WALKING -> isNavigating w0 = false ->
      isWalkingFeatureActive w0 = true -> appState resumed = appState w0)
  /\ emergency_reply attempt (resp_text now "help") w = triggerEmergencyAction w
  /\ appState (emergency_reply attempt (resp_text now "help") w) = EMERGENCY_ACTING.
Proof.
  intros Hn Hw safe resumed.
  assert (Hs : safe = speak "I'm glad you are safe. Resuming." false K_ev_safe_spoken w)
    by (apply emergency_reply_affirmative; reflexivity).
  assert (Hr : appState resumed =
     (if isNavigating w0 then NAVIGATING
      else if isWalkingFeatureActive w0 then WALKING else IDLE)).
  { subst resumed. rewrite Hs. unfold resume, awaits_speech.
    rewrite appState_restoreState. cbn. now rewrite Hn, Hw. }
  repeat split; try assumption.
  - intros Ha Hnav. now rewrite Hr, Hnav, Ha.
  - intros Ha Hnav Hwalk. now rewrite Hr, Hnav, Hwalk, Ha.
Qed.

Lemma im_okay_restores_help_escalates_witness :
  appState walking_world = WALKING
  /\ appState walking_check_world = EMERGENCY_CHECK
  /\ appState (resume K_ev_safe_spoken (resp0 7000)
                (emergency_reply 1 (resp_text 6000 "I'm okay") walking_check_world))
     = WALKING.
Proof.
  split; [reflexivity|]. split; [reflexivity|].
  exact (proj1 (proj2 (proj2 (proj2
    (im_okay_restores_help_escalates 1 6000 (resp0 7000) walking_world
       walking_check_world eq_refl eq_refl)))) eq_refl eq_refl eq_refl).
Defined.

(** ** Handles of suspended continuations *)

Lemma lookup_cont_app_new (n : nat) (k : Cont) (l : list (nat * Cont)) :
  Forall (fun e => (fst e < n)%nat) l ->
  lookup_cont n (l ++ [(n, k)]) = Some k.
Proof.
  induction 1 as [|[i k'] l Hi _ IH]; simpl.
  - now rewrite Nat.eqb_refl.
  - simpl in Hi. destruct (Nat.eqb_spec i n); [lia | exact IH].
Qed.

Lemma lookup_cont_app_old (i n : nat) (k k' : Cont) (l : list (nat * Cont)) :
  lookup_cont i l = Some k -> lookup_cont i (l ++ [(n, k')]) = Some k.
Proof.
  induction l as [|[j kj] l IH]; simpl; [discriminate|].
  destruct (Nat.eqb j i); auto.
Qed.

Lemma lookup_cont_remove_other (i j : nat) (l : list (nat * Cont)) :
  i <> j -> lookup_cont i (remove_cont j l) = lookup_cont i l.
Proof.
  intros Hij; induction l as [|[a ka] l IH]; simpl; [reflexivity|].
  destruct (Nat.eqb_spec a j) as [->|Haj]; simpl.
  - destruct (Nat.eqb_spec j i); [congruence | exact IH].
  - now rewrite IH.
Qed.

Lemma Forall_remove_cont (P : nat * Cont -> Prop) (j : nat) (l : list (nat * Cont)) :
  Forall P l -> Forall P (remove_cont j l).
Proof.
  intros H. unfold remove_cont. apply Forall_forall. intros x Hx.
  apply filter_In in Hx. destruct Hx as [Hx _].
  revert x Hx. now apply Forall_forall.
Qed.

Lemma Forall_lt_S (n : nat) (l : list (nat * Cont)) :
  Forall (fun e => (fst e < n)%nat) l -> Forall (fun e => (fst e < S n)%nat) l.
Proof. apply Forall_impl. intros; lia. Qed.

Lemma Forall_lt_app_new (n : nat) (k : Cont) (l : list (nat * Cont)) :
  Forall (fun e => (fst e < n)%nat) l ->
  Forall (fun e => (fst e < S n)%nat) (l ++ [(n, k)]).
Proof.
  intros H. apply Forall_app. split.
  - now apply Forall_lt_S.
  - constructor; [simpl; lia | constructor].
Qed.

Lemma lookup_cont_lt (i n : nat) (k : Cont) (l : list (nat * Cont)) :
  Forall (fun e => (fst e < n)%nat) l -> lookup_cont i l = Some k -> (i < n)%nat.
Proof.
  induction 1 as [|[j kj] l Hj _ IH]; simpl; [discriminate|].
  destruct (Nat.eqb_spec j i) as [<-|_]; [intros _; exact Hj | exact IH].
Qed.

(** ** A committed world is not touched by [commit] *)

Lemma render_pass_committed (now : Z) (w : World) :
  state_changed w = false -> render_pass now w = w.
Proof. intros H. unfold render_pass. now rewrite H. Qed.

Lemma commit_committed (now : Z) (w : World) :
  state_changed w = false -> commit now w = w.
Proof.
  intros H. unfold commit. now rewrite !(render_pass_committed now w H).
Qed.

Lemma dispatch_resume (i : nat) (k : Cont) (r : Resp) (w : World) :
  lookup_cont i (pending w) = Some k ->
  dispatch (E_resume i r) w = resume k r (set_pending (remove_cont i (pending w)) w).
Proof. intros H. simpl. now rewrite H. Qed.

(** ** The verification dialogue, step by step *)

Lemma AppState_beq_eq (a b : AppState) : AppState_beq a b = true <-> a = b.
Proof. destruct a, b; simpl; split; congruence. Qed.

Lemma committed_appStateRef (w : World) :
  state_changed w = false -> appStateRef w = appState w.
Proof.
  unfold state_changed, deps_changed. intros H.
  destruct (AppState_beq (appState w) (appStateRef w)) eqn:E.
  - symmetry. now apply AppState_beq_eq.
  - discriminate.
Qed.

Lemma emergency_reply_no_response (attempt : nat) (r : Resp) (w : World) :
  no_response r = true -> emergency_reply attempt r w = handleNoResponse attempt w.
Proof.
  unfold no_response, emergency_reply.
  destruct (r_ok r), (truthy (r_text r)),
    (Nat.eqb (String.length (trim (r_text r))) 0),
    (affirmative (toLowerCase (r_text r))),
    (distress (toLowerCase (r_text r))); simpl; congruence.
Qed.

(** A prompt has been spoken (the question or the re-prompt): the next
    attempt listens for the severity's window. *)
Lemma step_prompt_spoken (sev : EmergencySeverity) (i : nat) (k : Cont) (n : nat)
      (r : Resp) (w : World) :
  checking sev w ->
  lookup_cont i (pending w) = Some k ->
  (k = K_em_asked /\ n = 1%nat) \/ (exists a, k = K_nr_reprompted a /\ n = (a + 1)%nat) ->
  let w' := step (E_resume i r) w in
  checking sev w'
  /\ lookup_cont (nextId w) (pending w') = Some (K_ev_listen n)
  /\ nextId w' = S (nextId w)
  /\ trace w' = A_listen (listen_window sev) :: trace w.
Proof.
  intros [Hs Hc Hv Hf] Hl Hk w'. subst w'.
  pose proof (committed_appStateRef w Hc) as Href.
  unfold step. rewrite (dispatch_resume i k r w Hl).
  assert (E : resume k r (set_pending (remove_cont i (pending w)) w)
              = listen (listen_window sev) (K_ev_listen n)
                  (set_isSpeaking false (set_pending (remove_cont i (pending w)) w))).
  { destruct Hk as [[-> ->]|[a [-> ->]]]; unfold resume, awaits_speech,
      performEmergencyVerification; cbn; rewrite Href, Hs, Hv; destruct sev; reflexivity. }
  rewrite E. clear E.
  rewrite commit_committed by exact Hc.
  repeat split; cbn; try assumption.
  - apply Forall_lt_app_new. now apply Forall_remove_cont.
  - apply lookup_cont_app_new. now apply Forall_remove_cont.
Qed.

Lemma AppState_beq_refl (a : AppState) : AppState_beq a a = true.
Proof. now destruct a. Qed.

Lemma option_eqb_refl {A : Type} (eqb : A -> A -> bool) (a : option A) :
  (forall x, eqb x x = true) -> option_eqb eqb a a = true.
Proof. intros H. destruct a; [apply H | reflexivity]. Qed.

Lemma option_eqb_eq {A : Type} (eqb : A -> A -> bool) (a b : option A) :
  (forall x y, eqb x y = true -> x = y) -> option_eqb eqb a b = true -> a = b.
Proof.
  intros H. destruct a, b; simpl; try discriminate; auto.
  intros E. now rewrite (H _ _ E).
Qed.

Lemma list_string_eqb_refl (l : list string) : list_string_eqb l l = true.
Proof. unfold list_string_eqb. now destruct (list_eq_dec string_dec l l). Qed.

Lemma list_string_eqb_eq (a b : list string) : list_string_eqb a b = true -> a = b.
Proof. unfold list_string_eqb. now destruct (list_eq_dec string_dec a b). Qed.

Lemma oplan_eqb_refl (p : option NavigationPlan) : oplan_eqb p p = true.
Proof.
  destruct p as [p|]; [|reflexivity]. unfold oplan_eqb, plan_eqb.
  rewrite !(option_eqb_refl String.eqb) by apply String.eqb_refl.
  now rewrite (option_eqb_refl list_string_eqb) by apply list_string_eqb_refl.
Qed.

(** The fields a render compares are untouched by the timer bookkeeping. *)
Lemma state_changed_clearNavTimer (w : World) :
  state_changed (clearNavTimer w) = state_changed w.
Proof. unfold clearNavTimer. now destruct (navTimerRef w). Qed.

Lemma state_changed_sync_refs (w : World) :
  appState w <> IDLE -> state_changed (sync_refs w w) = false.
Proof.
  intros H. unfold sync_refs, state_changed, deps_changed.
  destruct (appState w) eqn:E; try congruence; cbn; rewrite ?E;
    now rewrite ?AppState_beq_refl, ?Bool.eqb_reflx, ?oplan_eqb_refl, ?Nat.eqb_refl.
Qed.

(** Committing a mode that is neither IDLE nor one of the two walking modes
    only synchronises the refs and clears the navigation timer. *)
Lemma commit_inactive (now : Z) (w : World) :
  is_active (appState w) = false -> appState w <> IDLE ->
  let w' := commit now w in
  appState w' = appState w /\ trace w' = trace w /\ state_changed w' = false
  /\ isSpeaking w' = isSpeaking w /\ nextId w' = nextId w
  /\ isNavigating w' = isNavigating w
  /\ isWalkingFeatureActive w' = isWalkingFeatureActive w
  /\ navPlan w' = navPlan w.
Proof.
  intros Hact Hidle w'. subst w'.
  destruct (state_changed w) eqn:Hc.
  - assert (Hp : state_changed (render_pass now w) = false
                 /\ appState (render_pass now w) = appState w
                 /\ trace (render_pass now w) = trace w
                 /\ isSpeaking (render_pass now w) = isSpeaking w
                 /\ nextId (render_pass now w) = nextId w
                 /\ isNavigating (render_pass now w) = isNavigating w
                 /\ isWalkingFeatureActive (render_pass now w) = isWalkingFeatureActive w
                 /\ navPlan (render_pass now w) = navPlan w).
    { unfold render_pass. rewrite Hc.
      assert (Hsync : forall f : World -> World,
                 (forall x, f x = x) -> f (sync_refs w w) = sync_refs w w) by auto.
      destruct (deps_changed w).
      - unfold mode_effect. rewrite Hact.
        rewrite state_changed_clearNavTimer, state_changed_sync_refs by assumption.
        unfold clearNavTimer, sync_refs.
        destruct (appState w) eqn:E; try congruence; try discriminate;
          cbn; destruct (navTimerRef w); cbn; rewrite ?E; repeat split; reflexivity.
      - rewrite state_changed_sync_refs by assumption.
        unfold sync_refs.
        destruct (appState w) eqn:E; try congruence; try discriminate;
          cbn; rewrite ?E; repeat split; reflexivity. }
    destruct Hp as (Hp1 & Hp2 & Hp3 & Hp4 & Hp5 & Hp6 & Hp7 & Hp8).
    unfold commit. rewrite !(render_pass_committed now (render_pass now w) Hp1).
    repeat split; assumption.
  - rewrite commit_committed by assumption. repeat split; assumption.
Qed.

Lemma handleNoResponse_retry (a : nat) (w : World) :
  appStateRef w = EMERGENCY_CHECK ->
  (a < attempts_allowed (emergencySeverityRef w))%nat ->
  handleNoResponse a w = speak REPROMPT true (K_nr_reprompted a) w.
Proof.
  intros Hs Ha. unfold handleNoResponse. rewrite Hs.
  replace (Nat.ltb a _) with true; [reflexivity|].
  symmetry. apply Nat.ltb_lt. destruct (emergencySeverityRef w); exact Ha.
Qed.

Lemma handleNoResponse_escalate (a : nat) (w : World) :
  appStateRef w = EMERGENCY_CHECK ->
  (attempts_allowed (emergencySeverityRef w) <= a)%nat ->
  handleNoResponse a w = triggerEmergencyAction w.
Proof.
  intros Hs Ha. unfold handleNoResponse. rewrite Hs.
  replace (Nat.ltb a _) with false; [reflexivity|].
  symmetry. apply Nat.ltb_ge. destruct (emergencySeverityRef w); exact Ha.
Qed.

(** No usable reply and an attempt left: the re-prompt is spoken. *)
Lemma step_no_response_retry (sev : EmergencySeverity) (i a : nat) (r : Resp) (w : World) :
  checking sev w ->
  lookup_cont i (pending w) = Some (K_ev_listen a) ->
  no_response r = true ->
  (a < attempts_allowed sev)%nat ->
  let w' := step (E_resume i r) w in
  checking sev w'
  /\ lookup_cont (nextId w) (pending w') = Some (K_nr_reprompted a)
  /\ nextId w' = S (nextId w)
  /\ trace w' = A_speak REPROMPT true :: trace w.
Proof.
  intros [Hs Hc Hv Hf] Hl Hno Ha w'. subst w'.
  pose proof (committed_appStateRef w Hc) as Href.
  unfold step. rewrite (dispatch_resume i _ r w Hl).
  unfold resume, awaits_speech.
  rewrite (emergency_reply_no_response a r _ Hno).
  rewrite handleNoResponse_retry
    by (cbn [appStateRef emergencySeverityRef set_pending]; congruence).
  rewrite commit_committed by exact Hc.
  repeat split; cbn; try assumption.
  - apply Forall_lt_app_new. now apply Forall_remove_cont.
  - apply lookup_cont_app_new. now apply Forall_remove_cont.
Qed.

(** No usable reply and no attempt left: EMERGENCY_ACTING. *)
Lemma step_no_response_escalate (sev : EmergencySeverity) (i a : nat) (r : Resp) (w : World) :
  checking sev w ->
  lookup_cont i (pending w) = Some (K_ev_listen a) ->
  no_response r = true ->
  (attempts_allowed sev <= a)%nat ->
  let w' := step (E_resume i r) w in
  appState w' = EMERGENCY_ACTING
  /\ trace w' = A_speak HELP_CONTACTED true :: A_playSound snd_warning :: trace w.
Proof.
  intros [Hs Hc Hv Hf] Hl Hno Ha w'. subst w'.
  pose proof (committed_appStateRef w Hc) as Href.
  unfold step. rewrite (dispatch_resume i _ r w Hl).
  unfold resume, awaits_speech.
  rewrite (emergency_reply_no_response a r _ Hno).
  rewrite handleNoResponse_escalate
    by (cbn [appStateRef emergencySeverityRef set_pending]; congruence).
  match goal with |- context [commit ?n ?x] =>
    destruct (commit_inactive n x) as (H1 & H2 & _); [reflexivity | discriminate |]
  end.
  rewrite H1, H2. split; reflexivity.
Qed.

(** C4.  After the question "Are you okay?" has been spoken (continuation
    [K_em_asked] with handle [i]), replies that are silence, a listen error
    or ambiguous lead to EMERGENCY_ACTING after exactly one 20 s listen at
    severity high, and after exactly two 30 s listens at severity low or
    medium, the second one preceded by the spoken re-prompt. *)
Theorem verification_attempts (sev : EmergencySeverity) (i : nat)
        (r0 r1 r2 r3 : Resp) (w : World) :
  checking sev w ->
  lookup_cont i (pending w) = Some K_em_asked ->
  no_response r1 = true -> no_response r3 = true ->
  let n := nextId w in
  (sev = high ->
   let w' := run [E_resume i r0; E_resume n r1] w in
   appState w' = EMERGENCY_ACTING
   /\ trace w' = ([A_speak HELP_CONTACTED true; A_playSound snd_warning;
                   A_listen 20] ++ trace w)%list)
  /\ (sev <> high ->
      let w' := run [E_resume i r0; E_resume n r1; E_resume (S n) r2;
                     E_resume (S (S n)) r3] w in
      appState w' = EMERGENCY_ACTING
      /\ trace w' = ([A_speak HELP_CONTACTED true; A_playSound snd_warning;
                      A_listen 30; A_speak REPROMPT true; A_listen 30] ++ trace w)%list).
Proof.
  intros Hchk Hl Hr1 Hr3 n.
  destruct (step_prompt_spoken sev i K_em_asked 1 r0 w Hchk Hl (or_introl (conj eq_refl eq_refl)))
    as (Hc1 & Hl1 & Hn1 & Ht1).
  fold n in Hl1, Hn1.
  set (w1 := step (E_resume i r0) w) in *.
  split.
  - intros ->. intros w'. subst w'. simpl run. fold w1.
    destruct (step_no_response_escalate high n 1 r1 w1 Hc1 Hl1 Hr1) as (Ha & Ht);
      [simpl; lia|].
    rewrite Ha, Ht, Ht1. split; reflexivity.
  - intros Hsev w'. subst w'. simpl run. fold w1.
    destruct (step_no_response_retry sev n 1 r1 w1 Hc1 Hl1 Hr1) as (Hc2 & Hl2 & Hn2 & Ht2);
      [destruct sev; simpl; try lia; congruence|].
    rewrite Hn1 in Hl2, Hn2.
    set (w2 := step (E_resume n r1) w1) in *.
    destruct (step_prompt_spoken sev (S n) (K_nr_reprompted 1) 2 r2 w2 Hc2 Hl2)
      as (Hc3 & Hl3 & Hn3 & Ht3).
    { right. exists 1%nat. split; reflexivity. }
    rewrite Hn2 in Hl3, Hn3.
    set (w3 := step (E_resume (S n) r2) w2) in *.
    destruct (step_no_response_escalate sev (S (S n)) 2 r3 w3 Hc3 Hl3 Hr3) as (Ha & Ht);
      [destruct sev; simpl; lia|].
    rewrite Ha, Ht, Ht3, Ht2, Ht1.
    split; [reflexivity|]. destruct sev; try congruence; reflexivity.
Qed.

Lemma verification_attempts_witness :
  appState (run [E_resume 5 (resp0 5000); E_resume 6 (resp_error 36000 "no-speech");
                 E_resume 7 (resp0 40000); E_resume 8 (resp_text 71000 "umm what")]
                asked_world)
  = EMERGENCY_ACTING.
Proof.
  assert (Hchk : checking medium asked_world).
  { constructor; try reflexivity. unfold fresh. vm_compute. repeat constructor. }
  exact (proj1 (proj2 (verification_attempts medium 5 (resp0 5000)
           (resp_error 36000 "no-speech") (resp0 40000) (resp_text 71000 "umm what")
           asked_world Hchk eq_refl eq_refl eq_refl) ltac:(discriminate))).
Defined.

(** ** Perception loop: reactions to the analysed frame *)

(** The effects of entering the emergency check. *)
Lemma trace_triggerEmergencyCheck (sev : EmergencySeverity) (w : World) :
  trace (triggerEmergencyCheck sev w) =
  (A_speak ARE_YOU_OKAY true :: A_stopSpeaking ::
     (if abortControllerRef w then [A_abort] else []) ++ trace w)%list.
Proof.
  unfold triggerEmergencyCheck, clearNavTimer.
  destruct (abortControllerRef w); cbn; destruct (navTimerRef w); reflexivity.
Qed.

Lemma trace_wl_finally (w : World) :
  trace (wl_finally w) =
  ((if is_active (appStateRef w) then [A_setTimeout T_walking_loop 100] else [])
     ++ trace w)%list.
Proof.
  unfold wl_finally. cbn. destruct (appStateRef w); reflexivity.
Qed.

Lemma appStateRef_triggerEmergencyCheck (sev : EmergencySeverity) (w : World) :
  appStateRef (triggerEmergencyCheck sev w) = appStateRef w.
Proof.
  unfold triggerEmergencyCheck, clearNavTimer.
  destruct (abortControllerRef w); cbn; destruct (navTimerRef w); reflexivity.
Qed.

(** C3 does not hold as written: a hazard of category fall whose hazard_type is the
    empty string is not escalated; its message is spoken as an ordinary
    hazard and the mode stays WALKING. *)
Lemma fall_with_empty_type_not_escalated :
  lookup_cont 5 (pending analysis_world) = Some K_wl_analysis
  /\ appState (step (E_resume 5 (resp_hazard 3500 (Some untyped_fall))) analysis_world)
     = WALKING
  /\ emergencySeverityRef
       (step (E_resume 5 (resp_hazard 3500 (Some untyped_fall))) analysis_world) = low
  /\ trace (step (E_resume 5 (resp_hazard 3500 (Some untyped_fall))) analysis_world)
     = (A_speak "Watch out" true :: A_stopSpeaking :: trace analysis_world)%list.
Proof. repeat split. Qed.

(** C3, as the code has it.  When the analysis returns a hazard of category fall with a
    non-empty hazard_type, the cycle enters the emergency check at severity
    high and goes straight to its [finally]: the only utterance of the
    cycle is the question "Are you okay?", whatever the hazard's message. *)
Theorem fall_short_circuit (r : Resp) (h : WalkingHazard) (w : World) :
  r_ok r = true -> r_hazard r = Some h ->
  category h = c_fall -> hazard_type h <> "" ->
  let w' := resume K_wl_analysis r w in
  w' = wl_finally (triggerEmergencyCheck high w)
  /\ appState w' = EMERGENCY_CHECK
  /\ emergencySeverityRef w' = high
  /\ isAnalyzingFrameRef w' = false
  /\ trace w' =
     ((if is_active (appStateRef w) then [A_setTimeout T_walking_loop 100] else [])
        ++ A_speak ARE_YOU_OKAY true :: A_stopSpeaking
        :: (if abortControllerRef w then [A_abort] else []) ++ trace w)%list.
Proof.
  intros Hok Hh Hc Ht w'.
  assert (E : w' = wl_finally (triggerEmergencyCheck high w)).
  { subst w'. unfold resume, awaits_speech, wl_after_analysis, is_fall.
    rewrite Hok, Hh, Hc. unfold truthy.
    destruct (String.eqb_spec (hazard_type h) ""); [contradiction | reflexivity]. }
  split; [exact E|]. rewrite E.
  rewrite trace_wl_finally, trace_triggerEmergencyCheck, appStateRef_triggerEmergencyCheck.
  repeat split;
    unfold wl_finally, triggerEmergencyCheck, clearNavTimer;
    destruct (abortControllerRef w); cbn; destruct (navTimerRef w); cbn;
    destruct (appStateRef w); reflexivity.
Qed.

Lemma fall_short_circuit_witness :
  appState (resume K_wl_analysis (resp_hazard 3500 (Some typed_fall)) analysis_world)
  = EMERGENCY_CHECK.
Proof.
  exact (proj1 (proj2 (fall_short_circuit (resp_hazard 3500 (Some typed_fall)) typed_fall
           analysis_world eq_refl eq_refl eq_refl ltac:(discriminate)))).
Defined.

(** Splits a trace [a1 :: ... :: an :: t] as [[a1; ...; an] ++ t]. *)
Ltac new_actions :=
  lazymatch goal with
  | |- exists l, ?tr = (l ++ ?t)%list /\ _ =>
    let rec go x :=
      lazymatch x with
      | t => constr:(@nil Action)
      | ?a :: ?x' => let r := go x' in constr:(a :: r)
      end in
    let l := go tr in
    exists l; split; [reflexivity|]
  end.

(** C7 does not hold as written, in either direction: the loop reads the field
    hazard_type, not the category.  A hazard of category obstacle with
    hazard_type "none" and a message is not spoken; a hazard of category
    none with another hazard_type and a message is spoken with priority. *)
Lemma hazard_reaction_reads_hazard_type :
  trace (step (E_resume 5 (resp_hazard 3500 (Some mislabelled_obstacle))) analysis_world)
  = (A_setTimeout T_walking_loop 100 :: trace analysis_world)%list
  /\ trace (step (E_resume 5 (resp_hazard 3500 (Some uncategorised_pole))) analysis_world)
     = (A_speak "Pole ahead" true :: A_stopSpeaking :: trace analysis_world)%list.
Proof. split; reflexivity. Qed.

(** C7, as the code has it.  In a cycle that is not short-circuited by fall detection
    and whose mode is still WALKING or NAVIGATING when the analysis
    returns: a hazard whose hazard_type is not "none" and whose message is
    not empty makes the loop stop the current utterance and speak the
    message with priority, and when that utterance ends the companion timer
    is set to the current time; a null hazard, a hazard_type "none" or an
    empty message leads to no cancellation and no priority speech, and the
    companion timer moves only if a filler phrase is spoken. *)
Theorem hazard_reaction (r r' : Resp) (w : World) :
  r_ok r = true -> is_fall (r_hazard r) = false ->
  is_active (appStateRef w) = true ->
  let w' := resume K_wl_analysis r w in
  (forall h, r_hazard r = Some h -> hazard_type h <> "none" -> message h <> "" ->
     trace w' = (A_speak (message h) true :: A_stopSpeaking :: trace w)%list
     /\ pending w' = (pending w ++ [(nextId w, K_wl_hazard_spoken)])%list
     /\ lastCompanionMsgRef w' = lastCompanionMsgRef w
     /\ lastCompanionMsgRef (resume K_wl_hazard_spoken r' w') = r_now r')
  /\ ((r_hazard r = None
       \/ exists h, r_hazard r = Some h /\ (hazard_type h = "none" \/ message h = "")) ->
      (exists l, trace w' = (l ++ trace w)%list /\ forallb quiet l = true)
      /\ (lastCompanionMsgRef w' = lastCompanionMsgRef w
          \/ (isCompanionModeRef w = true /\ 15000 < r_now r - lastCompanionMsgRef w
              /\ lastCompanionMsgRef w' = r_now r))).
Proof.
  intros Hok Hfall Hact w'. subst w'.
  unfold resume, awaits_speech, wl_after_analysis. rewrite Hok, Hfall, Hact. cbn [negb].
  split.
  - intros h Hh Ht Hm.
    assert (Hreal : is_real_hazard (r_hazard r) = true).
    { rewrite Hh. unfold is_real_hazard, truthy.
      destruct (String.eqb_spec (hazard_type h) "none"); [contradiction|].
      destruct (String.eqb_spec (message h) ""); [contradiction | reflexivity]. }
    rewrite Hreal, Hh. cbn.
    repeat split. unfold wl_after_hazard_spoken, wl_finally. cbn.
    destruct (appStateRef w); reflexivity.
  - intros Hno.
    assert (Hreal : is_real_hazard (r_hazard r) = false).
    { destruct Hno as [->|[h [-> [Ht|Hm]]]]; [reflexivity| |]; unfold is_real_hazard.
      - now rewrite Ht.
      - rewrite Hm. apply andb_false_r. }
    rewrite Hreal.
    destruct (isCompanionModeRef w) eqn:Hcomp, (isSpeaking w) eqn:Hsp,
      (r_random_gt_095 r) eqn:Hrand; cbn [andb negb];
      try destruct (Z.ltb_spec 15000 (r_now r - lastCompanionMsgRef w));
      unfold wl_finally; cbn;
      destruct (appStateRef w) eqn:Href; try discriminate Hact; cbn;
      (split; [new_actions; reflexivity | auto]).
Qed.

Lemma hazard_reaction_witness :
  trace (resume K_wl_analysis (resp_hazard 3500 (Some uncategorised_pole)) analysis_world)
  = (A_speak "Pole ahead" true :: A_stopSpeaking :: trace analysis_world)%list.
Proof.
  exact (proj1 (proj1 (hazard_reaction (resp_hazard 3500 (Some uncategorised_pole))
           (resp0 5000) analysis_world eq_refl eq_refl eq_refl)
         uncategorised_pole eq_refl ltac:(discriminate) ltac:(discriminate))).
Defined.

(** ** Perception loop: frame capture *)

Lemma is_active_not_listening (s : AppState) :
  is_active s = true -> is_active s && negb (AppState_beq s LISTENING) = true.
Proof. now destruct s. Qed.

(** C9.  In a cycle of walking or navigating mode, a first capture that
    yields no frame is followed by a 100 ms delay and exactly one more
    capture; when that one yields no frame either, the cycle ends: the
    guard is released, the next cycle is scheduled after
    WALKING_LOOP_DELAY, nothing is spoken and the mode is unchanged.  A
    hazard analysis that fails (rejected, or null) is followed by no further
    capture or analysis request in that cycle. *)
Theorem capture_retried_once (i : nat) (r1 r2 r3 : Resp) (w : World) :
  state_changed w = false -> fresh w ->
  is_active (appState w) = true ->
  lookup_cont i (pending w) = Some K_wl_capture1 ->
  r_ok r1 = true -> no_frame (r_frame r1) = true ->
  r_ok r3 = true -> no_frame (r_frame r3) = true ->
  let n := nextId w in
  let w' := run [E_resume i r1; E_resume n r2; E_resume (S n) r3] w in
  trace w' = ([A_setTimeout T_walking_loop WALKING_LOOP_DELAY; A_capture true true;
               A_setTimeout K_wl_retry_delay 100] ++ trace w)%list
  /\ isAnalyzingFrameRef w' = false
  /\ lookup_cont (S (S n)) (pending w') = Some T_walking_loop
  /\ appState w' = appState w
  /\ (forall (r : Resp) (v : World),
        r_ok r = false \/ r_hazard r = None ->
        exists l, trace (resume K_wl_analysis r v) = (l ++ trace v)%list
                  /\ forallb (fun a => negb (requests_perception a)) l = true).
Proof.
  intros Hc Hf Hact Hl Hok1 Hno1 Hok3 Hno3 n w'.
  pose proof (committed_appStateRef w Hc) as Href.
  assert (Hf' : Forall (fun e => (fst e < n)%nat) (remove_cont i (pending w)))
    by now apply Forall_remove_cont.
  (* first capture fails: wait 100 ms *)
  assert (E1 : step (E_resume i r1) w =
               suspend K_wl_retry_delay (emit (A_setTimeout K_wl_retry_delay 100)
                 (set_pending (remove_cont i (pending w)) w))).
  { unfold step. rewrite (dispatch_resume i _ r1 w Hl).
    unfold resume, awaits_speech, wl_after_capture1. rewrite Hok1, Hno1. cbn [negb].
    now rewrite commit_committed. }
  set (w1 := step (E_resume i r1) w) in *.
  assert (Hl1 : lookup_cont n (pending w1) = Some K_wl_retry_delay).
  { rewrite E1. cbn. now apply lookup_cont_app_new. }
  (* the delay elapses: second capture *)
  assert (E2 : step (E_resume n r2) w1 =
               suspend K_wl_capture2 (emit (A_capture true true)
                 (set_pending (remove_cont n (pending w1)) w1))).
  { unfold step. rewrite (dispatch_resume n _ r2 w1 Hl1).
    unfold resume, awaits_speech, wl_after_retry_delay.
    rewrite commit_committed; [reflexivity | rewrite E1; exact Hc]. }
  set (w2 := step (E_resume n r2) w1) in *.
  assert (Hp1 : remove_cont n (pending w1) = remove_cont i (pending w)).
  { rewrite E1. cbn. unfold remove_cont at 1. rewrite filter_app. cbn.
    rewrite Nat.eqb_refl. cbn. rewrite app_nil_r.
    apply forallb_filter_id. apply forallb_forall. intros x Hx.
    rewrite Forall_forall in Hf'. specialize (Hf' x Hx).
    destruct (Nat.eqb_spec (fst x) n); [lia | reflexivity]. }
  assert (Hn1 : nextId w1 = S n) by (rewrite E1; reflexivity).
  assert (Hl2 : lookup_cont (S n) (pending w2) = Some K_wl_capture2).
  { rewrite E2. cbn. rewrite Hp1, Hn1. apply lookup_cont_app_new.
    now apply Forall_lt_S. }
  (* second capture fails: finally *)
  assert (E3 : w' = wl_finally (set_pending (remove_cont (S n) (pending w2)) w2)).
  { subst w'. cbn [run fold_left]. fold w1. fold w2.
    unfold step. rewrite (dispatch_resume (S n) _ r3 w2 Hl2).
    unfold resume, awaits_speech, wl_after_capture2. rewrite Hok3, Hno3. cbn [negb].
    rewrite commit_committed; [reflexivity|].
    unfold wl_finally. cbn [appStateRef set_isAnalyzingFrameRef set_pending].
    destruct (is_active (appStateRef w2) && negb (AppState_beq (appStateRef w2) LISTENING));
      rewrite E2, E1; exact Hc. }
  assert (Hp2 : remove_cont (S n) (pending w2) = remove_cont i (pending w)).
  { rewrite E2. cbn. rewrite Hp1, Hn1. unfold remove_cont at 1. rewrite filter_app. cbn.
    rewrite Nat.eqb_refl. cbn. rewrite app_nil_r.
    apply forallb_filter_id. apply forallb_forall. intros x Hx.
    rewrite Forall_forall in Hf'. specialize (Hf' x Hx).
    destruct (Nat.eqb_spec (fst x) (S n)); [lia | reflexivity]. }
  assert (Hr2 : appStateRef w2 = appState w) by (rewrite E2, E1; exact Href).
  assert (Hn2 : nextId w2 = S (S n)) by (rewrite E2; cbn; now rewrite Hn1).
  rewrite E3. unfold wl_finally.
  cbn [appStateRef set_isAnalyzingFrameRef set_pending].
  rewrite Hr2, (is_active_not_listening _ Hact).
  repeat split.
  - cbn. rewrite E2. cbn. rewrite E1. reflexivity.
  - cbn. rewrite Hp2, Hn2. apply lookup_cont_app_new. now apply Forall_lt_S, Forall_lt_S.
  - cbn. rewrite E2. cbn. rewrite E1. reflexivity.
  - intros r v [Hbad|Hnull]; unfold resume, awaits_speech, wl_after_analysis.
    + rewrite Hbad. cbn [negb]. unfold wl_finally. cbn.
      destruct (appStateRef v); cbn; new_actions; reflexivity.
    + rewrite Hnull. cbn [is_fall is_real_hazard].
      destruct (r_ok r), (isCompanionModeRef v), (isSpeaking v), (r_random_gt_095 r);
        cbn [andb negb];
        try destruct (Z.ltb_spec 15000 (r_now r - lastCompanionMsgRef v));
        unfold wl_finally; cbn;
        destruct (appStateRef v); cbn; new_actions; reflexivity.
Qed.

Lemma capture_retried_once_witness :
  isAnalyzingFrameRef
    (run [E_resume 4 (resp_frame 3100 None); E_resume 5 (resp0 3200);
          E_resume 6 (resp_frame 3300 None)] walking_world) = false.
Proof.
  assert (Hf : fresh walking_world) by (unfold fresh; vm_compute; repeat constructor).
  exact (proj1 (proj2 (capture_retried_once 4 (resp_frame 3100 None) (resp0 3200)
           (resp_frame 3300 None) walking_world eq_refl Hf eq_refl eq_refl
           eq_refl eq_refl eq_refl eq_refl))).
Defined.

(** ** Navigation narrator *)

Lemma oplan_eqb_eq (p q : option NavigationPlan) : oplan_eqb p q = true -> p = q.
Proof.
  destruct p as [[d s td tt]|], q as [[d' s' td' tt']|]; simpl; try discriminate; auto.
  unfold plan_eqb; simpl. intros H.
  apply andb_true_iff in H; destruct H as [H Htt].
  apply andb_true_iff in H; destruct H as [H Htd].
  apply andb_true_iff in H; destruct H as [Hd Hs].
  apply option_eqb_eq in Hd, Htd, Htt; try (intros x y; apply String.eqb_eq).
  apply option_eqb_eq in Hs; [|apply list_string_eqb_eq]. now subst.
Qed.

(** After a commit every ref holds the value of its state cell. *)
Lemma committed_refs (w : World) :
  state_changed w = false ->
  appStateRef w = appState w
  /\ isNavigatingRef w = isNavigating w
  /\ navPlanRef w = navPlan w
  /\ isWalkingFeatureActiveRef w = isWalkingFeatureActive w
  /\ isCompanionModeRef w = isCompanionMode w
  /\ stepIndexRef w = currentStepIndex w.
Proof.
  intros H. pose proof (committed_appStateRef w H) as Ha.
  unfold state_changed, deps_changed in H.
  repeat (apply orb_false_iff in H; destruct H as [H ?]).
  apply negb_false_iff in H. apply andb_true_iff in H; destruct H as [H Hp].
  apply andb_true_iff in H; destruct H as [_ Hn].
  repeat match goal with
         | X : negb _ = false |- _ => apply negb_false_iff in X
         end.
  repeat split; auto; symmetry.
  - now apply Bool.eqb_prop.
  - now apply oplan_eqb_eq.
  - now apply Bool.eqb_prop.
  - now apply Bool.eqb_prop.
  - now apply Nat.eqb_eq.
Qed.

Lemma tick_arrival (plan : NavigationPlan) (l : list string) (w : World) :
  narrating plan w -> steps plan = Some l -> (List.length l <= stepIndexRef w)%nat ->
  startNavigationLoop w =
  Returns
    (set_appState (if isWalkingFeatureActiveRef w then WALKING else IDLE)
       (set_navPlan None (set_isNavigating false (speak "You have arrived." false K_spoken w)))).
Proof.
  intros (Hp & Hn & Ha) Hl Hlen. unfold startNavigationLoop.
  rewrite Hp, Hn, Ha, Hl. cbn [negb orb AppState_beq].
  apply nth_error_None in Hlen. now rewrite Hlen.
Qed.

Lemma tick_busy (plan : NavigationPlan) (l : list string) (w : World) :
  narrating plan w -> steps plan = Some l -> (stepIndexRef w < List.length l)%nat ->
  isSpeaking w = true ->
  startNavigationLoop w = Returns (setNavTimer T_nav_retry 3000 w).
Proof.
  intros (Hp & Hn & Ha) Hl Hlen Hs. unfold startNavigationLoop.
  rewrite Hp, Hn, Ha, Hl, Hs. cbn [negb orb AppState_beq].
  destruct (nth_error l (stepIndexRef w)) eqn:E; [reflexivity|].
  apply nth_error_None in E. lia.
Qed.

Lemma tick_speak (plan : NavigationPlan) (l : list string) (stepText : string) (w : World) :
  narrating plan w -> steps plan = Some l ->
  nth_error l (stepIndexRef w) = Some stepText ->
  isSpeaking w = false ->
  startNavigationLoop w
  = Returns (speak stepText false K_nav_step_spoken (playSound snd_navigation w)).
Proof.
  intros (Hp & Hn & Ha) Hl Hnth Hs. unfold startNavigationLoop.
  now rewrite Hp, Hn, Ha, Hl, Hs, Hnth.
Qed.

Lemma tick_throws (plan : NavigationPlan) (w : World) :
  narrating plan w -> steps plan = None -> startNavigationLoop w = Throws TypeError w.
Proof.
  intros (Hp & Hn & Ha) Hl. unfold startNavigationLoop. now rewrite Hp, Hn, Ha, Hl.
Qed.

Lemma tick_idle (w : World) : navPlanRef w = None -> startNavigationLoop w = Returns w.
Proof. intros H. unfold startNavigationLoop. now rewrite H. Qed.

(** A render in which the loop-starting effect has nothing to do. *)
Lemma commit_refs_only (now : Z) (w : World) :
  state_changed w = true -> deps_changed w = false -> appState w <> IDLE ->
  commit now w = sync_refs w w.
Proof.
  intros Hs Hd Hi.
  assert (E : render_pass now w = sync_refs w w)
    by (unfold render_pass; now rewrite Hs, Hd).
  unfold commit. rewrite E.
  now rewrite !(render_pass_committed now _ (state_changed_sync_refs w Hi)).
Qed.

Lemma remove_cont_app_new (n : nat) (k : Cont) (l : list (nat * Cont)) :
  Forall (fun e => (fst e < n)%nat) l -> remove_cont n (l ++ [(n, k)]) = l.
Proof.
  intros H. unfold remove_cont. rewrite filter_app. cbn.
  rewrite Nat.eqb_refl. cbn. rewrite app_nil_r.
  apply forallb_filter_id. apply forallb_forall. intros x Hx.
  rewrite Forall_forall in H. specialize (H x Hx).
  destruct (Nat.eqb_spec (fst x) n); [lia | reflexivity].
Qed.

Lemma state_changed_index (w : World) :
  deps_changed w = false -> currentStepIndex w <> stepIndexRef w ->
  state_changed w = true.
Proof.
  intros Hd Hi. unfold state_changed.
  apply Nat.eqb_neq in Hi. rewrite Hi. apply orb_true_r.
Qed.

(** One round, for any plan and cursor: the timer that finds the cursor at
    [k] moves it to [k + 1] and announces step [k], the step under the not
    yet refreshed ref, which is the one whose announcement armed the timer;
    when the utterance ends the next 14 s timer is armed. *)
Lemma narrator_round (plan : NavigationPlan) (l : list string) (k i : nat) (s : string)
      (r r' : Resp) (w : World) :
  narrator_at plan k i w ->
  steps plan = Some l -> nth_error l k = Some s ->
  let n := nextId w in
  let w' := run [E_resume i r; E_resume n r'] w in
  narrator_at plan (S k) (S n) w'
  /\ nextId w' = S (S n)
  /\ isWalkingFeatureActive w' = isWalkingFeatureActive w
  /\ trace w' = ([A_setTimeout T_nav_advance 14000; A_speak s false;
                  A_playSound snd_navigation] ++ trace w)%list.
Proof.
  intros [Hc Hf Hp Hn Hm Hk Hs Hl] Hst Hnth n w'.
  destruct (committed_refs w Hc) as (Ra & Rn & Rp & Rw & Rc & Ri).
  assert (Hf' : Forall (fun e => (fst e < n)%nat) (remove_cont i (pending w)))
    by now apply Forall_remove_cont.
  set (w0 := set_pending (remove_cont i (pending w)) w).
  set (w1 := speak s false K_nav_step_spoken
               (playSound snd_navigation (set_currentStepIndex (S k) w0))).
  assert (D1 : dispatch (E_resume i r) w = w1).
  { rewrite (dispatch_resume i _ r w Hl). fold w0.
    unfold resume, awaits_speech, nav_advance.
    replace (isNavigatingRef w0) with true by (symmetry; cbn; congruence).
    replace (appStateRef w0) with NAVIGATING by (symmetry; cbn; congruence).
    cbn [andb AppState_beq].
    replace (currentStepIndex w0) with k by (symmetry; exact Hk).
    rewrite (tick_speak plan l s); [reflexivity | | exact Hst | | exact Hs].
    - repeat split; cbn; congruence.
    - cbn. rewrite Ri, Hk. exact Hnth. }
  assert (E1 : step (E_resume i r) w = sync_refs w1 w1).
  { assert (Hd : deps_changed w1 = false).
    { unfold deps_changed. cbn. rewrite Ra, Rn, Rp.
      now rewrite AppState_beq_refl, Bool.eqb_reflx, oplan_eqb_refl. }
    unfold step. rewrite D1. apply commit_refs_only.
    - apply state_changed_index; [exact Hd|]. cbn. rewrite Ri, Hk. lia.
    - exact Hd.
    - cbn. rewrite Hm. discriminate. }
  assert (S1 : sync_refs w1 w1 =
               set_stepIndexRef (S k) (set_navPlanRef (navPlan w)
                 (set_appStateRef (appState w) (set_isCompanionModeRef (isCompanionMode w)
                   (set_isNavigatingRef (isNavigating w)
                     (set_isWalkingFeatureActiveRef (isWalkingFeatureActive w) w1)))))).
  { unfold sync_refs. cbn [appState w1 speak suspend set_nextId set_pending set_isSpeaking
      emit set_trace playSound set_currentStepIndex w0].
    rewrite Hm. reflexivity. }
  set (w2 := step (E_resume i r) w) in *.
  assert (Hl2 : lookup_cont n (pending w2) = Some K_nav_step_spoken).
  { rewrite E1, S1. cbn. now apply lookup_cont_app_new. }
  assert (Hc2 : state_changed w2 = false).
  { rewrite E1. apply state_changed_sync_refs. cbn. rewrite Hm. discriminate. }
  assert (E2 : w' = setNavTimer T_nav_advance 14000
                      (set_isSpeaking false (set_pending (remove_cont n (pending w2)) w2))).
  { subst w'. cbn [run fold_left]. fold w2.
    unfold step. rewrite (dispatch_resume n _ r' w2 Hl2).
    unfold resume, awaits_speech, nav_step_spoken.
    replace (appStateRef _) with NAVIGATING
      by (symmetry; rewrite E1, S1; cbn; exact Hm).
    cbn [negb AppState_beq].
    rewrite commit_committed; [reflexivity | exact Hc2]. }
  assert (Hp2 : remove_cont n (pending w2) = remove_cont i (pending w)).
  { rewrite E1, S1. cbn. now apply remove_cont_app_new. }
  assert (Hn2 : nextId w2 = S n) by (rewrite E1, S1; reflexivity).
  rewrite E2. unfold setNavTimer, setTimeout, suspend, emit.
  cbn [set_navTimerRef set_nextId set_pending set_trace set_isSpeaking
       nextId pending trace state_changed].
  rewrite Hp2, Hn2.
  repeat split.
  - exact Hc2.
  - unfold fresh. cbn. now apply Forall_lt_app_new, Forall_lt_S.
  - cbn. rewrite E1, S1. cbn. exact Hp.
  - cbn. rewrite E1, S1. cbn. exact Hn.
  - cbn. rewrite E1, S1. cbn. exact Hm.
  - cbn. rewrite E1, S1. reflexivity.
  - cbn. apply lookup_cont_app_new. now apply Forall_lt_S.
  - cbn. rewrite E1, S1. reflexivity.
  - cbn. rewrite E1, S1. reflexivity.
Qed.

Ltac refl_eqbs :=
  rewrite ?AppState_beq_refl, ?Bool.eqb_reflx, ?oplan_eqb_refl, ?Nat.eqb_refl.

(** A commit without a plan settles in one render: it may start a
    perception cycle or clear the timer, and says nothing. *)
Lemma commit_no_plan (now : Z) (w : World) :
  navPlan w = None ->
  (appState w = IDLE -> isNavigating w = false /\ isWalkingFeatureActive w = false) ->
  let w' := commit now w in
  navPlan w' = None /\ isNavigating w' = isNavigating w /\ appState w' = appState w
  /\ isWalkingFeatureActive w' = isWalkingFeatureActive w
  /\ exists l, trace w' = (l ++ trace w)%list
               /\ forallb (fun a => negb (speaks a)) l = true.
Proof.
  intros Hp Hidle w'. subst w'.
  destruct (state_changed w) eqn:Hc.
  2:{ rewrite commit_committed by exact Hc.
      repeat split; auto. exists []. split; reflexivity. }
  assert (H1 : state_changed (render_pass now w) = false
               /\ navPlan (render_pass now w) = None
               /\ isNavigating (render_pass now w) = isNavigating w
               /\ appState (render_pass now w) = appState w
               /\ isWalkingFeatureActive (render_pass now w) = isWalkingFeatureActive w
               /\ exists l, trace (render_pass now w) = (l ++ trace w)%list
                            /\ forallb (fun a => negb (speaks a)) l = true).
  { unfold render_pass. rewrite Hc.
    unfold mode_effect, sync_refs, runWalkingLoop, clearNavTimer, clearTimeout.
    rewrite Hp.
    destruct (appState w) eqn:Ha;
      try (destruct (Hidle eq_refl) as [Hi1 Hi2]; rewrite Hi1, Hi2);
      destruct (deps_changed w); cbn;
      destruct (isAnalyzingFrameRef w); cbn;
      destruct (isWalkingFeatureActive w) eqn:Hw; cbn;
      destruct (isNavigating w) eqn:Hn; cbn;
      destruct (navTimerRef w); cbn;
      unfold state_changed, deps_changed; cbn; rewrite ?Ha, ?Hp, ?Hw, ?Hn; cbn;
      refl_eqbs; cbn;
      repeat split; try reflexivity; try congruence;
      try (new_actions; reflexivity). }
  destruct H1 as (H1 & H2 & H3 & H4 & H5 & H6).
  unfold commit. rewrite !(render_pass_committed now _ H1).
  repeat split; assumption.
Qed.

(** The arrival is announced by the timer that finds the cursor at the
    number of steps or beyond. *)
Lemma narrator_arrival (plan : NavigationPlan) (l : list string) (k i : nat) (r : Resp)
      (w : World) :
  narrator_at plan k i w ->
  steps plan = Some l -> (List.length l <= k)%nat ->
  let w' := step (E_resume i r) w in
  navPlan w' = None /\ isNavigating w' = false
  /\ appState w' = (if isWalkingFeatureActive w then WALKING else IDLE)
  /\ exists t, trace w' = (t ++ A_speak ARRIVED false :: trace w)%list
               /\ forallb (fun a => negb (speaks a)) t = true.
Proof.
  intros [Hc Hf Hp Hn Hm Hk Hs Hl] Hst Hlen w'.
  destruct (committed_refs w Hc) as (Ra & Rn & Rp & Rw & Rc & Ri).
  set (w0 := set_pending (remove_cont i (pending w)) w).
  set (w1 := set_appState (if isWalkingFeatureActive w then WALKING else IDLE)
               (set_navPlan None (set_isNavigating false
                  (speak ARRIVED false K_spoken (set_currentStepIndex (S k) w0))))).
  assert (D1 : dispatch (E_resume i r) w = w1).
  { rewrite (dispatch_resume i _ r w Hl). fold w0.
    unfold resume, awaits_speech, nav_advance.
    replace (isNavigatingRef w0) with true by (symmetry; cbn; congruence).
    replace (appStateRef w0) with NAVIGATING by (symmetry; cbn; congruence).
    cbn [andb AppState_beq].
    replace (currentStepIndex w0) with k by (symmetry; exact Hk).
    rewrite (tick_arrival plan l); [| | exact Hst |].
    - unfold w1. cbn. now rewrite Rw.
    - repeat split; cbn; congruence.
    - cbn. rewrite Ri, Hk. exact Hlen. }
  subst w'. unfold step. rewrite D1.
  destruct (commit_no_plan (r_now r) w1) as (H1 & H2 & H3 & H4 & t & H5 & H6).
  - reflexivity.
  - unfold w1. cbn. destruct (isWalkingFeatureActive w); [discriminate | auto].
  - repeat split; try assumption.
    exists t. split; [exact H5 | exact H6].
Qed.

Lemma skipn_nth_error {A : Type} (l : list A) (k : nat) (x : A) :
  nth_error l k = Some x -> skipn k l = x :: skipn (S k) l.
Proof.
  revert k; induction l as [|a l IH]; intros [|k]; simpl; try discriminate.
  - now intros [= ->].
  - intros H. now rewrite (IH k H).
Qed.

Lemma run_two (a b : Event) (es : list Event) (w : World) :
  run (a :: b :: es) w = run es (run [a; b] w).
Proof. reflexivity. Qed.

(** Ticking through the rest of the plan reaches arrival: the timer that
    finds the cursor at [k] announces step [k] once more and moves the
    cursor to [k + 1], so that the arrival is announced by the timer that
    finds the cursor at the number of steps and leaves it one above. *)
Lemma narrator_reaches_arrival (plan : NavigationPlan) (l : list string) (r : Resp) (m : nat) :
  steps plan = Some l ->
  forall (k i : nat) (w : World),
    narrator_at plan k i w ->
    (k + m = List.length l)%nat ->
    let w' := run (narrator_events m i (nextId w) r) w in
    navPlan w' = None /\ isNavigating w' = false
    /\ appState w' = (if isWalkingFeatureActive w then WALKING else IDLE)
    /\ exists t, trace w' = (t ++ trace w)%list
                 /\ In (A_speak ARRIVED false) t
                 /\ forall s, In s (skipn k l) -> In (A_speak s false) t.
Proof.
  intros Hst. induction m as [|m IH]; intros k i w Hna Hlen w'; subst w'.
  - cbn [narrator_events run fold_left].
    destruct (narrator_arrival plan l k i r w Hna Hst) as (H1 & H2 & H3 & t & H4 & _); [lia|].
    repeat split; try assumption.
    exists (t ++ [A_speak ARRIVED false])%list. split; [|split].
    + rewrite H4, <- app_assoc. reflexivity.
    + apply in_or_app. right. now left.
    + rewrite skipn_all2 by lia. intros s [].
  - destruct (nth_error l k) as [s|] eqn:Hnth.
    2:{ apply nth_error_None in Hnth. lia. }
    destruct (narrator_round plan l k i s r r w Hna Hst Hnth) as (Hna' & Hn' & Hw' & Ht').
    cbn [narrator_events].
    rewrite run_two.
    set (w2 := run [E_resume i r; E_resume (nextId w) r] w) in *.
    rewrite <- Hn'.
    destruct (IH (S k) (S (nextId w)) w2 Hna') as (H1 & H2 & H3 & t & H4 & H5 & H6); [lia|].
    repeat split; try assumption.
    + now rewrite H3, Hw'.
    + exists (t ++ [A_setTimeout T_nav_advance 14000; A_speak s false;
                    A_playSound snd_navigation])%list.
      split; [|split].
      * rewrite H4, Ht', <- app_assoc. reflexivity.
      * apply in_or_app. now left.
      * rewrite (skipn_nth_error _ _ _ Hnth). intros s' [<-|Hin].
        -- apply in_or_app. right. right. now left.
        -- apply in_or_app. left. now apply H6.
Qed.

(** Stop-navigation: the classification STOP_NAVIGATION arrives for the
    current interaction. *)
Lemma stop_navigation_clears_plan (i : nat) (cid : Z) (r : Resp) (w : World) :
  lookup_cont i (pending w) = Some (K_pc_classify cid) ->
  interactionIdRef w = cid ->
  appState w = PROCESSING_INTENT ->
  r_ok r = true -> type (r_intent r) = STOP_NAVIGATION ->
  let w' := step (E_resume i r) w in
  navPlan w' = None /\ isNavigating w' = false
  /\ trace w' = A_speak "Navigation stopped." false :: trace w
  /\ navPlanRef w' = None
  /\ startNavigationLoop w' = Returns w'.
Proof.
  intros Hl Hid Ha Hok Hty w'. subst w'.
  unfold step. rewrite (dispatch_resume i _ r w Hl).
  unfold resume, awaits_speech, pc_after_classify, is_current.
  cbn [interactionIdRef set_pending]. rewrite Hok, Hid, Z.eqb_refl, Hty. cbn [negb].
  match goal with |- context [commit ?n ?x] =>
    destruct (commit_inactive n x) as (H1 & H2 & H3 & _ & _ & H6 & _ & H8);
      [cbn; now rewrite Ha | cbn; rewrite Ha; discriminate |];
    set (w' := commit n x) in *
  end.
  assert (Hp : navPlan w' = None) by (rewrite H8; reflexivity).
  assert (Hr : navPlanRef w' = None).
  { destruct (committed_refs w' H3) as (_ & _ & Rp & _). now rewrite Rp. }
  split; [exact Hp|]. split; [rewrite H6; reflexivity|].
  split; [rewrite H2; reflexivity|]. split; [exact Hr|].
  now apply tick_idle.
Qed.

(** A plan with an empty steps array is accepted: the route is announced
    as found, navigation starts, and the first tick announces arrival at
    once. *)
Lemma plan_without_steps_accepted :
  lookup_cont 5 (pending (run (firstn 4 (navigate_events (Some empty_plan))) (initial 0)))
  = Some (K_pc_directions 1000)
  /\ navPlan (dispatch (E_resume 5 (resp_plan 1800 (Some empty_plan)))
               (run (firstn 4 (navigate_events (Some empty_plan))) (initial 0)))
     = Some empty_plan
  /\ steps empty_plan = Some []
  /\ trace (run (navigate_events (Some empty_plan)) (initial 0))
     = (A_speak ARRIVED false :: A_capture true true
        :: A_speak "Route found. 5 min. Starting navigation." false
        :: trace (run (firstn 4 (navigate_events (Some empty_plan))) (initial 0)))%list.
Proof. repeat (refine (conj _ _); [vm_compute; reflexivity|]). vm_compute; reflexivity. Qed.

(** So is the plan parsed from an empty reply, which has no steps field:
    the route is announced as found, and the effect that starts the
    narrator throws at [steps.length], which unmounts the component. *)
Lemma plan_without_steps_field_unmounts :
  navPlan (dispatch (E_resume 5 (resp_plan 1800 (Some bare_plan)))
             (run (firstn 4 (navigate_events (Some bare_plan))) (initial 0)))
  = Some bare_plan
  /\ startNavigationLoop (run (navigate_events (Some bare_plan)) (initial 0))
     = Throws TypeError (run (navigate_events (Some bare_plan)) (initial 0))
  /\ trace (run (navigate_events (Some bare_plan)) (initial 0))
     = (A_unmount TypeError :: A_capture true true
        :: A_speak "Route found. undefined. Starting navigation." false
        :: trace (run (firstn 4 (navigate_events (Some bare_plan))) (initial 0)))%list.
Proof. repeat (refine (conj _ _); [vm_compute; reflexivity|]). vm_compute; reflexivity. Qed.

(** C8.  The narrator runs one step behind the cursor.  The 14 s timer
    advances [currentStepIndex] and calls [startNavigationLoop] at once,
    which reads [stepIndexRef], refreshed only by the next render.  With a
    plan of two steps, after the first announcement of "Turn left." (cursor
    0): the first timer moves the cursor to 1 and announces "Turn left."
    again; the second moves it to 2, the number of steps, and announces
    "Walk ahead." with the plan kept and no arrival; the third moves it to 3
    and only then announces the arrival and clears the plan. *)
Theorem arrival_one_tick_late :
  steps two_step_plan = Some ["Turn left."; "Walk ahead."]
  /\ currentStepIndex narrator_world = 0%nat
  /\ spoken narrator_world
     = ["SightMate ready. Press to speak."; "Calculating walking route to park.";
        "Route found. 5 min. Starting navigation."; "Turn left."]
  /\ currentStepIndex (run first_timer narrator_world) = 1%nat
  /\ spoken (run first_timer narrator_world)
     = (spoken narrator_world ++ ["Turn left."])%list
  /\ currentStepIndex (run (first_timer ++ second_timer) narrator_world) = 2%nat
  /\ spoken (run (first_timer ++ second_timer) narrator_world)
     = (spoken narrator_world ++ ["Turn left."; "Walk ahead."])%list
  /\ navPlan (run (first_timer ++ second_timer) narrator_world) = Some two_step_plan
  /\ isNavigating (run (first_timer ++ second_timer) narrator_world) = true
  /\ appState (run (first_timer ++ second_timer) narrator_world) = NAVIGATING
  /\ currentStepIndex (run (first_timer ++ second_timer ++ third_timer) narrator_world)
     = 3%nat
  /\ spoken (run (first_timer ++ second_timer ++ third_timer) narrator_world)
     = (spoken narrator_world ++ ["Turn left."; "Walk ahead."; ARRIVED])%list
  /\ navPlan (run (first_timer ++ second_timer ++ third_timer) narrator_world) = None
  /\ isNavigating (run (first_timer ++ second_timer ++ third_timer) narrator_world) = false.
Proof. repeat (refine (conj _ _); [vm_compute; reflexivity|]). vm_compute; reflexivity. Qed.


(** ** Toggles: Navigating and walkingActive *)

(** Case analysis on every test the goal still branches on. *)
Ltac break_tests :=
  repeat match goal with
         | |- context [if ?b then _ else _] => destruct b eqn:?
         | |- context [match ?x with _ => _ end] => destruct x eqn:?
         end.

(** The same, innermost tests first. *)
Ltac break_inner :=
  repeat match goal with
         | |- context [if ?b then _ else _] =>
           lazymatch b with
           | context [if _ then _ else _] => fail
           | context [match _ with _ => _ end] => fail
           | _ => destruct b eqn:?; cbv beta iota
           end
         | |- context [match ?x with _ => _ end] =>
           lazymatch x with
           | context [if _ then _ else _] => fail
           | context [match _ with _ => _ end] => fail
           | _ => destruct x eqn:?; cbv beta iota
           end
         end.

Lemma toggles_kept_refl (w : World) : toggles_kept w w.
Proof. split; auto. Qed.

Lemma toggles_kept_trans (a b c : World) :
  toggles_kept a b -> toggles_kept b c -> toggles_kept a c.
Proof.
  intros [H1 H2] [H3 H4]. split; [congruence|].
  destruct H4 as [H4|H4]; [rewrite H4; exact H2 | now right].
Qed.

Lemma toggles_in_timer (w : World) : toggles_kept w (in_timer (startNavigationLoop w)).
Proof.
  unfold in_timer, startNavigationLoop, setNavTimer, toggles_kept.
  break_inner; cbn; auto.
Qed.

Lemma toggles_in_effect (w : World) : toggles_kept w (in_effect (startNavigationLoop w)).
Proof.
  unfold in_effect, startNavigationLoop, setNavTimer, toggles_kept.
  break_inner; cbn; auto.
Qed.

Lemma toggles_runWalkingLoop (now : Z) (w : World) :
  toggles_kept w (runWalkingLoop now w).
Proof.
  unfold runWalkingLoop, toggles_kept. cbn.
  break_tests; cbn; auto.
Qed.

Lemma toggles_clearNavTimer (w : World) : toggles_kept w (clearNavTimer w).
Proof. unfold clearNavTimer, toggles_kept. break_tests; cbn; auto. Qed.

Lemma toggles_sync_refs (w : World) : toggles_kept w (sync_refs w w).
Proof. unfold sync_refs, toggles_kept. break_tests; cbn; auto. Qed.

Lemma toggles_mode_effect (now : Z) (snap w : World) :
  toggles_kept w (mode_effect now snap w).
Proof.
  unfold mode_effect.
  destruct (is_active (appState snap)); [|apply toggles_clearNavTimer].
  assert (H : toggles_kept w (if negb (isAnalyzingFrameRef w) then runWalkingLoop now w else w))
    by (destruct (negb (isAnalyzingFrameRef w));
        [apply toggles_runWalkingLoop | apply toggles_kept_refl]).
  destruct (navPlan snap); [|exact H].
  destruct (isNavigating snap); [|exact H].
  eapply toggles_kept_trans; [exact H|].
  eapply toggles_kept_trans; [apply toggles_clearNavTimer | apply toggles_in_effect].
Qed.

Lemma toggles_render_pass (now : Z) (w : World) : toggles_kept w (render_pass now w).
Proof.
  unfold render_pass.
  destruct (state_changed w); [|apply toggles_kept_refl].
  destruct (deps_changed w); [|apply toggles_sync_refs].
  eapply toggles_kept_trans; [apply toggles_sync_refs | apply toggles_mode_effect].
Qed.

Lemma toggles_commit (now : Z) (w : World) : toggles_kept w (commit now w).
Proof.
  unfold commit.
  do 3 (eapply toggles_kept_trans; [|apply (toggles_render_pass now)]).
  apply toggles_render_pass.
Qed.

Lemma toggles_ok_kept (w w' : World) : toggles_ok w -> toggles_kept w w' -> toggles_ok w'.
Proof.
  unfold toggles_ok. intros H [Hw [Hn|Hn]] Hn'; rewrite Hw; [apply H|]; congruence.
Qed.

Ltac unfold_segments :=
  unfold hb_after_listen, processCommand, pc_after_classify, pc_after_companion_on,
    pc_after_geolocate, pc_after_directions, pc_after_stop_navigation, pc_after_locate,
    pc_after_settle, pc_after_capture, pc_after_analysis, pc_begin_capture, pc_catch,
    wl_after_capture1, wl_after_retry_delay, wl_after_capture2, wl_after_analysis,
    wl_after_hazard_spoken, wl_request_hazard, wl_finally,
    performEmergencyVerification, emergency_reply, handleNoResponse,
    triggerEmergencyAction, triggerEmergencyCheck, nav_step_spoken, nav_advance,
    handleError, restoreState, clearNavTimer, setNavTimer, setTimeout, listen, speak,
    stopSpeaking, playSound, suspend, emit.

Lemma IntentType_beq_eq (a b : IntentType) : IntentType_beq a b = true <-> a = b.
Proof. destruct a, b; simpl; split; congruence. Qed.

Lemma toggles_resume (k : Cont) (r : Resp) (w : World) :
  walking_off k r w = false ->
  toggles_kept w (resume k r w) \/ isWalkingFeatureActive (resume k r w) = true.
Proof.
  intros Hoff.
  destruct k; cbn [resume awaits_speech];
    try (left; apply toggles_in_timer);
    try (left; apply toggles_runWalkingLoop);
    try (left; apply toggles_kept_refl).
  all: try (left; unfold_segments; unfold toggles_kept; cbn;
            break_tests; cbn; auto; fail).
  - (* K_pc_classify *)
    unfold walking_off in Hoff. unfold pc_after_classify, pc_catch, pc_begin_capture.
    cbn [negb].
    destruct (r_ok r); cbn [negb andb] in *.
    2:{ left. unfold_segments. unfold toggles_kept. break_tests; cbn; auto. }
    destruct (is_current commandId w); cbn [negb andb] in *; [|left; apply toggles_kept_refl].
    destruct (type (r_intent r)); try discriminate Hoff;
      try (left; unfold_segments; unfold toggles_kept; cbn; break_tests; cbn; auto; fail).
    right. reflexivity.
  - (* K_pc_companion_on *)
    unfold pc_after_companion_on, restoreState. cbn.
    destruct (isWalkingFeatureActiveRef w); cbn; [left | right; reflexivity].
    unfold toggles_kept. break_tests; cbn; auto.
  - (* K_pc_directions *)
    unfold pc_after_directions, pc_catch.
    destruct (r_ok r); cbn [negb].
    2:{ left. unfold_segments. unfold toggles_kept. break_tests; cbn; auto. }
    destruct (is_current commandId w); cbn [negb]; [|left; apply toggles_kept_refl].
    destruct (r_plan r); [right; reflexivity|].
    left. unfold_segments. unfold toggles_kept. break_tests; cbn; auto.
  - (* T_nav_advance *)
    left. unfold nav_advance.
    destruct (isNavigatingRef w && AppState_beq (appStateRef w) NAVIGATING);
      [|apply toggles_kept_refl].
    eapply toggles_kept_trans; [|apply toggles_in_timer].
    split; cbn; auto.
Qed.

Lemma toggles_resume_walking_off (k : Cont) (r : Resp) (w : World) :
  walking_off k r w = true ->
  isWalkingFeatureActive (resume k r w) = false
  /\ isNavigating (resume k r w) = isNavigating w.
Proof.
  destruct k; try discriminate. unfold walking_off. intros H.
  apply andb_true_iff in H; destruct H as [H Hty].
  apply andb_true_iff in H; destruct H as [Hok Hcur].
  apply IntentType_beq_eq in Hty.
  cbn [resume awaits_speech]. unfold pc_after_classify.
  rewrite Hok, Hcur, Hty. split; reflexivity.
Qed.

Lemma toggles_handleButtonPress (now : Z) (w : World) :
  toggles_kept w (handleButtonPress now w).
Proof.
  unfold handleButtonPress. unfold_segments. unfold toggles_kept.
  break_tests; cbn; auto.
Qed.

Lemma toggles_watchdog (now : Z) (w : World) : toggles_kept w (watchdog now w).
Proof.
  unfold watchdog.
  destruct (is_active (appStateRef w) && (2000 <? now - lastLoopTimeRef w));
    [|apply toggles_kept_refl].
  eapply toggles_kept_trans with (b := runWalkingLoop now (set_isAnalyzingFrameRef false w)).
  - eapply toggles_kept_trans; [|apply toggles_runWalkingLoop]. split; cbn; auto.
  - split; cbn; auto.
Qed.

Lemma toggles_handleDistress (sev : EmergencySeverity) (w : World) :
  toggles_kept w (handleDistress sev w).
Proof.
  unfold handleDistress. unfold_segments. unfold toggles_kept.
  break_tests; cbn; auto.
Qed.

Lemma toggles_dispatch (e : Event) (w : World) :
  walking_off_event e w = false ->
  toggles_kept w (dispatch e w) \/ isWalkingFeatureActive (dispatch e w) = true.
Proof.
  destruct e as [now|id r|now|sev now]; cbn [dispatch walking_off_event].
  - intros _. left. apply toggles_handleButtonPress.
  - destruct (lookup_cont id (pending w)) as [k|]; [|intros _; left; apply toggles_kept_refl].
    intros H. destruct (toggles_resume k r _ H) as [[H1 H2]|H1]; [left | now right].
    split; assumption.
  - intros _. left. apply toggles_watchdog.
  - intros _. left. apply toggles_handleDistress.
Qed.

Lemma toggles_ok_step (e : Event) (w : World) :
  toggles_ok w ->
  walking_off_event e w = false \/ isNavigating w = false ->
  toggles_ok (step e w).
Proof.
  intros Hinv Hcond. unfold step.
  destruct (walking_off_event e w) eqn:Hoff.
  - destruct Hcond as [Hc|Hnav]; [discriminate|].
    destruct e as [now|id r|now|sev now]; try discriminate.
    cbn [walking_off_event] in Hoff. cbn [dispatch event_now].
    destruct (lookup_cont id (pending w)) as [k|]; [|discriminate].
    destruct (toggles_resume_walking_off k r _ Hoff) as [_ Hn].
    cbn [isNavigating set_pending] in Hn. rewrite Hnav in Hn.
    destruct (toggles_commit (r_now r)
                (resume k r (set_pending (remove_cont id (pending w)) w))) as [_ Hn'].
    intros Habs. destruct Hn' as [Hn'|Hn']; congruence.
  - destruct (toggles_dispatch e w Hoff) as [Hk|Hw].
    + eapply toggles_ok_kept; [|apply toggles_commit].
      eapply toggles_ok_kept; [exact Hinv | exact Hk].
    + destruct (toggles_commit (event_now e) (dispatch e w)) as [Hw' _].
      intros _. now rewrite Hw', Hw.
Qed.

Lemma toggles_ok_run (es : list Event) :
  forall w, toggles_ok w -> keeps_walking es w -> toggles_ok (run es w).
Proof.
  induction es as [|e es IH]; intros w Hinv Hk; [exact Hinv|].
  destruct Hk as [He Hk]. cbn [run fold_left]. apply IH; [|exact Hk].
  now apply toggles_ok_step.
Qed.

(** C2 does not hold as written: the WALKING_MODE_OFF branch clears the walking
    toggle and leaves the navigating toggle set; state inference then
    returns the mode to NAVIGATING. *)
Lemma navigating_without_walking :
  isNavigating (run walking_off_while_navigating (initial 0)) = true
  /\ isWalkingFeatureActive (run walking_off_while_navigating (initial 0)) = false
  /\ appState (run walking_off_while_navigating (initial 0)) = NAVIGATING.
Proof. repeat (refine (conj _ _); [vm_compute; reflexivity|]). vm_compute; reflexivity. Qed.

(** C2, as the code has it.  Navigating implies walkingActive is preserved by every
    event except the delivery of WALKING_MODE_OFF while navigating, hence
    it holds in every state reached from mount without such a delivery; a
    successful NAVIGATE sets both toggles; WALKING_MODE_OFF clears the
    walking toggle and leaves the navigating toggle as it is. *)
Theorem navigating_implies_walking :
  (forall e w, toggles_ok w ->
     walking_off_event e w = false \/ isNavigating w = false ->
     toggles_ok (step e w))
  /\ (forall t0 es, keeps_walking es (initial t0) -> toggles_ok (run es (initial t0)))
  /\ (forall cid r w plan, r_ok r = true -> interactionIdRef w = cid ->
        r_plan r = Some plan ->
        isNavigating (resume (K_pc_directions cid) r w) = true
        /\ isWalkingFeatureActive (resume (K_pc_directions cid) r w) = true)
  /\ (forall cid r w, r_ok r = true -> interactionIdRef w = cid ->
        type (r_intent r) = WALKING_MODE_OFF ->
        isWalkingFeatureActive (resume (K_pc_classify cid) r w) = false
        /\ isNavigating (resume (K_pc_classify cid) r w) = isNavigating w).
Proof.
  split; [exact toggles_ok_step|]. split; [|split].
  - intros t0 es. apply toggles_ok_run. intros H. discriminate H.
  - intros cid r w plan Hok Hid Hp. cbn [resume awaits_speech].
    unfold pc_after_directions, is_current. rewrite Hok, Hid, Z.eqb_refl, Hp.
    split; reflexivity.
  - intros cid r w Hok Hid Hty. cbn [resume awaits_speech].
    unfold pc_after_classify, is_current. rewrite Hok, Hid, Z.eqb_refl, Hty.
    split; reflexivity.
Qed.

Lemma navigating_implies_walking_witness :
  toggles_ok (run (navigate_events (Some two_step_plan)) (initial 0)).
Proof.
  apply (proj1 (proj2 navigating_implies_walking) 0).
  repeat (refine (conj _ _); [left; vm_compute; reflexivity|]). exact I.
Defined.

(** ** Superseded interactions *)

(** After those suspension points a superseded interaction changes nothing,
    whatever the awaited call returned. *)
Lemma stale_result_discarded (k : Cont) (cid : Z) (r : Resp) (w : World) :
  rechecked k cid = true -> interactionIdRef w <> cid -> resume k r w = w.
Proof.
  intros Hk Hid. apply Z.eqb_neq in Hid.
  destruct k; try discriminate; cbn [rechecked] in Hk; apply Z.eqb_eq in Hk; subst;
    cbn [resume awaits_speech];
    unfold hb_after_listen, pc_after_classify, pc_after_geolocate, pc_after_directions,
      pc_after_settle, pc_after_analysis, pc_catch, is_current;
    rewrite Hid; cbn [negb];
    destruct (r_ok r); cbn [negb]; try reflexivity;
    destruct (String.eqb (r_error r) "Aborted"); reflexivity.
Qed.

(** C1.  The pipeline does not re-check its interaction id after an awaited
    utterance or after the awaited frame capture.  Interaction 1000 is
    superseded by interaction 2000 (resp. 2100), which is listening; when
    the utterance (resp. capture) of interaction 1000 completes, the
    superseded pipeline switches the walking toggle on and the mode to
    WALKING (resp. sets the mode to ANALYZING and requests an analysis). *)
Theorem superseded_interaction_mutates_state :
  (interactionIdRef (run press_during_confirmation (initial 0)) = 2000
   /\ lookup_cont 3 (pending (run press_during_confirmation (initial 0)))
      = Some K_pc_companion_on
   /\ appState (run press_during_confirmation (initial 0)) = LISTENING
   /\ isWalkingFeatureActive (run press_during_confirmation (initial 0)) = false
   /\ appState (step (E_resume 3 (resp0 2001))
                 (run press_during_confirmation (initial 0))) = WALKING
   /\ isWalkingFeatureActive (step (E_resume 3 (resp0 2001))
                 (run press_during_confirmation (initial 0))) = true)
  /\ (interactionIdRef (run press_during_capture (initial 0)) = 2100
      /\ lookup_cont 5 (pending (run press_during_capture (initial 0)))
         = Some (K_pc_capture 1000 {| type := DESCRIBE; destination := None |})
      /\ appState (run press_during_capture (initial 0)) = LISTENING
      /\ appState (step (E_resume 5 (resp_frame 2200 (Some "data:image/jpeg;base64,AAAA")))
                    (run press_during_capture (initial 0))) = ANALYZING
      /\ trace (step (E_resume 5 (resp_frame 2200 (Some "data:image/jpeg;base64,AAAA")))
                  (run press_during_capture (initial 0)))
         = A_analyzeImage "data:image/jpeg;base64,AAAA"
           :: trace (run press_during_capture (initial 0))).
Proof.
  split; repeat (refine (conj _ _); [vm_compute; reflexivity|]); vm_compute; reflexivity.
Qed.

(** ** The in-flight guard of the perception loop *)

Lemma cycles_app (l1 l2 : list (nat * Cont)) : cycles (l1 ++ l2) = (cycles l1 + cycles l2)%nat.
Proof. unfold cycles. now rewrite filter_app, length_app. Qed.

Lemma cycles_filter_timer (id : nat) (l : list (nat * Cont)) :
  Forall (fun e => fst e = id -> in_cycle (snd e) = false) l ->
  cycles (filter (fun e => negb (Nat.eqb (fst e) id)) l) = cycles l.
Proof.
  unfold cycles. induction 1 as [|[i k] l Hk _ IH]; [reflexivity|].
  cbn [filter fst snd] in *.
  destruct (Nat.eqb_spec i id) as [->|Hne]; cbn [negb filter snd].
  - rewrite (Hk eq_refl). exact IH.
  - destruct (in_cycle k); cbn [List.length]; now rewrite IH.
Qed.

Lemma lookup_cont_not_in (i : nat) (l : list (nat * Cont)) :
  ~ In i (map fst l) -> remove_cont i l = l.
Proof.
  induction l as [|[j k] l IH]; [reflexivity|]. cbn. intros H.
  destruct (Nat.eqb_spec j i) as [->|_]; [tauto|]. cbn. f_equal. tauto.
Qed.

Lemma cycles_remove_cont (i : nat) (k : Cont) (l : list (nat * Cont)) :
  NoDup (map fst l) -> lookup_cont i l = Some k ->
  (cycles (remove_cont i l) + (if in_cycle k then 1 else 0) = cycles l)%nat.
Proof.
  induction l as [|[j kj] l IH]; [discriminate|].
  cbn [map fst]. intros Hnd Hl. inversion Hnd as [|? ? Hnot Hnd']; subst.
  cbn [lookup_cont] in Hl. unfold remove_cont in *. cbn [filter fst].
  destruct (Nat.eqb_spec j i) as [->|Hne]; cbn [negb].
  - injection Hl as ->.
    change (filter (fun e => negb (Nat.eqb (fst e) i)) l) with (remove_cont i l).
    rewrite (lookup_cont_not_in i l Hnot).
    unfold cycles. cbn [filter snd]. destruct (in_cycle k); cbn [List.length]; lia.
  - specialize (IH Hnd' Hl). unfold cycles in *. cbn [filter snd].
    destruct (in_cycle kj); cbn [List.length]; lia.
Qed.

Lemma NoDup_map_fst_filter (f : nat * Cont -> bool) (l : list (nat * Cont)) :
  NoDup (map fst l) -> NoDup (map fst (filter f l)).
Proof.
  induction l as [|e l IH]; [auto|]. cbn. intros H. inversion H as [|? ? Hn Hd]; subst.
  destruct (f e); cbn; [|auto]. constructor; [|auto].
  intros Hin. apply Hn. apply in_map_iff in Hin. destruct Hin as [x [Hx Hin]].
  apply filter_In in Hin. apply in_map_iff. exists x. tauto.
Qed.

Lemma NoDup_map_fst_app_new (n : nat) (k : Cont) (l : list (nat * Cont)) :
  Forall (fun e => (fst e < n)%nat) l -> NoDup (map fst l) ->
  NoDup (map fst (l ++ [(n, k)])).
Proof.
  intros Hf Hd. rewrite map_app. cbn.
  apply NoDup_app; [exact Hd | repeat constructor; intros [] |].
  intros a Ha [<-|[]].
  apply in_map_iff in Ha. destruct Ha as [x [Hx Hin]].
  rewrite Forall_forall in Hf. specialize (Hf x Hin). lia.
Qed.

Lemma Forall_filter {A : Type} (P : A -> Prop) (f : A -> bool) (l : list A) :
  Forall P l -> Forall P (filter f l).
Proof.
  intros H. apply Forall_forall. intros x Hx. apply filter_In in Hx.
  rewrite Forall_forall in H. now apply H.
Qed.

(** Reduces the projections of a world built with the setters, and nothing
    else. *)
Ltac fields :=
  cbn [appState isWalkingFeatureActive isNavigating isCompanionMode navPlan currentStepIndex
       appStateRef isWalkingFeatureActiveRef isNavigatingRef isCompanionModeRef navPlanRef
       stepIndexRef isAnalyzingFrameRef interactionIdRef lastButtonPressRef lastCompanionMsgRef
       lastLoopTimeRef emergencySeverityRef navTimerRef abortControllerRef isSpeaking pending
       nextId trace set_appState set_isWalkingFeatureActive set_isNavigating
       set_isCompanionMode set_navPlan set_currentStepIndex set_appStateRef
       set_isWalkingFeatureActiveRef set_isNavigatingRef set_isCompanionModeRef set_navPlanRef
       set_stepIndexRef set_isAnalyzingFrameRef set_interactionIdRef set_lastButtonPressRef
       set_lastCompanionMsgRef set_lastLoopTimeRef set_emergencySeverityRef set_navTimerRef
       set_abortControllerRef set_isSpeaking set_pending set_nextId set_trace
       suspend emit setTimeout setNavTimer speak listen playSound stopSpeaking].

Lemma guarded_same (d : nat) (w w' : World) :
  pending w' = pending w -> nextId w' = nextId w ->
  navTimerRef w' = navTimerRef w -> isAnalyzingFrameRef w' = isAnalyzingFrameRef w ->
  guarded d w -> guarded d w'.
Proof.
  intros Hp Hn Ht Hl [H1 H2 H3 H4 H5].
  constructor; unfold fresh, in_flight, held in *; rewrite ?Hp, ?Hn, ?Ht, ?Hl; auto.
Qed.

Lemma navTimer_ok_app_new (t : option nat) (n : nat) (k : Cont) (l : list (nat * Cont)) :
  (forall id, t = Some id -> (id < n)%nat) ->
  navTimer_ok t l -> navTimer_ok t (l ++ [(n, k)]).
Proof.
  destruct t as [id|]; [|auto]. cbn. intros Hlt H.
  apply Forall_app. split; [exact H|]. constructor; [|constructor].
  cbn. intros ->. specialize (Hlt _ eq_refl). lia.
Qed.

Lemma guarded_suspend (d : nat) (k : Cont) (w : World) :
  in_cycle k = false -> guarded d w -> guarded d (suspend k w).
Proof.
  intros Hk [H1 H2 H3 H4 H5]. unfold fresh, in_flight, held in *.
  constructor; unfold fresh, in_flight, held; fields.
  - now apply NoDup_map_fst_app_new.
  - now apply Forall_lt_app_new.
  - now apply navTimer_ok_app_new.
  - intros id Hid. specialize (H4 id Hid). lia.
  - rewrite cycles_app. unfold cycles at 2. cbn [filter snd]. rewrite Hk. cbn [List.length]. lia.
Qed.

Lemma guarded_suspend_cycle (k : Cont) (w : World) :
  in_cycle k = true -> guarded 1 w -> guarded 0 (suspend k w).
Proof.
  intros Hk [H1 H2 H3 H4 H5]. unfold fresh, in_flight, held in *.
  constructor; unfold fresh, in_flight, held; fields.
  - now apply NoDup_map_fst_app_new.
  - now apply Forall_lt_app_new.
  - now apply navTimer_ok_app_new.
  - intros id Hid. specialize (H4 id Hid). lia.
  - rewrite cycles_app. unfold cycles at 2. cbn [filter snd]. rewrite Hk. cbn [List.length]. lia.
Qed.

Lemma guarded_release (w : World) :
  guarded 1 w -> guarded 0 (set_isAnalyzingFrameRef false w).
Proof.
  intros [H1 H2 H3 H4 H5]. unfold fresh, in_flight, held in *.
  constructor; unfold fresh, in_flight, held; fields; auto.
  destruct (isAnalyzingFrameRef w); lia.
Qed.

Lemma guarded_acquire (w : World) :
  isAnalyzingFrameRef w = false -> guarded 0 w ->
  guarded 1 (set_isAnalyzingFrameRef true w).
Proof.
  intros Hl [H1 H2 H3 H4 H5]. unfold fresh, in_flight, held in *.
  constructor; unfold fresh, in_flight, held; fields; auto.
  rewrite Hl in H5. lia.
Qed.

Lemma guarded_clearNavTimer (d : nat) (w : World) :
  guarded d w -> guarded d (clearNavTimer w).
Proof.
  intros [H1 H2 H3 H4 H5]. unfold clearNavTimer, clearTimeout.
  destruct (navTimerRef w) as [id|] eqn:Ht; [|constructor; rewrite ?Ht; auto].
  unfold fresh, in_flight, held in *.
  constructor; unfold fresh, in_flight, held; fields.
  - now apply NoDup_map_fst_filter.
  - now apply Forall_filter.
  - rewrite Ht. cbn [navTimer_ok] in *. now apply Forall_filter.
  - rewrite Ht. exact H4.
  - rewrite cycles_filter_timer; assumption.
Qed.

Lemma guarded_setNavTimer (d : nat) (k : Cont) (delay : Z) (w : World) :
  in_cycle k = false -> guarded d w -> guarded d (setNavTimer k delay w).
Proof.
  intros Hk [H1 H2 H3 H4 H5]. unfold fresh, in_flight, held in *.
  constructor; unfold fresh, in_flight, held; fields.
  - now apply NoDup_map_fst_app_new.
  - now apply Forall_lt_app_new.
  - apply Forall_app. split.
    + apply Forall_forall. intros x Hx Hid.
      rewrite Forall_forall in H2. specialize (H2 x Hx). lia.
    + constructor; [|constructor]. intros _. exact Hk.
  - intros id [= <-]. lia.
  - rewrite cycles_app. unfold cycles at 2. cbn [filter snd]. rewrite Hk. cbn [List.length]. lia.
Qed.

Lemma guarded_remove (i : nat) (k : Cont) (w : World) :
  guarded 0 w -> lookup_cont i (pending w) = Some k ->
  guarded (if in_cycle k then 1 else 0) (set_pending (remove_cont i (pending w)) w).
Proof.
  intros [H1 H2 H3 H4 H5] Hl. unfold fresh, in_flight, held in *.
  constructor; unfold fresh, in_flight, held; fields.
  - now apply NoDup_map_fst_filter.
  - now apply Forall_remove_cont.
  - destruct (navTimerRef w); [|exact I]. cbn [navTimer_ok] in *. now apply Forall_filter.
  - exact H4.
  - pose proof (cycles_remove_cont i k (pending w) H1 Hl). lia.
Qed.

(** The cells that the guard invariant does not read. *)
Section Irrelevant.

Variable d : nat.
Variable w : World.
Hypothesis H : guarded d w.

Ltac same :=
  apply (guarded_same d w); [reflexivity | reflexivity | reflexivity | reflexivity | exact H].

Lemma guarded_set_appState v : guarded d (set_appState v w).
Proof. same. Qed.

Lemma guarded_set_isWalkingFeatureActive v : guarded d (set_isWalkingFeatureActive v w).
Proof. same. Qed.

Lemma guarded_set_isNavigating v : guarded d (set_isNavigating v w).
Proof. same. Qed.

Lemma guarded_set_isCompanionMode v : guarded d (set_isCompanionMode v w).
Proof. same. Qed.

Lemma guarded_set_navPlan v : guarded d (set_navPlan v w).
Proof. same. Qed.

Lemma guarded_set_currentStepIndex v : guarded d (set_currentStepIndex v w).
Proof. same. Qed.

Lemma guarded_set_appStateRef v : guarded d (set_appStateRef v w).
Proof. same. Qed.

Lemma guarded_set_isWalkingFeatureActiveRef v : guarded d (set_isWalkingFeatureActiveRef v w).
Proof. same. Qed.

Lemma guarded_set_isNavigatingRef v : guarded d (set_isNavigatingRef v w).
Proof. same. Qed.

Lemma guarded_set_isCompanionModeRef v : guarded d (set_isCompanionModeRef v w).
Proof. same. Qed.

Lemma guarded_set_navPlanRef v : guarded d (set_navPlanRef v w).
Proof. same. Qed.

Lemma guarded_set_stepIndexRef v : guarded d (set_stepIndexRef v w).
Proof. same. Qed.

Lemma guarded_set_interactionIdRef v : guarded d (set_interactionIdRef v w).
Proof. same. Qed.

Lemma guarded_set_lastButtonPressRef v : guarded d (set_lastButtonPressRef v w).
Proof. same. Qed.

Lemma guarded_set_lastCompanionMsgRef v : guarded d (set_lastCompanionMsgRef v w).
Proof. same. Qed.

Lemma guarded_set_lastLoopTimeRef v : guarded d (set_lastLoopTimeRef v w).
Proof. same. Qed.

Lemma guarded_set_emergencySeverityRef v : guarded d (set_emergencySeverityRef v w).
Proof. same. Qed.

Lemma guarded_set_abortControllerRef v : guarded d (set_abortControllerRef v w).
Proof. same. Qed.

Lemma guarded_set_isSpeaking v : guarded d (set_isSpeaking v w).
Proof. same. Qed.

Lemma guarded_set_trace v : guarded d (set_trace v w).
Proof. same. Qed.

Lemma guarded_emit a : guarded d (emit a w).
Proof. same. Qed.

Lemma guarded_playSound a : guarded d (playSound a w).
Proof. same. Qed.

Lemma guarded_stopSpeaking : guarded d (stopSpeaking w).
Proof. same. Qed.

End Irrelevant.

Ltac apply_irrelevant :=
  first [ simple apply guarded_set_appState
        | simple apply guarded_set_isWalkingFeatureActive
        | simple apply guarded_set_isNavigating
        | simple apply guarded_set_isCompanionMode
        | simple apply guarded_set_navPlan
        | simple apply guarded_set_currentStepIndex
        | simple apply guarded_set_appStateRef
        | simple apply guarded_set_isWalkingFeatureActiveRef
        | simple apply guarded_set_isNavigatingRef
        | simple apply guarded_set_isCompanionModeRef
        | simple apply guarded_set_navPlanRef
        | simple apply guarded_set_stepIndexRef
        | simple apply guarded_set_interactionIdRef
        | simple apply guarded_set_lastButtonPressRef
        | simple apply guarded_set_lastCompanionMsgRef
        | simple apply guarded_set_lastLoopTimeRef
        | simple apply guarded_set_emergencySeverityRef
        | simple apply guarded_set_abortControllerRef
        | simple apply guarded_set_isSpeaking
        | simple apply guarded_set_trace
        | simple apply guarded_emit
        | simple apply guarded_playSound
        | simple apply guarded_stopSpeaking ].

Lemma guarded_speak (d : nat) (text : string) (priority : bool) (k : Cont) (w : World) :
  in_cycle k = false -> guarded d w -> guarded d (speak text priority k w).
Proof.
  intros Hk H. unfold speak. apply guarded_suspend; [exact Hk|].
  apply guarded_set_isSpeaking. now apply guarded_emit.
Qed.

Lemma guarded_speak_cycle (text : string) (priority : bool) (k : Cont) (w : World) :
  in_cycle k = true -> guarded 1 w -> guarded 0 (speak text priority k w).
Proof.
  intros Hk H. unfold speak. apply guarded_suspend_cycle; [exact Hk|].
  apply guarded_set_isSpeaking. now apply guarded_emit.
Qed.

Lemma guarded_listen (d : nat) (t : Z) (k : Cont) (w : World) :
  in_cycle k = false -> guarded d w -> guarded d (listen t k w).
Proof.
  intros Hk H. unfold listen. apply guarded_suspend; [exact Hk|].
  apply guarded_emit. now apply guarded_set_isSpeaking.
Qed.

Lemma guarded_setTimeout (d : nat) (k : Cont) (delay : Z) (w : World) :
  in_cycle k = false -> guarded d w -> guarded d (setTimeout k delay w).
Proof.
  intros Hk H. unfold setTimeout. apply guarded_suspend; [exact Hk|].
  now apply guarded_emit.
Qed.

Ltac head_of t :=
  lazymatch t with
  | ?f _ => head_of f
  | _ => t
  end.

(** Peels a world expression layer by layer, keeping [guarded]. *)
Ltac peel_step :=
  cbv zeta;
  lazymatch goal with
  | H : guarded ?d ?w |- guarded ?d ?w => exact H
  | |- guarded _ (in_timer (startNavigationLoop _)) =>
    unfold in_timer, startNavigationLoop; break_inner
  | |- guarded _ (in_effect (startNavigationLoop _)) =>
    unfold in_effect, startNavigationLoop; break_inner
  | |- guarded _ (if ?b then _ else _) => destruct b eqn:?
  | |- guarded _ (match ?x with _ => _ end) => destruct x eqn:?
  | |- guarded _ (suspend _ _) =>
    first [ simple apply guarded_suspend; [reflexivity|]
          | simple apply guarded_suspend_cycle; [reflexivity|] ]
  | |- guarded _ (speak _ _ _ _) =>
    first [ simple apply guarded_speak; [reflexivity|]
          | simple apply guarded_speak_cycle; [reflexivity|] ]
  | |- guarded _ (listen _ _ _) => simple apply guarded_listen; [reflexivity|]
  | |- guarded _ (setTimeout _ _ _) => simple apply guarded_setTimeout; [reflexivity|]
  | |- guarded _ (setNavTimer _ _ _) => simple apply guarded_setNavTimer; [reflexivity|]
  | |- guarded _ (clearNavTimer _) => simple apply guarded_clearNavTimer
  | |- guarded 0 (set_isAnalyzingFrameRef false _) => simple apply guarded_release
  | |- guarded 1 (set_isAnalyzingFrameRef true _) =>
    simple apply guarded_acquire; [assumption|]
  | |- guarded _ (set_isAnalyzingFrameRef _ _) => fail
  | |- guarded _ (set_pending _ _) => fail
  | |- guarded _ (set_nextId _ _) => fail
  | |- guarded _ (set_navTimerRef _ _) => fail
  | |- guarded _ ?t =>
    first [ apply_irrelevant | let h := head_of t in unfold h ]
  end.

Ltac peel := repeat peel_step.

Lemma guarded_runWalkingLoop (now : Z) (w : World) :
  guarded 0 w -> guarded 0 (runWalkingLoop now w).
Proof. intros H. unfold runWalkingLoop. peel. Qed.

Lemma guarded_in_timer (d : nat) (w : World) :
  guarded d w -> guarded d (in_timer (startNavigationLoop w)).
Proof. intros H. peel. Qed.

Lemma guarded_in_effect (d : nat) (w : World) :
  guarded d w -> guarded d (in_effect (startNavigationLoop w)).
Proof. intros H. peel. Qed.

Lemma guarded_wl_finally (w : World) : guarded 1 w -> guarded 0 (wl_finally w).
Proof. intros H. unfold wl_finally. peel. Qed.

Lemma guarded_triggerEmergencyCheck (d : nat) (sev : EmergencySeverity) (w : World) :
  guarded d w -> guarded d (triggerEmergencyCheck sev w).
Proof. intros H. unfold triggerEmergencyCheck. peel. Qed.

Lemma guarded_resume (k : Cont) (r : Resp) (w0 : World) :
  guarded (if in_cycle k then 1 else 0) w0 -> guarded 0 (resume k r w0).
Proof.
  intros H.
  assert (H' : guarded (if in_cycle k then 1 else 0)
                 (if awaits_speech k then set_isSpeaking false w0 else w0))
    by (destruct (awaits_speech k); [apply guarded_set_isSpeaking|]; exact H).
  unfold resume.
  set (w := if awaits_speech k then set_isSpeaking false w0 else w0) in *.
  clearbody w. clear H.
  destruct k; cbn [in_cycle] in H'; cbv zeta;
    try exact H';
    try (apply guarded_runWalkingLoop; exact H');
    try (apply guarded_in_timer; exact H');
    try (apply guarded_wl_finally; exact H').
  all: peel.
Qed.

Lemma guarded_handleButtonPress (now : Z) (w : World) :
  guarded 0 w -> guarded 0 (handleButtonPress now w).
Proof. intros H. unfold handleButtonPress. peel. Qed.

Lemma guarded_handleDistress (sev : EmergencySeverity) (w : World) :
  guarded 0 w -> guarded 0 (handleDistress sev w).
Proof.
  intros H. unfold handleDistress.
  destruct (appStateRef w); try exact H; now apply guarded_triggerEmergencyCheck.
Qed.

Lemma guarded_sync_refs (d : nat) (snap w : World) :
  guarded d w -> guarded d (sync_refs snap w).
Proof. intros H. unfold sync_refs. peel. Qed.

Lemma guarded_mode_effect (now : Z) (snap w : World) :
  guarded 0 w -> guarded 0 (mode_effect now snap w).
Proof.
  intros H. unfold mode_effect.
  destruct (is_active (appState snap)); [|now apply guarded_clearNavTimer].
  cbv zeta.
  assert (H1 : guarded 0 (if negb (isAnalyzingFrameRef w) then runWalkingLoop now w else w))
    by (destruct (negb (isAnalyzingFrameRef w)); [now apply guarded_runWalkingLoop | exact H]).
  destruct (navPlan snap); [|exact H1].
  destruct (isNavigating snap); [|exact H1].
  apply guarded_in_effect. now apply guarded_clearNavTimer.
Qed.

Lemma guarded_render_pass (now : Z) (w : World) :
  guarded 0 w -> guarded 0 (render_pass now w).
Proof.
  intros H. unfold render_pass.
  destruct (state_changed w); [|exact H]. cbv zeta.
  destruct (deps_changed w).
  - apply guarded_mode_effect. now apply guarded_sync_refs.
  - now apply guarded_sync_refs.
Qed.

Lemma guarded_commit (now : Z) (w : World) : guarded 0 w -> guarded 0 (commit now w).
Proof. intros H. unfold commit. now do 4 apply guarded_render_pass. Qed.

Lemma guarded_step (e : Event) (w : World) :
  guarded 0 w -> watchdog_restart e w = false -> guarded 0 (step e w).
Proof.
  intros H Hw. unfold step. apply guarded_commit.
  destruct e as [now|id r|now|sev now]; cbn [dispatch].
  - now apply guarded_handleButtonPress.
  - destruct (lookup_cont id (pending w)) as [k|] eqn:Hl; [|exact H].
    apply guarded_resume. now apply guarded_remove.
  - unfold watchdog. cbn [watchdog_restart] in Hw. now rewrite Hw.
  - now apply guarded_handleDistress.
Qed.

Lemma guarded_initial (t0 : Z) : guarded 0 (initial t0).
Proof.
  constructor; cbn.
  - repeat constructor. intros [].
  - repeat constructor.
  - exact I.
  - discriminate.
  - reflexivity.
Qed.

Lemma guarded_in_flight (w : World) : guarded 0 w -> (in_flight w <= 1)%nat.
Proof. intros [_ _ _ _ H]. unfold held in H. destruct (isAnalyzingFrameRef w); lia. Qed.

Lemma guarded_run (es : list Event) :
  forall w, guarded 0 w -> no_restart es w -> guarded 0 (run es w).
Proof.
  induction es as [|e es IH]; intros w H Hn; [exact H|].
  destruct Hn as [He Hn]. cbn [run fold_left]. apply IH; [|exact Hn].
  now apply guarded_step.
Qed.

Lemma runWalkingLoop_dropped (now : Z) (w : World) :
  isAnalyzingFrameRef w = true -> runWalkingLoop now w = set_lastLoopTimeRef now w.
Proof.
  intros H. unfold runWalkingLoop. cbv zeta. fields. rewrite H.
  destruct (appStateRef w); cbn [is_active negb orb];
    destruct (isWalkingFeatureActiveRef w || isNavigatingRef w); reflexivity.
Qed.

(** C6 does not hold as written on the watchdog path: walking mode has a cycle in
    flight (awaiting its capture) that started at t = 3000; the watchdog
    tick at t = 5500 clears the guard and starts a second cycle. *)
Lemma watchdog_starts_second_cycle :
  in_flight walking_world = 1%nat
  /\ isAnalyzingFrameRef walking_world = true
  /\ in_flight (step (E_watchdog 5500) walking_world) = 2%nat.
Proof. repeat (refine (conj _ _); [vm_compute; reflexivity|]). vm_compute; reflexivity. Qed.

(** C6, as the code has it.  An invocation of the loop that finds the guard held only
    stamps the heartbeat: nothing is captured and nothing is queued.  Every
    event other than a watchdog restart keeps the number of cycles in
    flight equal to 1 when the guard is held and to 0 when it is free; so
    in every run from mount without a watchdog restart at most one cycle is
    in flight, across all interleavings of loop timers, renders, button
    presses, distress signals and completions of awaited calls. *)
Theorem one_cycle_in_flight :
  (forall now w, isAnalyzingFrameRef w = true ->
     runWalkingLoop now w = set_lastLoopTimeRef now w)
  /\ (forall e w, guarded 0 w -> watchdog_restart e w = false -> guarded 0 (step e w))
  /\ (forall t0 es, no_restart es (initial t0) ->
        (in_flight (run es (initial t0)) <= 1)%nat
        /\ in_flight (run es (initial t0)) = held (run es (initial t0))).
Proof.
  split; [exact runWalkingLoop_dropped|]. split; [exact guarded_step|].
  intros t0 es Hn.
  pose proof (guarded_run es (initial t0) (guarded_initial t0) Hn) as H.
  split; [now apply guarded_in_flight|].
  destruct H as [_ _ _ _ H]. lia.
Qed.

Lemma one_cycle_in_flight_witness :
  (in_flight (run walking_events (initial 0)) <= 1)%nat.
Proof.
  refine (proj1 (proj2 (proj2 one_cycle_in_flight) 0 walking_events _)).
  repeat (refine (conj _ _); [vm_compute; reflexivity|]). exact I.
Defined.


(** ** Four render passes reach the fixed point *)

Lemma AppState_beq_neq (a b : AppState) : a <> b -> AppState_beq a b = false.
Proof. destruct a, b; simpl; congruence. Qed.

Lemma same_view_state_changed (w w' : World) :
  same_view w w' -> state_changed w' = state_changed w.
Proof.
  unfold same_view, state_changed, deps_changed.
  intros (H1 & H2 & H3 & H4 & H5 & H6 & H7 & H8 & H9 & H10 & H11 & H12).
  now rewrite H1, H2, H3, H4, H5, H6, H7, H8, H9, H10, H11, H12.
Qed.

Lemma same_view_refl (w : World) : same_view w w.
Proof. unfold same_view. repeat split. Qed.

Lemma same_view_trans (a b c : World) : same_view a b -> same_view b c -> same_view a c.
Proof.
  unfold same_view.
  intros (H1 & H2 & H3 & H4 & H5 & H6 & H7 & H8 & H9 & H10 & H11 & H12)
         (G1 & G2 & G3 & G4 & G5 & G6 & G7 & G8 & G9 & G10 & G11 & G12).
  repeat split; congruence.
Qed.

Ltac view_ok := unfold same_view; cbn; repeat split.

Lemma same_view_runWalkingLoop (now : Z) (w : World) : same_view w (runWalkingLoop now w).
Proof.
  unfold runWalkingLoop. cbv zeta. fields.
  destruct (appStateRef w); cbn [is_active negb orb];
    destruct (isWalkingFeatureActiveRef w || isNavigatingRef w); cbn [negb];
    destruct (isAnalyzingFrameRef w); view_ok.
Qed.

Lemma same_view_clearNavTimer (w : World) : same_view w (clearNavTimer w).
Proof. unfold clearNavTimer. destruct (navTimerRef w); view_ok. Qed.

(** A tick either leaves the rendered cells alone or is the arrival. *)
Lemma view_in_effect (w : World) :
  same_view w (in_effect (startNavigationLoop w))
  \/ (appStateRef w = NAVIGATING
      /\ in_effect (startNavigationLoop w) =
         set_appState (if isWalkingFeatureActiveRef w then WALKING else IDLE)
           (set_navPlan None (set_isNavigating false
              (speak "You have arrived." false K_spoken w)))).
Proof.
  unfold in_effect, startNavigationLoop.
  destruct (navPlanRef w) as [plan|]; [|left; apply same_view_refl].
  destruct (isNavigatingRef w); cbn [negb orb]; [|left; apply same_view_refl].
  destruct (appStateRef w) eqn:Ha; cbn [AppState_beq negb];
    try (left; apply same_view_refl).
  destruct (steps plan) as [l|]; [|left; view_ok].
  cbv zeta. destruct (nth_error l (stepIndexRef w)).
  - left. destruct (isSpeaking w); cbn [negb]; view_ok.
  - right. split; reflexivity.
Qed.

Lemma arrival_of_same_view (a b r : World) :
  same_view a b -> arrival_of b r -> arrival_of a r.
Proof.
  unfold same_view, arrival_of.
  intros (H1 & H2 & H3 & H4 & H5 & H6 & H7 & H8 & H9 & H10 & H11 & H12)
         (G1 & G2 & G3 & G4 & G5 & G6 & G7 & G8 & G9 & G10 & G11 & G12).
  repeat split; try congruence. now rewrite G3, H10.
Qed.

Lemma view_mode_effect (now : Z) (snap w : World) :
  same_view w (mode_effect now snap w)
  \/ (appStateRef w = NAVIGATING /\ arrival_of w (mode_effect now snap w)).
Proof.
  unfold mode_effect.
  destruct (is_active (appState snap)); [|left; apply same_view_clearNavTimer].
  cbv zeta.
  set (w1 := if negb (isAnalyzingFrameRef w) then runWalkingLoop now w else w).
  assert (H1 : same_view w w1)
    by (unfold w1; destruct (negb (isAnalyzingFrameRef w));
        [apply same_view_runWalkingLoop | apply same_view_refl]).
  destruct (navPlan snap); [|now left].
  destruct (isNavigating snap); [|now left].
  pose proof (same_view_clearNavTimer w1) as H2.
  pose proof (same_view_trans _ _ _ H1 H2) as H3.
  destruct (view_in_effect (clearNavTimer w1)) as [H4|[Ha ->]].
  - left. eapply same_view_trans; eassumption.
  - right. split.
    + destruct H3 as (_ & _ & _ & _ & _ & _ & E & _). now rewrite <- E.
    + apply (arrival_of_same_view w (clearNavTimer w1)); [exact H3|].
      unfold arrival_of. cbn. repeat split.
Qed.

Lemma sync_refs_view (w : World) :
  appStateRef (sync_refs w w) = appState w
  /\ isNavigatingRef (sync_refs w w) = isNavigating w
  /\ navPlanRef (sync_refs w w) = navPlan w
  /\ isWalkingFeatureActiveRef (sync_refs w w) = isWalkingFeatureActive w
  /\ isCompanionModeRef (sync_refs w w) = isCompanionMode w
  /\ stepIndexRef (sync_refs w w) = currentStepIndex w
  /\ isNavigating (sync_refs w w) = isNavigating w
  /\ navPlan (sync_refs w w) = navPlan w
  /\ isWalkingFeatureActive (sync_refs w w) = isWalkingFeatureActive w
  /\ isCompanionMode (sync_refs w w) = isCompanionMode w
  /\ currentStepIndex (sync_refs w w) = currentStepIndex w
  /\ appState (sync_refs w w) =
     match appState w with
     | IDLE => if isNavigating w then NAVIGATING
               else if isWalkingFeatureActive w then WALKING else IDLE
     | s => s
     end.
Proof.
  unfold sync_refs. cbv zeta.
  destruct (appState w) eqn:Ha; cbn;
    try (destruct (isNavigating w) eqn:Hn; cbn;
         try (destruct (isWalkingFeatureActive w) eqn:Hw; cbn));
    rewrite ?Ha, ?Hn, ?Hw; repeat split.
Qed.

Lemma settled_of_refs (w : World) :
  appStateRef w = appState w -> isNavigatingRef w = isNavigating w ->
  navPlanRef w = navPlan w -> isWalkingFeatureActiveRef w = isWalkingFeatureActive w ->
  isCompanionModeRef w = isCompanionMode w -> stepIndexRef w = currentStepIndex w ->
  state_changed w = false.
Proof.
  intros H1 H2 H3 H4 H5 H6. unfold state_changed, deps_changed.
  rewrite H1, H2, H3, H4, H5, H6. now refl_eqbs.
Qed.

(** One render from any world: settled, or the mode was inferred from IDLE,
    or the narrator arrived. *)
Lemma render_pass_first (now : Z) (w : World) :
  state_changed (render_pass now w) = false
  \/ inferred (render_pass now w) \/ arrived (render_pass now w).
Proof.
  unfold render_pass. destruct (state_changed w) eqn:Hc; [|now left]. cbv zeta.
  destruct (sync_refs_view w)
    as (R1 & R2 & R3 & R4 & R5 & R6 & S2 & S3 & S4 & S5 & S6 & S1).
  set (w1 := sync_refs w w) in *.
  assert (Hcase : forall r, same_view w1 r \/ (appStateRef w1 = NAVIGATING /\ arrival_of w1 r) ->
            state_changed r = false \/ inferred r \/ arrived r).
  { intros r [Hv|[Ha Har]].
    - destruct Hv as (V1 & V2 & V3 & V4 & V5 & V6 & V7 & V8 & V9 & V10 & V11 & V12).
      destruct (AppState_eq_dec (appState w) IDLE) as [Hi|Hi].
      + rewrite Hi in S1.
        destruct (isNavigating w) eqn:Hn; [|destruct (isWalkingFeatureActive w) eqn:Hw].
        * right. left. unfold inferred. rewrite V7, V1, V2, V8, V9, V3, V10, V4, V11, V5, V12, V6.
          rewrite R1, S1, S2, R2, R3, S3, R4, S4, R5, S5, R6, S6, Hi. repeat split.
        * right. left. unfold inferred. rewrite V7, V1, V2, V8, V9, V3, V10, V4, V11, V5, V12, V6.
          rewrite R1, S1, S2, R2, R3, S3, R4, S4, R5, S5, R6, S6, Hi. repeat split.
        * left. apply settled_of_refs; congruence.
      + left. apply settled_of_refs; try congruence.
        rewrite V7, V1, R1, S1. destruct (appState w); congruence.
    - right. right.
      destruct Har as (A1 & A2 & A3 & A4 & A5 & A6 & A7 & A8 & A9 & A10 & A11 & A12).
      unfold arrived. rewrite A1, A2, A3, A4, A5, A6, A10, A11, A12, R4, R5, R6, S4, S5, S6.
      repeat split. }
  destruct (deps_changed w).
  - apply Hcase. apply view_mode_effect.
  - apply Hcase. left. apply same_view_refl.
Qed.

Lemma render_pass_inferred (now : Z) (w : World) :
  inferred w -> state_changed (render_pass now w) = false \/ arrived (render_pass now w).
Proof.
  intros (I1 & I2 & I3 & I4 & I5 & I6 & I7).
  assert (Hne : appState w <> IDLE) by (rewrite I2; destruct (isNavigating w); discriminate).
  destruct (render_pass_first now w) as [H|[H|H]]; [now left | | now right].
  exfalso. unfold render_pass in H.
  assert (Hc : state_changed w = true).
  { unfold state_changed, deps_changed. rewrite I1, (AppState_beq_neq _ _ Hne). reflexivity. }
  rewrite Hc in H. cbv zeta in H.
  destruct (sync_refs_view w) as (R1 & _).
  destruct H as (H1 & _).
  assert (Hr : forall r, same_view (sync_refs w w) r
                         \/ (appStateRef (sync_refs w w) = NAVIGATING
                             /\ arrival_of (sync_refs w w) r) ->
                         appStateRef r = appState w).
  { intros r [Hv|[_ Har]].
    - destruct Hv as (_ & _ & _ & _ & _ & _ & V7 & _). now rewrite V7.
    - destruct Har as (_ & _ & _ & _ & _ & _ & A7 & _). now rewrite A7. }
  destruct (deps_changed w).
  - rewrite (Hr _ (view_mode_effect now w (sync_refs w w))) in H1. contradiction.
  - rewrite (Hr _ (or_introl (same_view_refl _))) in H1. contradiction.
Qed.

Lemma render_pass_arrived (now : Z) (w : World) :
  arrived w -> state_changed (render_pass now w) = false.
Proof.
  intros (A1 & A2 & A3 & A4 & A5 & A6).
  unfold render_pass. destruct (state_changed w) eqn:Hc; [|exact Hc]. cbv zeta.
  destruct (sync_refs_view w)
    as (R1 & R2 & R3 & R4 & R5 & R6 & S2 & S3 & S4 & S5 & S6 & S1).
  assert (S1' : appState (sync_refs w w) = appState w).
  { rewrite S1, A3, A1. destruct (isWalkingFeatureActive w); reflexivity. }
  assert (Hs : state_changed (sync_refs w w) = false)
    by (apply settled_of_refs; congruence).
  destruct (deps_changed w); [|exact Hs].
  destruct (view_mode_effect now w (sync_refs w w)) as [Hv|[Ha _]].
  - now rewrite (same_view_state_changed _ _ Hv).
  - rewrite R1, A3 in Ha. destruct (isWalkingFeatureActive w); discriminate.
Qed.

(** [commit] reaches a world that a further render leaves alone. *)
Lemma commit_settled (now : Z) (w : World) : state_changed (commit now w) = false.
Proof.
  unfold commit.
  set (w1 := render_pass now w).
  destruct (render_pass_first now w) as [H|[H|H]]; fold w1 in H.
  - now rewrite !(render_pass_committed now w1 H).
  - destruct (render_pass_inferred now w1 H) as [H2|H2].
    + now rewrite !(render_pass_committed now _ H2).
    + pose proof (render_pass_arrived now _ H2) as H3.
      now rewrite (render_pass_committed now _ H3).
  - pose proof (render_pass_arrived now _ H) as H2.
    now rewrite !(render_pass_committed now _ H2).
Qed.

(** * Further properties of the component *)

Lemma ids_kept_refl (w : World) : ids_kept w w.
Proof. split; reflexivity. Qed.

Lemma ids_kept_trans (a b c : World) : ids_kept a b -> ids_kept b c -> ids_kept a c.
Proof. intros [H1 H2] [H3 H4]. split; congruence. Qed.

Lemma ids_in_timer (w : World) : ids_kept w (in_timer (startNavigationLoop w)).
Proof.
  unfold in_timer, startNavigationLoop, setNavTimer, ids_kept. break_inner; cbn; auto.
Qed.

Lemma ids_in_effect (w : World) : ids_kept w (in_effect (startNavigationLoop w)).
Proof.
  unfold in_effect, startNavigationLoop, setNavTimer, ids_kept. break_inner; cbn; auto.
Qed.

Lemma ids_runWalkingLoop (now : Z) (w : World) : ids_kept w (runWalkingLoop now w).
Proof. unfold runWalkingLoop, ids_kept. cbn. break_tests; cbn; auto. Qed.

Lemma ids_clearNavTimer (w : World) : ids_kept w (clearNavTimer w).
Proof. unfold clearNavTimer, ids_kept. break_tests; cbn; auto. Qed.

Lemma ids_sync_refs (w : World) : ids_kept w (sync_refs w w).
Proof. unfold sync_refs, ids_kept. break_tests; cbn; auto. Qed.

Lemma ids_mode_effect (now : Z) (snap w : World) : ids_kept w (mode_effect now snap w).
Proof.
  unfold mode_effect.
  destruct (is_active (appState snap)); [|apply ids_clearNavTimer].
  assert (H : ids_kept w (if negb (isAnalyzingFrameRef w) then runWalkingLoop now w else w))
    by (destruct (negb (isAnalyzingFrameRef w));
        [apply ids_runWalkingLoop | apply ids_kept_refl]).
  destruct (navPlan snap); [|exact H].
  destruct (isNavigating snap); [|exact H].
  eapply ids_kept_trans; [exact H|].
  eapply ids_kept_trans; [apply ids_clearNavTimer | apply ids_in_effect].
Qed.

Lemma ids_render_pass (now : Z) (w : World) : ids_kept w (render_pass now w).
Proof.
  unfold render_pass.
  destruct (state_changed w); [|apply ids_kept_refl].
  destruct (deps_changed w); [|apply ids_sync_refs].
  eapply ids_kept_trans; [apply ids_sync_refs | apply ids_mode_effect].
Qed.

Lemma ids_commit (now : Z) (w : World) : ids_kept w (commit now w).
Proof.
  unfold commit.
  do 3 (eapply ids_kept_trans; [|apply (ids_render_pass now)]).
  apply ids_render_pass.
Qed.

Lemma ids_resume (k : Cont) (r : Resp) (w : World) : ids_kept w (resume k r w).
Proof.
  destruct k; cbn [resume awaits_speech];
    try apply ids_in_timer;
    try apply ids_runWalkingLoop;
    try apply ids_kept_refl.
  all: try (unfold_segments; unfold ids_kept; cbn; break_tests; cbn; auto; fail).
  unfold nav_advance.
  destruct (isNavigatingRef w && AppState_beq (appStateRef w) NAVIGATING);
    [|apply ids_kept_refl].
  eapply ids_kept_trans; [|apply ids_in_timer]. split; reflexivity.
Qed.

Lemma press_ids (now : Z) (w : World) :
  id_bounded w ->
  id_bounded (handleButtonPress now w)
  /\ (interactionIdRef (handleButtonPress now w) = interactionIdRef w
      \/ (interactionIdRef (handleButtonPress now w) = now
          /\ interactionIdRef w + 300 <= now)).
Proof.
  unfold id_bounded, handleButtonPress. intros Hb.
  destruct (Z.ltb_spec (now - lastButtonPressRef w) 300) as [Hlt|Hge]; [auto|].
  cbv zeta. fields.
  destruct (appStateRef w); unfold_segments; cbn; break_tests; cbn;
    (split; [lia|]); first [left; reflexivity | right; split; [reflexivity | lia]].
Qed.

Lemma step_ids (e : Event) (w : World) :
  id_bounded w ->
  id_bounded (step e w)
  /\ (interactionIdRef (step e w) = interactionIdRef w
      \/ (interactionIdRef w + 300 <= interactionIdRef (step e w)
          /\ e = E_press (interactionIdRef (step e w)))).
Proof.
  intros Hb. unfold step.
  destruct (ids_commit (event_now e) (dispatch e w)) as [Hc1 Hc2].
  unfold id_bounded in *. rewrite Hc1, Hc2.
  destruct e as [now|id r|now|sev now]; cbn [dispatch].
  - destruct (press_ids now w Hb) as [H1 [H2|[H2 H3]]].
    + split; [exact H1 | now left].
    + split; [exact H1|]. right. rewrite H2. split; [exact H3 | reflexivity].
  - destruct (lookup_cont id (pending w)) as [k|]; [|split; [exact Hb | now left]].
    destruct (ids_resume k r (set_pending (remove_cont id (pending w)) w)) as [H1 H2].
    rewrite H1, H2. split; [exact Hb | now left].
  - assert (H : ids_kept w (watchdog now w)).
    { unfold watchdog.
      destruct (is_active (appStateRef w) && (2000 <? now - lastLoopTimeRef w));
        [|apply ids_kept_refl].
      cbv zeta.
      eapply ids_kept_trans with (b := runWalkingLoop now (set_isAnalyzingFrameRef false w)).
      - eapply ids_kept_trans; [|apply ids_runWalkingLoop]. split; reflexivity.
      - split; reflexivity. }
    destruct H as [H1 H2]. rewrite H1, H2. split; [exact Hb | now left].
  - assert (H : ids_kept w (handleDistress sev w)).
    { unfold handleDistress. unfold_segments. unfold ids_kept. break_tests; cbn; auto. }
    destruct H as [H1 H2]. rewrite H1, H2. split; [exact Hb | now left].
Qed.

Lemma run_app (es1 es2 : list Event) (w : World) :
  run (es1 ++ es2) w = run es2 (run es1 w).
Proof. unfold run. apply fold_left_app. Qed.

Lemma run_cons (e : Event) (es : list Event) (w : World) :
  run (e :: es) w = run es (step e w).
Proof. reflexivity. Qed.

Lemma run_ids (es : list Event) :
  forall w, id_bounded w -> id_bounded (run es w) /\ interactionIdRef w <= interactionIdRef (run es w).
Proof.
  induction es as [|e es IH]; intros w Hb; [split; [exact Hb | cbn; lia]|].
  rewrite run_cons.
  destruct (step_ids e w Hb) as [H1 H2].
  destruct (IH (step e w) H1) as [H3 H4]. split; [exact H3|].
  destruct H2 as [H2|[H2 _]]; lia.
Qed.

(** X1.  Interaction ids never decrease, and a new one exceeds the previous one
    by at least the 300 ms debounce; only a button press issues one. *)
Theorem interaction_ids_increase :
  (forall e w, id_bounded w ->
     id_bounded (step e w)
     /\ (interactionIdRef (step e w) = interactionIdRef w
         \/ (interactionIdRef w + 300 <= interactionIdRef (step e w)
             /\ e = E_press (interactionIdRef (step e w)))))
  /\ (forall t0 es1 es2,
        interactionIdRef (run es1 (initial t0))
        <= interactionIdRef (run (es1 ++ es2) (initial t0))).
Proof.
  split; [exact step_ids|].
  intros t0 es1 es2. rewrite run_app.
  assert (H0 : id_bounded (initial t0)) by (unfold id_bounded; cbn; lia).
  destruct (run_ids es1 (initial t0) H0) as [H1 _].
  now destruct (run_ids es2 _ H1).
Qed.

Lemma interaction_ids_increase_witness :
  id_bounded (step (E_press 1000) (initial 0)).
Proof.
  refine (proj1 (proj1 interaction_ids_increase (E_press 1000) (initial 0) _)).
  unfold id_bounded. vm_compute. discriminate.
Defined.

(** ** Loops outside their modes *)

Lemma runWalkingLoop_inactive (now : Z) (w : World) :
  is_active (appStateRef w) = false -> runWalkingLoop now w = set_lastLoopTimeRef now w.
Proof.
  intros H. unfold runWalkingLoop. cbv zeta. fields.
  destruct (appStateRef w); try discriminate H; reflexivity.
Qed.

Lemma startNavigationLoop_not_navigating (w : World) :
  appStateRef w <> NAVIGATING -> startNavigationLoop w = Returns w.
Proof.
  intros H. unfold startNavigationLoop.
  destruct (navPlanRef w); [|reflexivity].
  rewrite (AppState_beq_neq _ _ H). cbn [negb]. now rewrite orb_true_r.
Qed.

(** X2.  Outside WALKING and NAVIGATING the perception loop and the watchdog are
    inert, and outside NAVIGATING so are the narrator's callbacks: the
    timer or promise is consumed and nothing is captured, spoken or
    scheduled. *)
Theorem loops_inert_outside_their_modes (w : World) (id : nat) (r : Resp) (now : Z) :
  state_changed w = false ->
  (is_active (appState w) = false ->
   step (E_watchdog now) w = w
   /\ (lookup_cont id (pending w) = Some T_walking_loop ->
       step (E_resume id r) w
       = set_lastLoopTimeRef (r_now r) (set_pending (remove_cont id (pending w)) w)))
  /\ (appState w <> NAVIGATING ->
      (lookup_cont id (pending w) = Some T_nav_retry ->
       step (E_resume id r) w = set_pending (remove_cont id (pending w)) w)
      /\ (lookup_cont id (pending w) = Some T_nav_advance ->
          step (E_resume id r) w = set_pending (remove_cont id (pending w)) w)
      /\ (lookup_cont id (pending w) = Some K_nav_step_spoken ->
          step (E_resume id r) w
          = set_isSpeaking false (set_pending (remove_cont id (pending w)) w))).
Proof.
  intros Hc. pose proof (committed_appStateRef w Hc) as Href.
  split.
  - intros Hact. split.
    + unfold step. cbn [dispatch]. unfold watchdog. rewrite Href, Hact. cbn [andb].
      now apply commit_committed.
    + intros Hl. unfold step. rewrite (dispatch_resume id _ r w Hl).
      cbn [resume awaits_speech].
      rewrite runWalkingLoop_inactive by (cbn; now rewrite Href).
      now apply commit_committed.
  - intros Hnav.
    assert (Hnav' : appStateRef w <> NAVIGATING) by now rewrite Href.
    repeat split; intros Hl; unfold step; rewrite (dispatch_resume id _ r w Hl);
      cbn [resume awaits_speech].
    + rewrite startNavigationLoop_not_navigating by (cbn; exact Hnav').
      now apply commit_committed.
    + unfold nav_advance. fields.
      rewrite (AppState_beq_neq _ _ Hnav'), andb_false_r.
      now apply commit_committed.
    + unfold nav_step_spoken. fields.
      rewrite (AppState_beq_neq _ _ Hnav'). cbn [negb].
      now apply commit_committed.
Qed.

Lemma loops_inert_outside_their_modes_witness :
  step (E_watchdog 30000) classifying_world = classifying_world.
Proof.
  exact (proj1 (proj1 (loops_inert_outside_their_modes classifying_world 0
                         (resp0 0) 30000 eq_refl) eq_refl)).
Defined.

(** ** Watchdog restart *)

(** X3.  When the loop has not started a cycle for more than 2 s in an active
    mode with a feature on, the watchdog starts a cycle whatever the guard
    says, announces it, and stamps the heartbeat, so that a tick within the
    next 2 s does nothing. *)
Theorem watchdog_restart_starts_cycle (now : Z) (w : World) :
  state_changed w = false ->
  is_active (appState w) = true ->
  isWalkingFeatureActive w || isNavigating w = true ->
  2000 < now - lastLoopTimeRef w ->
  let w' := step (E_watchdog now) w in
  trace w' = A_speak "Walking mode active." false :: A_capture true true :: trace w
  /\ pending w' = (pending w ++ [(nextId w, K_wl_capture1); (S (nextId w), K_spoken)])%list
  /\ isAnalyzingFrameRef w' = true
  /\ lastLoopTimeRef w' = now
  /\ appState w' = appState w
  /\ forall now', now' - now <= 2000 -> step (E_watchdog now') w' = w'.
Proof.
  intros Hc Hact Hfeat Hlate w'.
  destruct (committed_refs w Hc) as (Ra & Rn & _ & Rw & _).
  set (x := speak "Walking mode active." false K_spoken
              (suspend K_wl_capture1 (emit (A_capture true true)
                 (set_isAnalyzingFrameRef true
                    (set_lastLoopTimeRef now (set_isAnalyzingFrameRef false w)))))).
  assert (D : dispatch (E_watchdog now) w = x).
  { cbn [dispatch]. unfold watchdog.
    rewrite Ra, Hact. apply Z.ltb_lt in Hlate. rewrite Hlate. cbn [andb]. cbv zeta.
    unfold runWalkingLoop. cbv zeta. fields. rewrite Ra, Rw, Rn, Hact, Hfeat.
    cbn [negb orb].
    destruct (appState w); try discriminate Hact; reflexivity. }
  assert (E : w' = x).
  { subst w'. unfold step. rewrite D. apply commit_committed. exact Hc. }
  rewrite E. repeat split.
  - cbn. now rewrite <- app_assoc.
  - intros now' Hsoon. rewrite <- E.
    unfold step. cbn [dispatch event_now]. unfold watchdog.
    replace (lastLoopTimeRef w') with now by (rewrite E; reflexivity).
    replace (2000 <? now' - now) with false by (symmetry; apply Z.ltb_ge; lia).
    rewrite andb_false_r. apply commit_committed. rewrite E. exact Hc.
Qed.

Lemma watchdog_restart_starts_cycle_witness :
  isAnalyzingFrameRef (step (E_watchdog 5500) walking_world) = true.
Proof.
  exact (proj1 (proj2 (proj2 (watchdog_restart_starts_cycle 5500 walking_world
           eq_refl eq_refl eq_refl eq_refl)))).
Defined.

Lemma mode_settles_trans (a b c : AppState) :
  mode_settles a b -> mode_settles b c -> mode_settles a c.
Proof. unfold mode_settles. intros [->|H] [->|H']; auto. Qed.

Lemma mode_render_pass (now : Z) (w : World) :
  mode_settles (appState w) (appState (render_pass now w)).
Proof.
  unfold render_pass. destruct (state_changed w); [|now left]. cbv zeta.
  destruct (sync_refs_view w) as (_ & _ & _ & R4 & _ & _ & _ & _ & _ & _ & _ & S1).
  assert (H1 : mode_settles (appState w) (appState (sync_refs w w))).
  { rewrite S1. unfold mode_settles.
    destruct (appState w); auto. destruct (isNavigating w); auto.
    destruct (isWalkingFeatureActive w); auto. }
  destruct (deps_changed w); [|exact H1].
  destruct (view_mode_effect now w (sync_refs w w)) as [Hv|[_ Har]].
  - destruct Hv as (V1 & _). now rewrite V1.
  - destruct Har as (_ & _ & A3 & _). rewrite A3. unfold mode_settles.
    destruct (isWalkingFeatureActiveRef (sync_refs w w)); auto.
Qed.

Lemma mode_commit (now : Z) (w : World) :
  mode_settles (appState w) (appState (commit now w)).
Proof.
  unfold commit.
  do 3 (eapply mode_settles_trans; [|apply (mode_render_pass now)]).
  apply mode_render_pass.
Qed.

(** ** Cancelling the emergency check *)

Lemma distress_nonaffirmative_reply (a : nat) (r : Resp) (w : World) :
  r_ok r = true -> affirmative (toLowerCase (r_text r)) = false ->
  distress (toLowerCase (r_text r)) = true ->
  emergency_reply a r w = triggerEmergencyAction w.
Proof.
  intros Hok Haff Hd. unfold emergency_reply.
  destruct (nonblank_trim _ (distress_nonblank _ Hd)) as [Ht Hl].
  now rewrite Hok, Ht, Hl, Haff, Hd.
Qed.

(** X4.  A press during the emergency check cancels it: no new interaction is
    started and the mode leaves EMERGENCY_CHECK.  From then on the pending
    prompts of the dialogue start no listening, and silence, a listen error
    or an ambiguous reply change nothing; a late distress reply (one that
    has a distress keyword and no affirmative one) still escalates to
    EMERGENCY_ACTING. *)
Theorem cancelled_check_stays_cancelled (sev : EmergencySeverity) (now : Z) (a : nat)
        (r : Resp) (w : World) :
  checking sev w -> 300 <= now - lastButtonPressRef w ->
  let w1 := step (E_press now) w in
  trace (dispatch (E_press now) w) = A_speak "Emergency check cancelled." false :: trace w
  /\ interactionIdRef w1 = interactionIdRef w
  /\ appState w1 <> EMERGENCY_CHECK
  /\ resume K_em_asked r w1 = set_isSpeaking false w1
  /\ resume (K_nr_reprompted a) r w1 = set_isSpeaking false w1
  /\ (no_response r = true -> resume (K_ev_listen a) r w1 = w1)
  /\ (r_ok r = true -> affirmative (toLowerCase (r_text r)) = false ->
      distress (toLowerCase (r_text r)) = true ->
      appState (resume (K_ev_listen a) r w1) = EMERGENCY_ACTING).
Proof.
  intros [Hs Hc Hv Hf] Hdeb w1.
  pose proof (committed_appStateRef w Hc) as Href.
  assert (D : dispatch (E_press now) w
              = restoreState (speak "Emergency check cancelled." false K_spoken
                                (set_lastButtonPressRef now w))).
  { cbn [dispatch]. unfold handleButtonPress.
    replace (now - lastButtonPressRef w <? 300) with false
      by (symmetry; apply Z.ltb_ge; lia).
    cbv zeta. fields. now rewrite Href, Hs. }
  assert (Hm : appState w1 <> EMERGENCY_CHECK).
  { subst w1. unfold step. rewrite D.
    match goal with |- appState (commit ?n ?x) <> _ =>
      pose proof (mode_commit n x) as Hmc;
      assert (Hx : appState x = NAVIGATING \/ appState x = WALKING \/ appState x = IDLE)
    end.
    { rewrite appState_restoreState. fields.
      destruct (isNavigatingRef w); auto. destruct (isWalkingFeatureActiveRef w); auto. }
    unfold mode_settles in Hmc.
    destruct Hmc as [Hmc|[Hmc|[Hmc|Hmc]]]; rewrite Hmc;
      try discriminate. destruct Hx as [Hx|[Hx|Hx]]; rewrite Hx; discriminate. }
  assert (Hr : appStateRef w1 <> EMERGENCY_CHECK).
  { rewrite (committed_appStateRef w1); [exact Hm|]. apply commit_settled. }
  apply AppState_beq_neq in Hr.
  repeat split.
  - rewrite D. unfold restoreState. fields.
    destruct (isNavigatingRef w); [|destruct (isWalkingFeatureActiveRef w)]; reflexivity.
  - subst w1. unfold step. destruct (ids_commit (event_now (E_press now))
                                       (dispatch (E_press now) w)) as [H1 _].
    rewrite H1, D. unfold restoreState. fields.
    destruct (isNavigatingRef w); [|destruct (isWalkingFeatureActiveRef w)]; reflexivity.
  - exact Hm.
  - cbn [resume awaits_speech]. unfold performEmergencyVerification. fields.
    now rewrite Hr.
  - cbn [resume awaits_speech]. unfold performEmergencyVerification. fields.
    now rewrite Hr.
  - intros Hno. cbn [resume awaits_speech].
    rewrite (emergency_reply_no_response a r w1 Hno).
    unfold handleNoResponse. now rewrite Hr.
  - intros Hok Haff Hd. cbn [resume awaits_speech].
    now rewrite (distress_nonaffirmative_reply a r w1 Hok Haff Hd).
Qed.

Lemma cancelled_check_stays_cancelled_witness :
  resume (K_ev_listen 1) (resp_text 9000 "") (step (E_press 8000) asked_world)
  = step (E_press 8000) asked_world.
Proof.
  assert (Hchk : checking medium asked_world).
  { constructor; try reflexivity. unfold fresh. vm_compute. repeat constructor. }
  refine (proj1 (proj2 (proj2 (proj2 (proj2 (proj2
            (cancelled_check_stays_cancelled medium 8000 1 (resp_text 9000 "")
               asked_world Hchk _)))))) eq_refl).
  vm_compute. discriminate.
Defined.

(** ** Transcripts that are too short *)

Lemma trim_empty_length (s : string) : truthy s = false -> js_length (trim s) = 0%nat.
Proof. destruct s; [reflexivity | discriminate]. Qed.

(** X5.  The transcript of a button-press interaction reaches the classifier
    only if its trimmed text has at least two UTF-16 code units, and then it
    is sent as recorded (untrimmed); a shorter one is answered with the
    retry prompt "I didn’t hear you, please try again." (with the
    typographic apostrophe U+2019), spoken with priority, after which the
    mode is restored from the toggles. *)
Theorem short_transcript_rejected (cid : Z) (r r' : Resp) (w : World) :
  r_ok r = true -> interactionIdRef w = cid ->
  ((js_length (trim (r_text r)) < 2)%nat ->
   resume (K_hb_listen cid) r w
   = speak "I didn’t hear you, please try again." true K_hb_retry_spoken w
   /\ appState (resume K_hb_retry_spoken r' (resume (K_hb_listen cid) r w))
      = (if isNavigatingRef w then NAVIGATING
         else if isWalkingFeatureActiveRef w then WALKING else IDLE))
  /\ ((2 <= js_length (trim (r_text r)))%nat ->
      resume (K_hb_listen cid) r w
      = suspend (K_pc_classify cid)
          (emit (A_classifyIntent (r_text r))
             (playSound snd_end (set_appState PROCESSING_INTENT w)))).
Proof.
  intros Hok Hid. cbn [resume awaits_speech].
  unfold hb_after_listen, is_current. rewrite Hok, Hid, Z.eqb_refl. cbn [negb]. cbv zeta.
  split.
  - intros Hlt. apply Nat.ltb_lt in Hlt. rewrite Hlt, orb_true_r.
    split; [reflexivity|]. now rewrite appState_restoreState.
  - intros Hge.
    assert (Ht : truthy (r_text r) = true).
    { destruct (truthy (r_text r)) eqn:E; [reflexivity|].
      rewrite (trim_empty_length _ E) in Hge. lia. }
    apply Nat.ltb_ge in Hge. rewrite Hge, Ht. cbn [negb orb].
    unfold processCommand, is_current. now rewrite Hid, Z.eqb_refl, Ht.
Qed.

(** A transcript of one accented letter between no-break spaces (U+00A0):
    six bytes, and one UTF-16 code unit once trimmed. *)
Lemma short_transcript_rejected_witness :
  resume (K_hb_listen 1000) (resp_text 1500 " é ") (run [E_press 1000] (initial 0))
  = speak "I didn’t hear you, please try again." true K_hb_retry_spoken
      (run [E_press 1000] (initial 0)).
Proof.
  refine (proj1 (proj1 (short_transcript_rejected 1000 (resp_text 1500 " é ") (resp0 0)
                          (run [E_press 1000] (initial 0)) eq_refl eq_refl) _)).
  vm_compute. lia.
Defined.

(** X6.  A rejection is swallowed when its message is "Aborted" or the
    interaction is superseded; otherwise the mode becomes ERROR, the error
    tone and "Error processing request." are played, and the 3 s timer
    restores the mode from the toggles. *)
Theorem rejection_handling (k : Cont) (cid : Z) (r r' : Resp) (w : World) :
  may_reject k cid = true -> r_ok r = false ->
  (r_error r = "Aborted" \/ interactionIdRef w <> cid -> resume k r w = w)
  /\ (r_error r <> "Aborted" -> interactionIdRef w = cid ->
      resume k r w = handleError "Error processing request." w
      /\ appState (resume k r w) = ERROR
      /\ trace (resume k r w)
         = ([A_setTimeout T_restore 3000; A_speak "Error processing request." false;
             A_playSound snd_error] ++ trace w)%list
      /\ appState (resume T_restore r' (resume k r w))
         = (if isNavigatingRef w then NAVIGATING
            else if isWalkingFeatureActiveRef w then WALKING else IDLE)).
Proof.
  intros Hk Hok.
  assert (E : resume k r w = pc_catch cid r w).
  { destruct k; try discriminate; cbn [may_reject] in Hk; apply Z.eqb_eq in Hk; subst;
      cbn [resume awaits_speech];
      unfold pc_after_classify, pc_after_directions, pc_after_capture, pc_after_analysis;
      now rewrite Hok. }
  rewrite E. unfold pc_catch, is_current. split.
  - intros [Ha|Hs].
    + rewrite Ha. reflexivity.
    + apply Z.eqb_neq in Hs. rewrite Hs. now destruct (String.eqb (r_error r) "Aborted").
  - intros Ha Hid. apply String.eqb_neq in Ha. rewrite Ha, Hid, Z.eqb_refl. cbn [negb].
    repeat split. cbn [resume awaits_speech]. now rewrite appState_restoreState.
Qed.

Lemma rejection_handling_witness :
  appState (resume (K_pc_classify 1000) (resp_error 1600 "Network error")
              (run [E_press 1000; E_resume 1 (resp_text 1500 "what is this")] (initial 0)))
  = ERROR.
Proof.
  exact (proj1 (proj2 (proj2 (rejection_handling (K_pc_classify 1000) 1000
           (resp_error 1600 "Network error") (resp0 0)
           (run [E_press 1000; E_resume 1 (resp_text 1500 "what is this")] (initial 0))
           eq_refl eq_refl) ltac:(discriminate) eq_refl))).
Defined.

(** ** Distress signals *)

Lemma lookup_cont_cleared (id n : nat) (k : Cont) (l : list (nat * Cont)) :
  (id < n)%nat ->
  lookup_cont id (filter (fun e => negb (Nat.eqb (fst e) id)) l ++ [(n, k)]) = None.
Proof.
  intros Hlt. induction l as [|[j kj] l IH]; cbn.
  - destruct (Nat.eqb_spec n id); [lia | reflexivity].
  - destruct (Nat.eqb_spec j id) as [->|Hne]; cbn; [exact IH|].
    destruct (Nat.eqb_spec j id); [contradiction | exact IH].
Qed.

Lemma severity_in_effect (w : World) :
  emergencySeverityRef (in_effect (startNavigationLoop w)) = emergencySeverityRef w.
Proof. unfold in_effect, startNavigationLoop, setNavTimer. break_inner; reflexivity. Qed.

Lemma severity_runWalkingLoop (now : Z) (w : World) :
  emergencySeverityRef (runWalkingLoop now w) = emergencySeverityRef w.
Proof. unfold runWalkingLoop. cbv zeta. break_tests; reflexivity. Qed.

Lemma severity_clearNavTimer (w : World) :
  emergencySeverityRef (clearNavTimer w) = emergencySeverityRef w.
Proof. unfold clearNavTimer. now destruct (navTimerRef w). Qed.

Lemma severity_sync_refs (snap w : World) :
  emergencySeverityRef (sync_refs snap w) = emergencySeverityRef w.
Proof. unfold sync_refs. cbv zeta. break_tests; reflexivity. Qed.

Lemma severity_mode_effect (now : Z) (snap w : World) :
  emergencySeverityRef (mode_effect now snap w) = emergencySeverityRef w.
Proof.
  unfold mode_effect.
  destruct (is_active (appState snap)); [|apply severity_clearNavTimer].
  cbv zeta.
  assert (H : emergencySeverityRef
                (if negb (isAnalyzingFrameRef w) then runWalkingLoop now w else w)
              = emergencySeverityRef w)
    by (destruct (negb (isAnalyzingFrameRef w));
        [apply severity_runWalkingLoop | reflexivity]).
  destruct (navPlan snap); [|exact H].
  destruct (isNavigating snap); [|exact H].
  now rewrite severity_in_effect, severity_clearNavTimer.
Qed.

Lemma severity_render_pass (now : Z) (w : World) :
  emergencySeverityRef (render_pass now w) = emergencySeverityRef w.
Proof.
  unfold render_pass.
  destruct (state_changed w); [|reflexivity]. cbv zeta.
  destruct (deps_changed w); [|apply severity_sync_refs].
  now rewrite severity_mode_effect, severity_sync_refs.
Qed.

Lemma severity_commit (now : Z) (w : World) :
  emergencySeverityRef (commit now w) = emergencySeverityRef w.
Proof. unfold commit. now rewrite !severity_render_pass. Qed.

(** X7.  A distress signal is dropped while the user is dictating a command or
    an emergency is being handled.  In every other mode it aborts the
    running interaction, stops speech, cancels the narrator's timer,
    records the severity, enters EMERGENCY_CHECK and asks the question with
    priority. *)
Theorem distress_gating (sev : EmergencySeverity) (now : Z) (w : World) :
  state_changed w = false ->
  (ignores_distress (appState w) = true -> step (E_distress sev now) w = w)
  /\ (ignores_distress (appState w) = false ->
      let w' := step (E_distress sev now) w in
      appState w' = EMERGENCY_CHECK
      /\ emergencySeverityRef w' = sev
      /\ isSpeaking w' = true
      /\ trace w' = (A_speak ARE_YOU_OKAY true :: A_stopSpeaking
                     :: (if abortControllerRef w then [A_abort] else []) ++ trace w)%list
      /\ (forall id, navTimerRef w = Some id -> (id < nextId w)%nat ->
          lookup_cont id (pending (dispatch (E_distress sev now) w)) = None)).
Proof.
  intros Hc. pose proof (committed_appStateRef w Hc) as Href.
  split.
  - intros Hi. unfold step. cbn [dispatch]. unfold handleDistress. rewrite Href.
    destruct (appState w); try discriminate Hi; now apply commit_committed.
  - intros Hi w'.
    assert (D : dispatch (E_distress sev now) w = triggerEmergencyCheck sev w).
    { cbn [dispatch]. unfold handleDistress. rewrite Href.
      destruct (appState w); try discriminate Hi; reflexivity. }
    subst w'. unfold step. rewrite D.
    destruct (commit_inactive (event_now (E_distress sev now)) (triggerEmergencyCheck sev w))
      as (H1 & H2 & _ & H4 & _).
    { unfold triggerEmergencyCheck. reflexivity. }
    { unfold triggerEmergencyCheck. discriminate. }
    rewrite H1, H2, H4, trace_triggerEmergencyCheck.
    rewrite severity_commit.
    split; [reflexivity|]. split.
    { unfold triggerEmergencyCheck, clearNavTimer.
      destruct (abortControllerRef w); cbn; destruct (navTimerRef w); reflexivity. }
    split; [reflexivity|]. split; [reflexivity|].
    intros id Hid Hlt. unfold triggerEmergencyCheck, clearNavTimer. cbv zeta.
    destruct (abortControllerRef w); cbn; rewrite Hid; cbn;
      now apply lookup_cont_cleared.
Qed.

Lemma distress_gating_witness :
  appState (step (E_distress high 4000) walking_world) = EMERGENCY_CHECK.
Proof.
  exact (proj1 (proj2 (distress_gating high 4000 walking_world eq_refl) eq_refl)).
Defined.

(** X8.  A visual command that is not superseded goes through CAPTURING,
    ANALYZING and SPEAKING: "Checking...", a 400 ms settle delay, a
    full-resolution audible capture, the analysis request for that frame,
    the answer spoken, and finally the mode restored from the toggles.  A
    null frame instead ends in ERROR with "Camera error." and no analysis
    request. *)
Theorem visual_pipeline (cid : Z) (r1 r2 r3 r4 r5 : Resp) (frame : string) (w : World) :
  interactionIdRef w = cid ->
  r_ok r1 = true -> plain_visual (type (r_intent r1)) = true ->
  r_ok r3 = true -> r_ok r4 = true ->
  let intent := r_intent r1 in
  let w1 := resume (K_pc_classify cid) r1 w in
  let w2 := resume (K_pc_settle cid intent) r2 w1 in
  let w3 := resume (K_pc_capture cid intent) r3 w2 in
  let w4 := resume (K_pc_analysis cid) r4 w3 in
  let w5 := resume K_pc_answer_spoken r5 w4 in
  appState w1 = CAPTURING
  /\ trace w2 = ([A_capture false false; A_setTimeout (K_pc_settle cid intent) 400;
                  A_speak "Checking..." false] ++ trace w)%list
  /\ (r_frame r3 = Some frame -> frame <> "" ->
      appState w3 = ANALYZING /\ appState w4 = SPEAKING
      /\ trace w5 = ([A_speak (r_text r4) false; A_analyzeImage frame] ++ trace w2)%list
      /\ appState w5 = (if isNavigatingRef w then NAVIGATING
                        else if isWalkingFeatureActiveRef w then WALKING else IDLE))
  /\ (no_frame (r_frame r3) = true ->
      appState w3 = ERROR
      /\ trace w3 = ([A_setTimeout T_restore 3000; A_speak "Camera error." false;
                      A_playSound snd_error] ++ trace w2)%list).
Proof.
  intros Hid Hok1 Hty Hok3 Hok4 intent w1 w2 w3 w4 w5. subst intent.
  set (intent := r_intent r1) in *.
  assert (E1 : w1 = suspend (K_pc_settle cid intent)
                      (emit (A_setTimeout (K_pc_settle cid intent) 400)
                         (speak "Checking..." false K_spoken (set_appState CAPTURING w)))).
  { subst w1. cbn [resume awaits_speech].
    unfold pc_after_classify, pc_begin_capture, is_current.
    rewrite Hok1, Hid, Z.eqb_refl. cbn [negb]. cbv zeta. fold intent.
    destruct (type intent) eqn:Et; try discriminate Hty; rewrite ?Et;
      cbn [IntentType_beq negb]; reflexivity. }
  assert (E2 : w2 = suspend (K_pc_capture cid intent) (emit (A_capture false false) w1)).
  { subst w2. cbn [resume awaits_speech]. unfold pc_after_settle, is_current.
    replace (interactionIdRef w1) with cid by (rewrite E1; symmetry; exact Hid).
    now rewrite Z.eqb_refl. }
  split; [rewrite E1; reflexivity|].
  split; [rewrite E2, E1; reflexivity|].
  split.
  - intros Hf Hne.
    assert (Hnf : no_frame (r_frame r3) = false).
    { rewrite Hf. unfold no_frame, otruthy, truthy.
      destruct (String.eqb_spec frame ""); [contradiction | reflexivity]. }
    assert (E3 : w3 = suspend (K_pc_analysis cid)
                        (emit (A_analyzeImage frame) (set_appState ANALYZING w2))).
    { subst w3. cbn [resume awaits_speech]. unfold pc_after_capture.
      rewrite Hok3, Hnf, Hf. reflexivity. }
    assert (E4 : w4 = speak (r_text r4) false K_pc_answer_spoken (set_appState SPEAKING w3)).
    { subst w4. cbn [resume awaits_speech]. unfold pc_after_analysis, is_current.
      replace (interactionIdRef w3) with cid
        by (rewrite E3, E2, E1; symmetry; exact Hid).
      now rewrite Hok4, Z.eqb_refl. }
    split; [rewrite E3; reflexivity|]. split; [rewrite E4; reflexivity|].
    subst w5. cbn [resume awaits_speech]. rewrite appState_restoreState.
    split.
    + unfold restoreState. fields.
      assert (Ht : trace w4 = (A_speak (r_text r4) false :: A_analyzeImage frame
                                 :: trace w2)%list)
        by (rewrite E4, E3; reflexivity).
      destruct (isNavigatingRef w4); [|destruct (isWalkingFeatureActiveRef w4)];
        fields; exact Ht.
    + fields. rewrite E4, E3, E2, E1. reflexivity.
  - intros Hnf. subst w3. cbn [resume awaits_speech]. unfold pc_after_capture.
    rewrite Hok3, Hnf. cbn [negb]. split; reflexivity.
Qed.

Lemma visual_pipeline_witness :
  appState (resume (K_pc_classify 1000) (resp_intent 1600 DESCRIBE None)
              (run [E_press 1000; E_resume 1 (resp_text 1500 "what is this")] (initial 0)))
  = CAPTURING.
Proof.
  exact (proj1 (visual_pipeline 1000 (resp_intent 1600 DESCRIBE None) (resp0 0)
                  (resp0 0) (resp0 0) (resp0 0) ""
                  (run [E_press 1000; E_resume 1 (resp_text 1500 "what is this")] (initial 0))
                  eq_refl eq_refl eq_refl eq_refl eq_refl)).
Defined.

(** ** The effects settle *)

(** X9.  Whatever the handlers did to the state, the renders that follow (ref
    synchronisation, mode inference, loop start, arrival) reach a fixed
    point within four passes: afterwards every ref holds the value of its
    state cell and a further commit changes nothing. *)
Theorem effects_settle (now : Z) (w : World) :
  state_changed (commit now w) = false
  /\ commit now (commit now w) = commit now w
  /\ appStateRef (commit now w) = appState (commit now w)
  /\ isNavigatingRef (commit now w) = isNavigating (commit now w)
  /\ navPlanRef (commit now w) = navPlan (commit now w)
  /\ isWalkingFeatureActiveRef (commit now w) = isWalkingFeatureActive (commit now w)
  /\ isCompanionModeRef (commit now w) = isCompanionMode (commit now w)
  /\ stepIndexRef (commit now w) = currentStepIndex (commit now w).
Proof.
  pose proof (commit_settled now w) as H.
  split; [exact H|]. split; [now apply commit_committed|].
  exact (committed_refs _ H).
Qed.

(** ** Cadence of the companion phrases *)

Lemma stamp_in_timer (w : World) :
  lastCompanionMsgRef (in_timer (startNavigationLoop w)) = lastCompanionMsgRef w.
Proof. unfold in_timer, startNavigationLoop, setNavTimer. break_inner; reflexivity. Qed.

Lemma stamp_in_effect (w : World) :
  lastCompanionMsgRef (in_effect (startNavigationLoop w)) = lastCompanionMsgRef w.
Proof. unfold in_effect, startNavigationLoop, setNavTimer. break_inner; reflexivity. Qed.

Lemma stamp_runWalkingLoop (now : Z) (w : World) :
  lastCompanionMsgRef (runWalkingLoop now w) = lastCompanionMsgRef w.
Proof. unfold runWalkingLoop. cbv zeta. break_tests; reflexivity. Qed.

Lemma stamp_clearNavTimer (w : World) :
  lastCompanionMsgRef (clearNavTimer w) = lastCompanionMsgRef w.
Proof. unfold clearNavTimer. now destruct (navTimerRef w). Qed.

Lemma stamp_sync_refs (snap w : World) :
  lastCompanionMsgRef (sync_refs snap w) = lastCompanionMsgRef w.
Proof. unfold sync_refs. cbv zeta. break_tests; reflexivity. Qed.

Lemma stamp_mode_effect (now : Z) (snap w : World) :
  lastCompanionMsgRef (mode_effect now snap w) = lastCompanionMsgRef w.
Proof.
  unfold mode_effect.
  destruct (is_active (appState snap)); [|apply stamp_clearNavTimer].
  cbv zeta.
  assert (H : lastCompanionMsgRef
                (if negb (isAnalyzingFrameRef w) then runWalkingLoop now w else w)
              = lastCompanionMsgRef w)
    by (destruct (negb (isAnalyzingFrameRef w));
        [apply stamp_runWalkingLoop | reflexivity]).
  destruct (navPlan snap); [|exact H].
  destruct (isNavigating snap); [|exact H].
  now rewrite stamp_in_effect, stamp_clearNavTimer.
Qed.

Lemma stamp_render_pass (now : Z) (w : World) :
  lastCompanionMsgRef (render_pass now w) = lastCompanionMsgRef w.
Proof.
  unfold render_pass.
  destruct (state_changed w); [|reflexivity]. cbv zeta.
  destruct (deps_changed w); [|apply stamp_sync_refs].
  now rewrite stamp_mode_effect, stamp_sync_refs.
Qed.

Lemma stamp_commit (now : Z) (w : World) :
  lastCompanionMsgRef (commit now w) = lastCompanionMsgRef w.
Proof. unfold commit. now rewrite !stamp_render_pass. Qed.

Lemma stamp_resume (k : Cont) (r : Resp) (w : World) :
  lastCompanionMsgRef (resume k r w) = lastCompanionMsgRef w
  \/ lastCompanionMsgRef (resume k r w) = r_now r.
Proof.
  destruct k; cbn [resume awaits_speech];
    try (left; apply stamp_in_timer);
    try (left; apply stamp_runWalkingLoop);
    try (left; reflexivity).
  all: try (unfold_segments; cbn; break_tests; cbn; auto; fail).
  left. unfold nav_advance.
  destruct (isNavigatingRef w && AppState_beq (appStateRef w) NAVIGATING); [|reflexivity].
  now rewrite stamp_in_timer.
Qed.

Lemma stamp_step (e : Event) (w : World) :
  lastCompanionMsgRef (step e w) = lastCompanionMsgRef w
  \/ lastCompanionMsgRef (step e w) = event_now e.
Proof.
  unfold step. rewrite stamp_commit.
  destruct e as [now|id r|now|sev now]; cbn [dispatch event_now].
  - left. unfold handleButtonPress. unfold_segments. break_tests; reflexivity.
  - destruct (lookup_cont id (pending w)) as [k|]; [|now left].
    apply (stamp_resume k r (set_pending (remove_cont id (pending w)) w)).
  - left. unfold watchdog.
    destruct (is_active (appStateRef w) && (2000 <? now - lastLoopTimeRef w)); [|reflexivity].
    cbv zeta. unfold speak, suspend, emit. fields. now rewrite stamp_runWalkingLoop.
  - left. unfold handleDistress. unfold_segments. break_tests; reflexivity.
Qed.

Lemma filler_step (e : Event) (w : World) :
  speaks_filler e w = true ->
  15000 < event_now e - lastCompanionMsgRef w
  /\ lastCompanionMsgRef (step e w) = event_now e.
Proof.
  destruct e as [now|id r|now|sev now]; try discriminate. cbn [speaks_filler].
  destruct (lookup_cont id (pending w)) as [k|] eqn:Hl; [|discriminate].
  destruct k; try discriminate. unfold filler_branch. intros H.
  rewrite !andb_true_iff in H.
  destruct H as ((((((Hok & Hfall) & Hact) & Hreal) & Hcomp) & Hsp) & Hgap).
  apply negb_true_iff in Hfall, Hreal.
  split; [now apply Z.ltb_lt|].
  unfold step. rewrite stamp_commit, (dispatch_resume id _ r w Hl).
  cbn [resume awaits_speech event_now]. unfold wl_after_analysis. fields.
  rewrite Hok, Hfall, Hact, Hreal, Hcomp, Hsp. cbn [negb andb]. cbv zeta.
  rewrite Hgap.
  unfold wl_finally. cbv zeta. fields. break_tests; reflexivity.
Qed.

Lemma nondecreasing_Forall (t : Z) (es : list Event) :
  nondecreasing t es -> Forall (fun e => t <= event_now e) es.
Proof.
  revert t; induction es as [|e es IH]; intros t H; [constructor|].
  destruct H as [H1 H2]. constructor; [exact H1|].
  eapply Forall_impl; [|apply (IH _ H2)]. intros a Ha. cbn in Ha. lia.
Qed.

Lemma filler_times_after (es : list Event) :
  forall w lb, lb <= lastCompanionMsgRef w ->
    Forall (fun e => lb <= event_now e) es ->
    Forall (fun t => lb + 15000 < t) (filler_times es w).
Proof.
  induction es as [|e es IH]; intros w lb Hlb Hes; [constructor|].
  inversion Hes as [|? ? He Hes']; subst. cbn [filler_times].
  assert (Hnext : lb <= lastCompanionMsgRef (step e w))
    by (destruct (stamp_step e w) as [->| ->]; assumption).
  specialize (IH (step e w) lb Hnext Hes').
  destruct (speaks_filler e w) eqn:Hf; [|exact IH].
  destruct (filler_step e w Hf) as [Hgap _].
  constructor; [lia | exact IH].
Qed.

(** X10.  With a clock that does not go backwards, any two companion phrases of
    a run are more than 15 s apart; a filler is spoken only from the
    companion branch of the analysed frame, where it stamps the companion
    timer, and every other way through that continuation speaks no
    non-priority text except "Path clear.". *)
Theorem companion_phrases_spaced :
  (forall t es w, nondecreasing t es ->
     ForallOrdPairs (fun a b => a + 15000 < b) (filler_times es w))
  /\ (forall r w, filler_branch r w = true ->
        exists l, trace (resume K_wl_analysis r w)
                  = (l ++ A_speak (nth (r_phrase r) COMPANION_PHRASES "") false
                       :: trace w)%list
                  /\ forallb (fun a => negb (speaks a)) l = true)
  /\ (forall r w, filler_branch r w = false ->
        exists l, trace (resume K_wl_analysis r w) = (l ++ trace w)%list
                  /\ forallb (fun a => match a with
                                       | A_speak t false => String.eqb t "Path clear."
                                       | _ => true
                                       end) l = true).
Proof.
  split; [|split].
  - intros t es. revert t. induction es as [|e es IH]; intros t w Hnd; [constructor|].
    destruct Hnd as [Ht Hnd]. cbn [filler_times].
    specialize (IH (event_now e) (step e w) Hnd).
    destruct (speaks_filler e w) eqn:Hf; [|exact IH].
    destruct (filler_step e w Hf) as [_ Hstamp].
    cbn [app]. constructor; [|exact IH].
    apply filler_times_after; [rewrite Hstamp; lia|].
    now apply nondecreasing_Forall.
  - intros r w H. unfold filler_branch in H.
    rewrite !andb_true_iff in H.
    destruct H as ((((((Hok & Hfall) & Hact) & Hreal) & Hcomp) & Hsp) & Hgap).
    apply negb_true_iff in Hfall, Hreal.
    cbn [resume awaits_speech]. unfold wl_after_analysis.
    rewrite Hok, Hfall, Hact, Hreal, Hcomp, Hsp. cbn [negb andb]. cbv zeta. rewrite Hgap.
    unfold wl_finally. cbv zeta. fields.
    destruct (is_active (appStateRef w) && negb (AppState_beq (appStateRef w) LISTENING));
      cbn; new_actions; reflexivity.
  - intros r w H. cbn [resume awaits_speech]. unfold wl_after_analysis.
    unfold filler_branch in H.
    destruct (r_ok r); cbn [negb andb] in *.
    2:{ unfold wl_finally. cbv zeta. fields. break_tests; cbn; new_actions; reflexivity. }
    destruct (is_fall (r_hazard r)); cbn [negb andb] in *.
    { unfold wl_finally, triggerEmergencyCheck, clearNavTimer. cbv zeta.
      break_tests; cbn; new_actions; reflexivity. }
    destruct (is_active (appStateRef w)) eqn:Ha; cbn [negb andb] in *.
    2:{ unfold wl_finally. cbv zeta. fields. rewrite Ha. cbn. new_actions. reflexivity. }
    destruct (is_real_hazard (r_hazard r)); cbn [negb andb] in *.
    { cbn. new_actions. reflexivity. }
    destruct (isCompanionModeRef w); cbn [negb andb] in *.
    + destruct (isSpeaking w); cbn [negb andb] in *.
      * unfold wl_finally. cbv zeta. fields. rewrite Ha. break_tests; cbn; new_actions;
          reflexivity.
      * cbv zeta. rewrite H.
        unfold wl_finally. cbv zeta. fields. rewrite Ha. break_tests; cbn; new_actions;
          reflexivity.
    + destruct (r_random_gt_095 r && negb (isSpeaking w)).
      * cbn. new_actions. reflexivity.
      * unfold wl_finally. cbv zeta. fields. rewrite Ha. break_tests; cbn; new_actions;
          reflexivity.
Qed.

Lemma companion_phrases_spaced_witness :
  filler_times filler_run walking_world = [20000]
  /\ ForallOrdPairs (fun a b => a + 15000 < b) (filler_times filler_run walking_world).
Proof.
  split; [vm_compute; reflexivity|].
  refine (proj1 companion_phrases_spaced 0 filler_run walking_world _).
  cbn. lia.
Defined.

(** ** The component stays mounted *)

Ltac mounted_by Hm Hp Hr :=
  unfold well_mounted, unmounted in *; cbn;
  repeat split; rewrite ?Hm, ?Hp, ?Hr; auto.

Lemma well_mounted_runWalkingLoop (now : Z) (w : World) :
  well_mounted w -> well_mounted (runWalkingLoop now w).
Proof. intros (Hm & Hp & Hr). unfold runWalkingLoop. break_tests; mounted_by Hm Hp Hr. Qed.

Lemma well_mounted_clearNavTimer (w : World) :
  well_mounted w -> well_mounted (clearNavTimer w).
Proof. intros (Hm & Hp & Hr). unfold clearNavTimer. break_tests; mounted_by Hm Hp Hr. Qed.

Lemma well_mounted_sync_refs (w : World) : well_mounted w -> well_mounted (sync_refs w w).
Proof. intros (Hm & Hp & Hr). unfold sync_refs. break_tests; mounted_by Hm Hp Hr. Qed.

(** With a plan that has steps the narrator does not throw. *)
Lemma well_mounted_startNavigationLoop (w : World) :
  well_mounted w -> exists w', startNavigationLoop w = Returns w' /\ well_mounted w'.
Proof.
  intros H. pose proof H as (Hm & Hp & Hr). unfold startNavigationLoop.
  destruct (navPlanRef w) as [plan|] eqn:E; [|now exists w].
  destruct (negb (isNavigatingRef w) || negb (AppState_beq (appStateRef w) NAVIGATING));
    [now exists w|].
  cbn in Hr. destruct (steps plan) as [l|] eqn:El; [|discriminate Hr].
  cbv zeta. destruct (nth_error l (stepIndexRef w)).
  - destruct (negb (isSpeaking w)); eexists; (split; [reflexivity|]);
      unfold well_mounted, unmounted; cbn; repeat split; auto; rewrite E; cbn; now rewrite El.
  - eexists; split; [reflexivity|].
    unfold well_mounted, unmounted; cbn; repeat split; auto. rewrite E. cbn. now rewrite El.
Qed.

Lemma well_mounted_in_timer (w : World) :
  well_mounted w -> well_mounted (in_timer (startNavigationLoop w)).
Proof.
  intros H. destruct (well_mounted_startNavigationLoop w H) as (w' & E & H'). now rewrite E.
Qed.

Lemma well_mounted_in_effect (w : World) :
  well_mounted w -> well_mounted (in_effect (startNavigationLoop w)).
Proof.
  intros H. destruct (well_mounted_startNavigationLoop w H) as (w' & E & H'). now rewrite E.
Qed.

Lemma well_mounted_mode_effect (now : Z) (snap w : World) :
  well_mounted w -> well_mounted (mode_effect now snap w).
Proof.
  intros H. unfold mode_effect.
  destruct (is_active (appState snap)); [|now apply well_mounted_clearNavTimer].
  assert (H1 : well_mounted (if negb (isAnalyzingFrameRef w) then runWalkingLoop now w else w))
    by (destruct (negb (isAnalyzingFrameRef w)); [now apply well_mounted_runWalkingLoop | exact H]).
  destruct (navPlan snap); [|exact H1].
  destruct (isNavigating snap); [|exact H1].
  apply well_mounted_in_effect. now apply well_mounted_clearNavTimer.
Qed.

Lemma well_mounted_render_pass (now : Z) (w : World) :
  well_mounted w -> well_mounted (render_pass now w).
Proof.
  intros H. unfold render_pass.
  destruct (state_changed w); [|exact H].
  destruct (deps_changed w); [|now apply well_mounted_sync_refs].
  apply well_mounted_mode_effect. now apply well_mounted_sync_refs.
Qed.

Lemma well_mounted_commit (now : Z) (w : World) :
  well_mounted w -> well_mounted (commit now w).
Proof. intros H. unfold commit. now do 4 apply well_mounted_render_pass. Qed.

Lemma well_mounted_resume (k : Cont) (r : Resp) (w : World) :
  has_steps (r_plan r) = true -> well_mounted w -> well_mounted (resume k r w).
Proof.
  intros Hplan (Hm & Hp & Hr).
  destruct k; cbn [resume awaits_speech];
    try (apply well_mounted_in_timer; mounted_by Hm Hp Hr; fail);
    try (apply well_mounted_runWalkingLoop; mounted_by Hm Hp Hr; fail).
  all: try (unfold_segments; break_tests; mounted_by Hm Hp Hr; fail).
  unfold nav_advance.
  destruct (isNavigatingRef w && AppState_beq (appStateRef w) NAVIGATING);
    [|now repeat split].
  apply well_mounted_in_timer. now repeat split.
Qed.

Lemma well_mounted_dispatch (e : Event) (w : World) :
  delivers_steps e = true -> well_mounted w -> well_mounted (dispatch e w).
Proof.
  intros He H. pose proof H as (Hm & Hp & Hr).
  destruct e as [now|id r|now|sev now]; cbn [dispatch].
  - unfold handleButtonPress, restoreState. unfold_segments. break_tests; mounted_by Hm Hp Hr.
  - destruct (lookup_cont id (pending w)); [|exact H].
    apply well_mounted_resume; [exact He | now repeat split].
  - unfold watchdog. destruct (is_active (appStateRef w) && _); [|exact H].
    unfold speak, suspend, emit.
    assert (H1 : well_mounted (runWalkingLoop now (set_isAnalyzingFrameRef false w)))
      by (apply well_mounted_runWalkingLoop; now repeat split).
    destruct H1 as (Gm & Gp & Gr). mounted_by Gm Gp Gr.
  - unfold handleDistress, triggerEmergencyCheck. unfold_segments.
    break_tests; mounted_by Hm Hp Hr.
Qed.

Lemma well_mounted_step (e : Event) (w : World) :
  delivers_steps e = true -> well_mounted w -> well_mounted (step e w).
Proof. intros He H. unfold step. now apply well_mounted_commit, well_mounted_dispatch. Qed.

(** As long as no plan without a steps array is delivered, the component
    stays mounted: the narrator does not throw. *)
Lemma run_stays_mounted (es : list Event) (w : World) :
  forallb delivers_steps es = true -> well_mounted w -> well_mounted (run es w).
Proof.
  revert w. induction es as [|e es IH]; intros w Hes H; [exact H|].
  cbn [forallb] in Hes. apply andb_true_iff in Hes. destruct Hes as [He Hes].
  change (run (e :: es) w) with (run es (step e w)).
  apply IH; [exact Hes | now apply well_mounted_step].
Qed.

Lemma well_mounted_initial (t0 : Z) : well_mounted (initial t0).
Proof. now repeat split. Qed.

(** * Properties of geminiService.ts *)

Lemma retry_loop_spec {A : Type} (api : nat -> Outcome A) (retryCount : nat) (fuel : nat) :
  forall i delay, (i + fuel = retryCount)%nat -> (0 < fuel)%nat ->
    exists n, (i + n < retryCount)%nat
      /\ snd (retry_loop api retryCount i delay fuel) = backoff delay n
      /\ (forall j, (j < n)%nat -> recoverable_failure (api (i + j)%nat))
      /\ match api (i + n)%nat with
         | Resolved a => fst (retry_loop api retryCount i delay fuel) = Returned a
         | Rejected e =>
           fst (retry_loop api retryCount i delay fuel) = Threw e
           /\ (isRecoverable e = false \/ (i + n = retryCount - 1)%nat)
         end.
Proof.
  induction fuel as [|fuel IH]; intros i delay Hsum Hpos; [lia|].
  cbn [retry_loop].
  destruct (api i) as [a|e] eqn:Hapi.
  - exists 0%nat. rewrite Nat.add_0_r, Hapi. cbn. repeat split; [lia | intros j Hj; lia].
  - destruct (isRecoverable e) eqn:Hrec; cbn [negb orb].
    + destruct (Nat.eqb_spec i (retryCount - 1)) as [Hlast|Hnot].
      * exists 0%nat. rewrite Nat.add_0_r, Hapi. cbn.
        repeat split; [lia | intros j Hj; lia | now right].
      * destruct (IH (S i) (delay * 2)) as (n & Hn & Hw & Hrecs & Hfin); [lia | lia|].
        exists (S n).
        destruct (retry_loop api retryCount (S i) (delay * 2) fuel) as [res waits].
        cbn [fst snd] in *.
        replace (i + S n)%nat with (S i + n)%nat by lia.
        repeat split.
        -- lia.
        -- cbn [backoff]. now rewrite Hw.
        -- intros [|j] Hj.
           ++ rewrite Nat.add_0_r, Hapi. exact Hrec.
           ++ replace (i + S j)%nat with (S i + j)%nat by lia. apply Hrecs. lia.
        -- exact Hfin.
    + exists 0%nat. rewrite Nat.add_0_r, Hapi. cbn.
      repeat split; [lia | intros j Hj; lia | now left].
Qed.

Lemma backoff_sum (n : nat) : forall d, 0 <= d ->
  fold_right Z.add 0 (backoff d n) = d * (2 ^ Z.of_nat n - 1).
Proof.
  induction n as [|n IH]; intros d Hd; [cbn; lia|].
  cbn [backoff fold_right]. rewrite IH by lia.
  rewrite Nat2Z.inj_succ, Z.pow_succ_r by lia. lia.
Qed.

(** X11.  With a positive [retryCount] the helper makes at most [retryCount]
    calls: it waits 1000, 2000, 4000, ... ms after each recoverable failure
    ([n] waits, [n < retryCount], [1000 * (2^n - 1)] ms in all), returns
    the first success, and throws the first error that is not recoverable
    or that comes from the last allowed call.  With [retryCount = 0] it
    makes no call and resolves to undefined. *)
Theorem retry_backoff {A : Type} (api : nat -> Outcome A) (retryCount : nat) :
  ((0 < retryCount)%nat ->
   exists n, (n < retryCount)%nat
     /\ snd (generateContentWithRetry api retryCount) = backoff 1000 n
     /\ fold_right Z.add 0 (snd (generateContentWithRetry api retryCount))
        = 1000 * (2 ^ Z.of_nat n - 1)
     /\ (forall j, (j < n)%nat -> recoverable_failure (api j))
     /\ match api n with
        | Resolved a => fst (generateContentWithRetry api retryCount) = Returned a
        | Rejected e =>
          fst (generateContentWithRetry api retryCount) = Threw e
          /\ (isRecoverable e = false \/ n = (retryCount - 1)%nat)
        end)
  /\ (retryCount = 0%nat -> generateContentWithRetry api retryCount = (Undefined, [])).
Proof.
  split.
  - intros Hpos. unfold generateContentWithRetry.
    destruct (retry_loop_spec api retryCount retryCount 0 1000) as (n & Hn & Hw & Hr & Hf);
      [lia | exact Hpos|].
    exists n. cbn [Nat.add] in *. repeat split; try assumption.
    rewrite Hw. apply backoff_sum. lia.
  - intros ->. reflexivity.
Qed.

Lemma retry_backoff_witness :
  generateContentWithRetry flaky_api 3 = (Returned "{}", [1000; 2000])
  /\ exists n, (n < 3)%nat /\ snd (generateContentWithRetry flaky_api 3) = backoff 1000 n.
Proof.
  split; [reflexivity|].
  destruct (proj1 (retry_backoff flaky_api 3) ltac:(lia)) as (n & Hn & Hw & _).
  exists n. split; assumption.
Defined.

(** X12.  The fallback classifier never turns a sentence with a stop word (stop,
    cancel, quit, exit) into a command that starts walking mode, navigation
    or companion mode: it yields STOP_NAVIGATION or WALKING_MODE_OFF, or
    SAFETY_CHECK when the sentence also has a safety word.  Whatever it
    yields has no destination, so a fallback NAVIGATE makes the pipeline ask
    "Where would you like to go?" and request no route. *)
Theorem fallback_stop_words_win (text : string) :
  (stop_word (toLowerCase text) = true ->
   exists f, simpleIntentParser text = Some f /\ stops_something (fi_type f) = true)
  /\ (forall f cid r w,
        simpleIntentParser text = Some f -> fi_type f = NAVIGATE ->
        r_ok r = true -> r_intent r = intent_of_fallback f -> interactionIdRef w = cid ->
        resume (K_pc_classify cid) r w
        = speak "Where would you like to go?" false K_pc_ask_destination w).
Proof.
  split.
  - unfold stop_word, simpleIntentParser. intros H. cbv zeta. rewrite H.
    destruct (includes (toLowerCase text) "safe" || includes (toLowerCase text) "danger"
              || includes (toLowerCase text) "watch out");
      [eexists; split; reflexivity|].
    destruct (includes (toLowerCase text) "navigation" || includes (toLowerCase text) "route");
      [eexists; split; reflexivity|].
    destruct (includes (toLowerCase text) "walking" || includes (toLowerCase text) "mode");
      eexists; split; reflexivity.
  - intros f cid r w _ Hty Hok Hint Hid. cbn [resume awaits_speech].
    unfold pc_after_classify, is_current. rewrite Hok, Hid, Z.eqb_refl, Hint. cbn [negb].
    cbv zeta. unfold intent_of_fallback. cbn [type destination]. now rewrite Hty.
Qed.

Lemma fallback_stop_words_win_witness :
  exists f, simpleIntentParser "Stop and take me to the park" = Some f
            /\ stops_something (fi_type f) = true.
Proof.
  exact (proj1 (fallback_stop_words_win "Stop and take me to the park") eq_refl).
Defined.






Lemma indexOf_app (c : ascii) (pre rest : string) :
  indexOf c pre = None ->
  indexOf c (pre ++ String c rest) = Some (String.length pre).
Proof.
  induction pre as [|a r IH]; simpl; intros H.
  - now rewrite Ascii.eqb_refl.
  - destruct (Ascii.eqb a c); [discriminate|].
    destruct (indexOf c r); [discriminate|]. now rewrite IH.
Qed.

Lemma lastIndexOf_none (c : ascii) (s : string) :
  indexOf c s = None -> lastIndexOf c s = None.
Proof.
  induction s as [|a r IH]; simpl; [reflexivity|].
  destruct (Ascii.eqb a c); [discriminate|].
  destruct (indexOf c r); [discriminate|]. intros _. now rewrite IH.
Qed.

Lemma lastIndexOf_app (c : ascii) (pre post : string) :
  indexOf c post = None ->
  lastIndexOf c (pre ++ String c post) = Some (String.length pre).
Proof.
  intros H. induction pre as [|a r IH]; simpl.
  - now rewrite (lastIndexOf_none c post H), Ascii.eqb_refl.
  - now rewrite IH.
Qed.

Lemma substring_middle (pre mid post : string) :
  String.substring (String.length pre) (String.length mid) (pre ++ mid ++ post) = mid.
Proof.
  induction pre as [|a r IH]; simpl; [|exact IH].
  induction mid as [|b m IHm]; simpl.
  - destruct post; reflexivity.
  - now rewrite IHm.
Qed.

Lemma length_app (a b : string) :
  String.length (a ++ b) = (String.length a + String.length b)%nat.
Proof. induction a as [|c r IH]; simpl; [reflexivity|]. now rewrite IH. Qed.

Lemma append_assoc (a b c : string) : (a ++ b) ++ c = a ++ (b ++ c).
Proof. induction a as [|x r IH]; simpl; [reflexivity|]. now rewrite IH. Qed.

(** X14.  The hazard reply is parsed from its first opening brace to its last
    closing brace: text around the JSON object (a code fence, a remark of
    the model) is dropped and the object is parsed exactly as sent. A reply
    with no text at all is parsed as the empty object, one with no brace
    gives no hazard, and when the only closing braces stand before the first
    opening brace the swapped bounds of [substring] hand the parser the text
    between the two, braces excluded. *)
Theorem hazard_json_extracted (JSON_parse : string -> option WalkingHazard) :
  (forall pre body post,
      indexOf "{" pre = None -> indexOf "}" post = None ->
      analyzeWalkingSafety JSON_parse false false
                           (ApiText (Some (pre ++ "{" ++ body ++ "}" ++ post)))
      = JSON_parse ("{" ++ body ++ "}"))
  /\ analyzeWalkingSafety JSON_parse false false (ApiText None) = JSON_parse "{}"
  /\ analyzeWalkingSafety JSON_parse false false (ApiText (Some "")) = JSON_parse "{}"
  /\ (forall t, truthy t = true -> (indexOf "{" t = None \/ indexOf "}" t = None) ->
                analyzeWalkingSafety JSON_parse false false (ApiText (Some t)) = None)
  /\ (forall pre mid post,
         indexOf "{" pre = None -> indexOf "{" mid = None -> indexOf "}" mid = None ->
         indexOf "}" post = None ->
         analyzeWalkingSafety JSON_parse false false
                              (ApiText (Some (pre ++ "}" ++ mid ++ "{" ++ post)))
         = JSON_parse mid).
Proof.
  split; [|split; [reflexivity|split; [reflexivity|split]]].
  - intros pre body post Hpre Hpost.
    unfold analyzeWalkingSafety, hazard_of_text.
    assert (Ht : truthy (pre ++ "{" ++ body ++ "}" ++ post) = true)
      by (destruct pre; reflexivity).
    rewrite Ht.
    change (pre ++ "{" ++ body ++ "}" ++ post)
      with (pre ++ String "{" (body ++ "}" ++ post)) at 1.
    rewrite (indexOf_app "{" pre _ Hpre).
    replace (pre ++ "{" ++ body ++ "}" ++ post)
      with ((pre ++ "{" ++ body) ++ String "}" post) at 1
      by (now rewrite !append_assoc).
    rewrite (lastIndexOf_app "}" _ post Hpost).
    f_equal. unfold js_substring.
    rewrite !length_app. cbn [String.length].
    rewrite Nat.min_l, Nat.max_r by lia.
    replace (String.length pre + (1 + String.length body) + 1 - String.length pre)%nat
      with (String.length ("{" ++ body ++ "}")) by (rewrite !length_app; cbn; lia).
    replace (pre ++ "{" ++ body ++ "}" ++ post)
      with (pre ++ ("{" ++ body ++ "}") ++ post)
      by (now rewrite !append_assoc).
    apply substring_middle.
  - intros t Ht Hno. unfold analyzeWalkingSafety, hazard_of_text. rewrite Ht.
    destruct Hno as [H|H].
    + now rewrite H.
    + rewrite (lastIndexOf_none _ _ H). now destruct (indexOf "{" t).
  - intros pre mid post Hpre Hmo Hmc Hpost.
    unfold analyzeWalkingSafety, hazard_of_text.
    assert (Ht : truthy (pre ++ "}" ++ mid ++ "{" ++ post) = true)
      by (destruct pre; reflexivity).
    rewrite Ht.
    assert (Hi : indexOf "{" (pre ++ "}" ++ mid) = None).
    { clear - Hpre Hmo. induction pre as [|a r IH]; simpl in *.
      - now rewrite Hmo.
      - destruct (Ascii.eqb a "{"); [discriminate|].
        destruct (indexOf "{" r); [discriminate|]. now rewrite IH. }
    assert (Hj : indexOf "}" (mid ++ "{" ++ post) = None).
    { clear - Hmc Hpost. induction mid as [|a r IH]; simpl in *.
      - now rewrite Hpost.
      - destruct (Ascii.eqb a "}"); [discriminate|].
        destruct (indexOf "}" r); [discriminate|]. now rewrite IH. }
    replace (pre ++ "}" ++ mid ++ "{" ++ post)
      with ((pre ++ "}" ++ mid) ++ String "{" post) at 1
      by (now rewrite !append_assoc).
    rewrite (indexOf_app "{" _ post Hi).
    change (pre ++ "}" ++ mid ++ "{" ++ post)
      with (pre ++ String "}" (mid ++ "{" ++ post)) at 1.
    rewrite (lastIndexOf_app "}" pre _ Hj).
    f_equal. unfold js_substring.
    rewrite !length_app. cbn [String.length].
    rewrite Nat.min_r, Nat.max_l by lia.
    replace (String.length pre + (1 + String.length mid) - (String.length pre + 1))%nat
      with (String.length mid) by lia.
    replace (String.length pre + 1)%nat with (String.length (pre ++ "}"))
      by (rewrite length_app; reflexivity).
    replace (pre ++ "}" ++ mid ++ "{" ++ post)
      with ((pre ++ "}") ++ mid ++ ("{" ++ post))
      by (now rewrite !append_assoc).
    apply substring_middle.
Qed.

Lemma hazard_json_extracted_witness :
  analyzeWalkingSafety (parse_only "{pole}" uncategorised_pole) false false
                       (ApiText (Some "json: {pole} (end)"))
  = Some uncategorised_pole.
Proof.
  exact (proj1 (hazard_json_extracted (parse_only "{pole}" uncategorised_pole))
               "json: " "pole" " (end)" eq_refl eq_refl).
Defined.

(** * Properties of audioService.ts *)

(** ** Speech is stripped of markup *)

Lemma includes_char (d c : ascii) (r : string) :
  includes (String c r) (String d "") = (Ascii.eqb d c || includes r (String d ""))%bool.
Proof.
  cbn [includes String.prefix].
  destruct (ascii_dec d c) as [E|E].
  - subst. rewrite Ascii.eqb_refl. now destruct r.
  - apply Ascii.eqb_neq in E. now rewrite E.
Qed.

Lemma replace_tags_gt (inside : bool) (text : string) :
  includes (AudioService.replace_tags inside text) ">" = true -> includes text ">" = true.
Proof.
  revert inside. induction text as [|c r IH]; intros inside; [now destruct inside|].
  rewrite includes_char. cbn [AudioService.replace_tags].
  destruct inside.
  - rewrite Ascii.eqb_sym. destruct (Ascii.eqb ">" c); [reflexivity|]. apply IH.
  - destruct (Ascii.eqb c "<" && includes r ">") eqn:E.
    + intros H. apply IH in H. rewrite H. apply orb_true_r.
    + rewrite includes_char. destruct (Ascii.eqb ">" c); [reflexivity|]. apply IH.
Qed.

Lemma tag_free_replace_tags (inside : bool) (text : string) :
  tag_free (AudioService.replace_tags inside text) = true.
Proof.
  revert inside. induction text as [|c r IH]; intros inside; [now destruct inside|].
  cbn [AudioService.replace_tags]. destruct inside.
  - destruct (Ascii.eqb c ">"); apply IH.
  - destruct (Ascii.eqb c "<" && includes r ">") eqn:E; [apply IH|].
    cbn [tag_free]. rewrite IH, andb_true_r. apply negb_true_iff.
    apply andb_false_iff in E. destruct E as [E|E]; [now rewrite E|].
    destruct (includes (AudioService.replace_tags false r) ">") eqn:G.
    + apply replace_tags_gt in G. congruence.
    + apply andb_false_r.
Qed.

Lemma tag_free_fixed (text : string) :
  tag_free text = true -> AudioService.replace_tags false text = text.
Proof.
  induction text as [|c r IH]; [reflexivity|].
  cbn [tag_free AudioService.replace_tags]. intros H.
  apply andb_true_iff in H. destruct H as [H1 H2].
  apply negb_true_iff in H1. rewrite H1. now rewrite IH.
Qed.

Lemma tag_free_split (text a b : string) :
  tag_free text = true -> text = a ++ String "<" b -> includes b ">" = false.
Proof.
  revert text. induction a as [|x a IH]; intros text H E; subst text.
  - cbn in H. apply andb_true_iff in H. destruct H as [H _].
    now apply negb_true_iff in H.
  - cbn [String.append tag_free] in H. apply andb_true_iff in H. destruct H as [_ H].
    now apply (IH _ H).
Qed.

Lemma no_lt_tag_free (text : string) : includes text "<" = false -> tag_free text = true.
Proof.
  induction text as [|c r IH]; [reflexivity|].
  rewrite includes_char. intros H. apply orb_false_iff in H. destruct H as [H1 H2].
  cbn [tag_free]. rewrite Ascii.eqb_sym, H1. cbn. auto.
Qed.

(** X15.  What [speak] hands to the synthesiser holds no tag: wherever a "<" is
    left in it, no ">" follows.  Cleaning changes nothing in a text that
    has no "<", so cleaning twice is cleaning once, and a spoken text is
    never longer than the text asked for. *)
Theorem spoken_text_has_no_tags (text : string) (s : AudioService.State) :
  (exists clean,
      AudioService.utterances (AudioService.speak text s)
      = clean :: AudioService.utterances s
      /\ clean = AudioService.cleanText text
      /\ forall a b, clean = a ++ String "<" b -> includes b ">" = false)
  /\ (includes text "<" = false -> AudioService.cleanText text = text)
  /\ AudioService.cleanText (AudioService.cleanText text) = AudioService.cleanText text
  /\ (String.length (AudioService.cleanText text) <= String.length text)%nat.
Proof.
  split; [|split; [|split]].
  - eexists. split; [reflexivity|]. split; [reflexivity|].
    intros a b E. eapply tag_free_split; [|exact E].
    apply tag_free_replace_tags.
  - intros H. apply tag_free_fixed. now apply no_lt_tag_free.
  - apply tag_free_fixed. apply tag_free_replace_tags.
  - unfold AudioService.cleanText. generalize false.
    induction text as [|c r IH]; intros inside; [destruct inside; apply Nat.le_refl|].
    cbn [AudioService.replace_tags String.length].
    destruct inside.
    + destruct (Ascii.eqb c ">"); apply Nat.le_le_succ_r, IH.
    + destruct (Ascii.eqb c "<" && includes r ">").
      * apply Nat.le_le_succ_r, IH.
      * cbn [String.length]. apply le_n_S, IH.
Qed.

Lemma spoken_text_has_no_tags_witness :
  AudioService.cleanText "Turn <b>left</b> now" = "Turn left now"
  /\ AudioService.cleanText "2 < 3" = "2 < 3"
  /\ AudioService.cleanText "Path clear." = "Path clear.".
Proof.
  split; [vm_compute; reflexivity|]. split; [vm_compute; reflexivity|].
  exact (proj1 (proj2 (spoken_text_has_no_tags "Path clear." AudioService.initial)) eq_refl).
Defined.

Lemma append_nil_r (s : string) : s ++ "" = s.
Proof. induction s as [|c r IH]; simpl; [reflexivity|]. now rewrite IH. Qed.

Lemma recording_listen (s : AudioService.State) :
  recording (AudioService.promises s) "" "" (AudioService.resolved s)
            (AudioService.listen true s).
Proof. repeat split. Qed.

Lemma recording_results (p : nat) (full sess : string) (res : list (nat * string))
      (results : list (list string)) (s : AudioService.State) :
  recording p full sess res s ->
  recording p full (match rev results with
                    | [] => sess
                    | last :: _ => fold_left String.append last ""
                    end) res
            (AudioService.run (map AudioService.Result results) s).
Proof.
  revert s sess. induction results as [|r rs IH] using rev_ind; intros s sess H.
  - exact H.
  - rewrite map_app, rev_app_distr. unfold AudioService.run. rewrite fold_left_app.
    cbn [map fold_left rev app AudioService.step].
    fold (AudioService.run (map AudioService.Result rs) s).
    specialize (IH s sess H).
    destruct IH as (H1 & H2 & H3 & H4 & _ & H6).
    repeat split; assumption.
Qed.

Lemma recording_onend (p : nat) (full sess : string) (res : list (nat * string))
      (s : AudioService.State) :
  recording p full sess res s ->
  recording p (if truthy sess then full ++ sess ++ " " else full) "" res
            (AudioService.onend s).
Proof.
  intros (H1 & H2 & H3 & H4 & H5 & H6).
  unfold AudioService.onend. rewrite H1, H2, H5. cbn [negb].
  destruct (truthy sess); unfold AudioService._startRecognitionCycle, recording;
    cbn; rewrite ?H1; cbn; repeat split; congruence.
Qed.

Lemma recording_session (p : nat) (full : string) (res : list (nat * string))
      (results : list (list string)) (s : AudioService.State) :
  recording p full "" res s ->
  recording p (if truthy (session_text results)
               then full ++ session_text results ++ " " else full) "" res
            (AudioService.run (session results) s).
Proof.
  intros H. unfold session, AudioService.run. rewrite fold_left_app.
  cbn [fold_left AudioService.step].
  apply recording_onend. apply (recording_results _ _ _ _ results) in H. exact H.
Qed.

Lemma recording_sessions (p : nat) (full : string) (res : list (nat * string))
      (interrupted : list (list (list string))) (s : AudioService.State) :
  recording p full "" res s ->
  recording p (full ++ stitched (map session_text interrupted)) "" res
            (AudioService.run (flat_map session interrupted) s).
Proof.
  revert s full. induction interrupted as [|x xs IH]; intros s full H.
  - cbn. now rewrite append_nil_r.
  - cbn [flat_map map stitched]. unfold AudioService.run. rewrite fold_left_app.
    apply (recording_session _ _ _ x) in H. apply IH in H.
    unfold AudioService.run in H.
    destruct (truthy (session_text x)).
    + now rewrite !append_assoc in H.
    + exact H.
Qed.

Lemma recording_stop (p : nat) (full sess : string) (res : list (nat * string))
      (s : AudioService.State) :
  recording p full sess res s ->
  let s' := AudioService.onend (AudioService.stopListening s) in
  AudioService.resolved s' = (p, trim (full ++ " " ++ sess)) :: res
  /\ AudioService.isListening s' = false
  /\ AudioService.resolveRecording s' = None.
Proof.
  intros (H1 & H2 & H3 & H4 & H5 & H6).
  unfold AudioService.onend, AudioService.stopListening. rewrite H1. cbn.
  rewrite ?H1, ?H3, ?H4, ?H5, ?H6. cbn. repeat split.
Qed.

(** X16.  A recording that the browser cuts into several recognition sessions
    still resolves with everything that was heard: the texts of the
    sessions the browser ended, in order and separated by one space, then
    the text of the session that was running when the recording was stopped
    (by the button, the silence timer or the duration limit), trimmed.
    Sessions that heard nothing leave no trace, and within a session only
    the last result event counts. *)
Theorem transcript_stitched
        (interrupted : list (list (list string))) (final : list (list string))
        (s : AudioService.State) :
  AudioService.resolved (AudioService.run (recording_events interrupted final) s)
  = (AudioService.promises s,
     trim (stitched (map session_text interrupted) ++ " " ++ session_text final))
      :: AudioService.resolved s
  /\ AudioService.isListening (AudioService.run (recording_events interrupted final) s)
     = false
  /\ AudioService.resolveRecording (AudioService.run (recording_events interrupted final) s)
     = None.
Proof.
  unfold recording_events, AudioService.run. cbn [fold_left AudioService.step].
  rewrite !fold_left_app. cbn [fold_left AudioService.step].
  pose proof (recording_listen s) as H.
  apply (recording_sessions _ _ _ interrupted) in H.
  apply (recording_results _ _ _ _ final) in H.
  apply recording_stop in H. cbv zeta in H.
  unfold AudioService.run in H. cbn [String.append] in H.
  exact H.
Qed.

Lemma promises_ok_initial : promises_ok AudioService.initial.
Proof.
  unfold promises_ok. cbn. repeat split; try constructor; try contradiction; discriminate.
Qed.

Lemma promises_ok_finalize (s : AudioService.State) :
  promises_ok s -> promises_ok (AudioService._finalizeAndResolve s).
Proof.
  intros (H1 & H2 & H3 & H4 & H5 & H6). unfold promises_ok. cbn.
  destruct (AudioService.resolveRecording s) as [p|] eqn:E.
  - destruct (H3 p eq_refl) as (Ha & Hb & Hc). cbn.
    refine (conj _ (conj H2 (conj _ (conj _ (conj H5 _))))).
    + intros q [Hq|Hq]; [now subst|auto].
    + intros q Hq. discriminate Hq.
    + now constructor.
    + intros q [Hq|Hq]; [now subst|auto].
  - refine (conj H1 (conj H2 (conj _ (conj H4 (conj H5 H6))))).
    intros q Hq. discriminate Hq.
Qed.

Lemma promises_ok_listen (supported : bool) (s : AudioService.State) :
  promises_ok s -> promises_ok (AudioService.listen supported s).
Proof.
  intros (H1 & H2 & H3 & H4 & H5 & H6). unfold promises_ok.
  destruct supported; cbn.
  - refine (conj _ (conj _ (conj _ (conj H4 (conj H5 H6))))).
    + intros p Hp. apply H1 in Hp. lia.
    + intros p Hp. apply H2 in Hp. lia.
    + intros p Hp. inversion Hp; subst. split; [lia|]. split.
      * intros Hx. apply H1 in Hx. lia.
      * intros Hx. apply H2 in Hx. lia.
  - refine (conj _ (conj _ (conj _ (conj H4 (conj _ _))))).
    + intros p Hp. apply H1 in Hp. lia.
    + intros p [Hp|Hp]; [lia|]. apply H2 in Hp. lia.
    + intros p Hp. destruct (H3 p Hp) as (Ha & Hb & Hc). split; [lia|]. split; [exact Hb|].
      intros [Hx|Hx]; [lia|auto].
    + constructor; [|exact H5]. intros Hx. apply H2 in Hx. lia.
    + intros p Hp [Hx|Hx]; [apply H1 in Hp; lia|]. now apply (H6 p).
Qed.

Lemma promises_ok_step (e : AudioService.Event) (s : AudioService.State) :
  promises_ok s -> promises_ok (AudioService.step e s).
Proof.
  intros H. destruct e; cbn [AudioService.step].
  - now apply promises_ok_listen.
  - unfold AudioService.stopListening. destruct (negb (AudioService.isListening s)); exact H.
  - exact H.
  - unfold AudioService.onend.
    destruct (negb (AudioService.isListening s)); [exact H|].
    destruct (AudioService.intentionalStop s); [now apply promises_ok_finalize|].
    cbv zeta. unfold AudioService._startRecognitionCycle.
    destruct (truthy (AudioService.sessionTranscript s)); cbn;
      destruct (negb (AudioService.isListening s)); exact H.
  - unfold AudioService.onerror. destruct (String.eqb error "not-allowed"); [|exact H].
    apply promises_ok_finalize in H. exact H.
  - exact H.
  - exact H.
  - exact H.
  - exact H.
  - exact H.
  - unfold AudioService.background_onresult, AudioService.call_onDistress.
    repeat match goal with |- context [if ?b then _ else _] => destruct b end; exact H.
  - unfold AudioService.noise_tick, AudioService.call_onDistress.
    repeat match goal with |- context [if ?b then _ else _] => destruct b end; exact H.
Qed.

Lemma promises_ok_run (es : list AudioService.Event) (s : AudioService.State) :
  promises_ok s -> promises_ok (AudioService.run es s).
Proof.
  revert s. induction es as [|e es IH]; intros s H; [exact H|].
  apply IH, promises_ok_step, H.
Qed.

Lemma service_run_app (es1 es2 : list AudioService.Event) (s : AudioService.State) :
  AudioService.run (es1 ++ es2) s = AudioService.run es2 (AudioService.run es1 s).
Proof. unfold AudioService.run. apply fold_left_app. Qed.

Lemma abandoned_finalize (p : nat) (s : AudioService.State) :
  abandoned p s -> abandoned p (AudioService._finalizeAndResolve s).
Proof.
  intros (H1 & H2 & H3 & H4). unfold abandoned. cbn.
  refine (conj H1 (conj _ (conj H3 _))); [|discriminate].
  destruct (AudioService.resolveRecording s) as [q|]; [|exact H2].
  cbn. intros [Hx|Hx]; [subst; now apply H4|auto].
Qed.

Lemma abandoned_step (p : nat) (e : AudioService.Event) (s : AudioService.State) :
  abandoned p s -> abandoned p (AudioService.step e s).
Proof.
  intros H. destruct e; cbn [AudioService.step].
  - destruct H as (H1 & H2 & H3 & H4). unfold abandoned, AudioService.listen.
    destruct supported; cbn.
    + refine (conj _ (conj H2 (conj H3 _))); [lia|]. intros Hx. inversion Hx. lia.
    + refine (conj _ (conj H2 (conj _ H4))); [lia|]. intros [Hx|Hx]; [lia|auto].
  - unfold AudioService.stopListening. destruct (negb (AudioService.isListening s)); exact H.
  - exact H.
  - unfold AudioService.onend.
    destruct (negb (AudioService.isListening s)); [exact H|].
    destruct (AudioService.intentionalStop s); [now apply abandoned_finalize|].
    cbv zeta. unfold AudioService._startRecognitionCycle.
    destruct (truthy (AudioService.sessionTranscript s)); cbn;
      destruct (negb (AudioService.isListening s)); exact H.
  - unfold AudioService.onerror. destruct (String.eqb error "not-allowed"); [|exact H].
    apply abandoned_finalize in H. exact H.
  - exact H.
  - exact H.
  - exact H.
  - exact H.
  - exact H.
  - unfold AudioService.background_onresult, AudioService.call_onDistress.
    repeat match goal with |- context [if ?b then _ else _] => destruct b end; exact H.
  - unfold AudioService.noise_tick, AudioService.call_onDistress.
    repeat match goal with |- context [if ?b then _ else _] => destruct b end; exact H.
Qed.

Lemma abandoned_run (p : nat) (es : list AudioService.Event) (s : AudioService.State) :
  abandoned p s -> abandoned p (AudioService.run es s).
Proof.
  revert s. induction es as [|e es IH]; intros s H; [exact H|].
  apply IH, abandoned_step, H.
Qed.

(** X17.  Whatever is called and whatever the browser reports, no promise of
    [listen] is resolved twice, and none is both resolved and rejected.  A
    second [listen()] made while a recording is still in progress takes
    over the stored resolver, and the promise of the first call is then
    never settled. *)
Theorem listen_settles_once (es : list AudioService.Event) :
  NoDup (map fst (AudioService.resolved (AudioService.run es AudioService.initial)))
  /\ (forall p, In p (map fst (AudioService.resolved (AudioService.run es AudioService.initial)))
                -> ~ In p (AudioService.rejected (AudioService.run es AudioService.initial)))
  /\ (forall p later,
         AudioService.resolveRecording (AudioService.run es AudioService.initial) = Some p ->
         ~ In p (map fst (AudioService.resolved
                            (AudioService.run (es ++ AudioService.Listen true :: later)
                                              AudioService.initial)))
         /\ ~ In p (AudioService.rejected
                      (AudioService.run (es ++ AudioService.Listen true :: later)
                                        AudioService.initial))).
Proof.
  pose proof (promises_ok_run es _ promises_ok_initial) as H.
  destruct H as (H1 & H2 & H3 & H4 & H5 & H6).
  split; [exact H4|]. split; [exact H6|].
  intros p later Hp.
  destruct (H3 p Hp) as (Ha & Hb & Hc).
  assert (Hab : abandoned p (AudioService.listen true (AudioService.run es AudioService.initial))).
  { unfold abandoned. cbn. refine (conj _ (conj Hb (conj Hc _))); [lia|].
    intros Hx. inversion Hx. lia. }
  apply (abandoned_run p later) in Hab.
  rewrite !service_run_app.
  change (AudioService.run (AudioService.Listen true :: later)
                           (AudioService.run es AudioService.initial))
    with (AudioService.run later
            (AudioService.listen true (AudioService.run es AudioService.initial))).
  destruct Hab as (_ & Hr & Hj & _). split; assumption.
Qed.

Lemma listen_settles_once_witness :
  AudioService.resolveRecording
    (AudioService.run [AudioService.Listen true; AudioService.Result ["hello"]]
                      AudioService.initial) = Some 0%nat
  /\ ~ In 0%nat (map fst (AudioService.resolved
                            (AudioService.run
                               ([AudioService.Listen true; AudioService.Result ["hello"]]
                                  ++ AudioService.Listen true
                                  :: [AudioService.StopListening; AudioService.End_])
                               AudioService.initial))).
Proof.
  split; [reflexivity|].
  exact (proj1 (proj2 (proj2 (listen_settles_once
                                [AudioService.Listen true; AudioService.Result ["hello"]]))
                      0%nat [AudioService.StopListening; AudioService.End_] eq_refl)).
Defined.

(** ** Distress detection *)

